(** * DIPlib measurement infrastructure: the [dip::Measurement] table,
      the [dip::MeasurementTool] feature registry and the "Mass" feature.

    A shallow embedding of [diplib/measurement.h], of the line-based
    feature [FeatureMass] and of [CreateOffsetsArray], followed by the
    properties of the table (build-then-forge life cycle, column layout,
    the two dual views), of the registry, of the mass accumulator and of
    the offsets of the interior pixels of an image. *)

From Stdlib Require Import PrimFloat ZArith NArith Lia.
From stdpp Require Import gmap strings list fin_maps.

Set Default Proof Using "Type".
Local Open Scope N_scope.

(** ** Machine integers

    [dip::uint] is a 64-bit unsigned integer and [dip::sint] a 64-bit
    signed one.  Values are kept in [N] and [Z]; the one operation of the
    table whose mathematical result can leave the word, the product of
    two sizes, is reduced modulo [2^64] explicitly, and so is the
    increment of an index ([Offsets] below adds the subtraction that
    [CreateOffsetsArray] needs).  The size
    of a [std::vector] never exceeds [PTRDIFF_MAX], so [size()], the sum of
    the sizes of two live vectors and the conversion of a size to
    [dip::sint] are exact. *)
Module Word.

Abbreviation uint := N.
Abbreviation uint32 := N.
Abbreviation sint := Z.

Definition modulus : N := 2 ^ 64.

Definition wrap (n : N) : uint := n mod modulus.

(** [a * b] on [dip::uint]. *)
Definition mul (a b : uint) : uint := wrap (a * b).

(** [++n] on [dip::uint]. *)
Definition incr (n : uint) : uint := wrap (n + 1).

(** Conversion between [dip::sint] and [dip::uint] in mixed arithmetic. *)
Definition of_sint (z : sint) : uint := Z.to_N (z mod Z.of_N modulus).

(** [v.size()] *)
Definition size {A} (v : list A) : uint := N.of_nat (length v).

End Word.

(** ** Outcomes of member functions

    A call returns normally, throws a [dip::Error] (every [DIP_THROW_IF]
    of the modelled code), or has no defined behaviour (an index past the
    end of a [std::vector], a dereference of an exhausted iterator). *)
Inductive Error : Type :=
  | MeasurementForged                 (* "Measurement object is forged." *)
  | NoFeatureName                     (* "No feature name given." *)
  | FeaturePresent (name : string)    (* "Feature already present: " + name *)
  | NoValues                          (* "A feature needs at least one value." *)
  | ObjectPresent (objectID : N)      (* "Object already present: " + id *)
  | ZeroSizedTable                    (* "Attempting to forge a zero-sized table." *)
  | MeasurementNotForged              (* "Measurement object not forged." *)
  | FeatureNotPresent (name : string) (* "Feature not present: " + name *)
  | ObjectNotPresent (objectID : N)   (* "Object not present: " + id *)
  | FeatureNameNotKnown (name : string) (* "Feature name not known: " + name *)
  | NOT_SCALAR.                       (* E::NOT_SCALAR *)

Inductive Outcome (A : Type) : Type :=
  | Ok (a : A)
  | Throw (e : Error)
  | Undefined.
Arguments Ok {A} a.
Arguments Throw {A} e.
Arguments Undefined {A}.

#[global] Instance Outcome_ret : MRet Outcome := fun A a => Ok a.
#[global] Instance Outcome_bind : MBind Outcome := fun A B f c =>
  match c with
  | Ok a => f a
  | Throw e => Throw e
  | Undefined => Undefined
  end.

(** A non-const member function of an object with state [S]: the state is
    threaded through, and is kept as it is at the point of a throw. *)
Definition Method (S A : Type) : Type := S -> Outcome A * S.

#[global] Instance Method_ret {S} : MRet (Method S) := fun A a s => (Ok a, s).
#[global] Instance Method_bind {S} : MBind (Method S) := fun A B f c s =>
  match c s with
  | (Ok a, s') => f a s'
  | (Throw e, s') => (Throw e, s')
  | (Undefined, s') => (Undefined, s')
  end.

(** [DIP_THROW_IF( test, str )] *)
Definition DIP_THROW_IF {S} (test : S -> bool) (e : Error) : Method S unit :=
  fun s => if test s then (Throw e, s) else (Ok tt, s).

(** A const member function called from a non-const one, and the read of
    a data member. *)
Definition call {S A} (f : S -> Outcome A) : Method S A := fun s => (f s, s).

Definition get {S A} (f : S -> A) : Method S A := fun s => (Ok (f s), s).

Definition modify {S} (f : S -> S) : Method S unit := fun s => (Ok tt, f s).

(** [for( auto const& x : xs ) body] *)
Fixpoint for_each {S A} (xs : list A) (body : A -> Method S unit) : Method S unit :=
  match xs with
  | [] => mret tt
  | x :: xs' => body x ;; for_each xs' body
  end.

(** [for( dip::uint ii = from; ii < from + count; ++ii ) body] *)
Fixpoint for_range {S} (from : Word.uint) (count : nat)
    (body : Word.uint -> Method S unit) : Method S unit :=
  match count with
  | O => mret tt
  | S count' => body from ;; for_range (from + 1) count' body
  end.

(** [v[ i ]] on a [std::vector]: undefined past the end. *)
Definition vector_at {A} (v : list A) (i : Word.uint) : Outcome A :=
  match v !! N.to_nat i with
  | Some x => Ok x
  | None => Undefined
  end.

(** [v[ i ] = x] *)
Definition vector_assign {A} (v : list A) (i : Word.uint) (x : A) : Outcome (list A) :=
  if i <? Word.size v then Ok (<[N.to_nat i := x]> v) else Undefined.

(** [m.count( k )], [m.emplace( k, x )] on a [std::map]. *)
Definition map_count `{Countable K} {V} (m : gmap K V) (k : K) : nat :=
  match m !! k with
  | Some _ => 1
  | None => 0
  end%nat.

Definition map_emplace `{Countable K} {V} (k : K) (x : V) (m : gmap K V) : gmap K V :=
  match m !! k with
  | Some _ => m
  | None => <[k := x]> m
  end.

(** [dfloat]: IEEE-754 double precision. *)
Abbreviation dfloat := float.

(** ** namespace Feature *)
Module Feature.

Inductive Type_ : Type :=
  | LINE_BASED
  | IMAGE_BASED
  | CHAINCODE_BASED
  | CONVEXHULL_BASED
  | COMPOSITE.

Module Information.
Record t : Type := mk
  { name : string;
    description : string;
    needsGreyValue : bool }.
End Information.

Abbreviation InformationArray := (list Information.t).

(** Modelled from the spec: the class [Units] is declared in a header of
    the library that this development does not cover; a value-information
    record is "a short label string plus a physical unit", and the unit is
    kept as its text. *)
Abbreviation Units := string.

Module ValueInformation.
Record t : Type := mk
  { name : string;
    units : Units }.
(** The default-constructed record, as [resize] creates it. *)
Definition default : t := mk "" "".
End ValueInformation.

Abbreviation ValueInformationArray := (list ValueInformation.t).

(** [Feature::Base]: the data members every feature carries. *)
Module Base.
Record t : Type := mk
  { information : Information.t;
    type : Type_ }.
End Base.

(** [std::unique_ptr< Base >]: the registry owns the object it holds. *)
Abbreviation Pointer := Base.t.

End Feature.

(** ** class Measurement *)
Module Measurement.

Abbreviation ValueType := dfloat.

(** [ValueIterator = ValueType*]: a pointer into the table's buffer, kept
    as its element offset from [data_.data()]. *)
Abbreviation ValueIterator := N.

Module FeatureInfo.
Record t : Type := mk
  { name : string;
    startColumn : Word.uint;
    numberValues : Word.uint }.
End FeatureInfo.

Record t : Type := mk
  { objects_ : list Word.uint;
    objectIndices_ : gmap N N;
    features_ : list FeatureInfo.t;
    values_ : Feature.ValueInformationArray;
    featureIndices_ : gmap string N;
    data_ : list ValueType }.

(** The default-constructed table. *)
Definition empty : t := mk [] ∅ [] [] ∅ [].

Definition set_objects_ (f : list Word.uint -> list Word.uint) (m : t) : t :=
  mk (f (objects_ m)) (objectIndices_ m) (features_ m) (values_ m)
     (featureIndices_ m) (data_ m).

Definition set_objectIndices_ (f : gmap N N -> gmap N N) (m : t) : t :=
  mk (objects_ m) (f (objectIndices_ m)) (features_ m) (values_ m)
     (featureIndices_ m) (data_ m).

Definition set_features_ (f : list FeatureInfo.t -> list FeatureInfo.t) (m : t) : t :=
  mk (objects_ m) (objectIndices_ m) (f (features_ m)) (values_ m)
     (featureIndices_ m) (data_ m).

Definition set_values_
    (f : Feature.ValueInformationArray -> Feature.ValueInformationArray) (m : t) : t :=
  mk (objects_ m) (objectIndices_ m) (features_ m) (f (values_ m))
     (featureIndices_ m) (data_ m).

Definition set_featureIndices_ (f : gmap string N -> gmap string N) (m : t) : t :=
  mk (objects_ m) (objectIndices_ m) (features_ m) (values_ m)
     (f (featureIndices_ m)) (data_ m).

Definition set_data_ (f : list ValueType -> list ValueType) (m : t) : t :=
  mk (objects_ m) (objectIndices_ m) (features_ m) (values_ m)
     (featureIndices_ m) (f (data_ m)).

(** [v.empty()] *)
Definition vector_empty {A} (v : list A) : bool :=
  match v with
  | [] => true
  | _ :: _ => false
  end.

Definition IsForged (m : t) : bool := negb (vector_empty (data_ m)).

Definition FeatureExists (m : t) (name : string) : bool :=
  negb (Nat.eqb (map_count (featureIndices_ m) name) 0).

Definition FeatureIndex (m : t) (name : string) : Outcome Word.uint :=
  match featureIndices_ m !! name with
  | None => Throw (FeatureNotPresent name)
  | Some second => Ok second
  end.

Definition Features (m : t) : list FeatureInfo.t := features_ m.

Definition NumberOfFeatures (m : t) : Word.uint := Word.size (features_ m).

Definition ValueIndex (m : t) (name : string) : Outcome Word.uint :=
  index ← FeatureIndex m name;
  feature ← vector_at (features_ m) index;
  mret (FeatureInfo.startColumn feature).

Definition Values (m : t) : Feature.ValueInformationArray := values_ m.

Definition NumberOfValues (m : t) : Word.uint := Word.size (values_ m).

Definition NumberOfValues_of (m : t) (name : string) : Outcome Word.uint :=
  index ← FeatureIndex m name;
  feature ← vector_at (features_ m) index;
  mret (FeatureInfo.numberValues feature).

(** [Values( name )]: the loop copies [numberValues] records of [values_],
    from [startColumn] on, into a local array of that size. *)
Definition Values_of (m : t) (name : string) : Outcome Feature.ValueInformationArray :=
  index ← FeatureIndex m name;
  feature ← vector_at (features_ m) index;
  let values :=
    replicate (N.to_nat (FeatureInfo.numberValues feature))
              Feature.ValueInformation.default in
  match
    for_range 0 (N.to_nat (FeatureInfo.numberValues feature)) (fun ii =>
      x ← call (fun _ => vector_at (values_ m) (ii + FeatureInfo.startColumn feature));
      assigned ← call (fun values => vector_assign values ii x);
      modify (fun _ => assigned)) values
  with
  | (Ok _, values) => Ok values
  | (Throw e, _) => Throw e
  | (Undefined, _) => Undefined
  end.

Definition ObjectExists (m : t) (objectID : Word.uint) : bool :=
  negb (Nat.eqb (map_count (objectIndices_ m) objectID) 0).

Definition ObjectIndex (m : t) (objectID : Word.uint) : Outcome Word.uint :=
  match objectIndices_ m !! objectID with
  | None => Throw (ObjectNotPresent objectID)
  | Some second => Ok second
  end.

Definition Objects (m : t) : list Word.uint := objects_ m.

Definition NumberOfObjects (m : t) : Word.uint := Word.size (objects_ m).

(** [Data()]: the address of the first element, offset 0 of the buffer. *)
Definition Data (m : t) : Outcome ValueIterator :=
  if negb (IsForged m) then Throw MeasurementNotForged else Ok 0.

(** [Stride()] has no [DIP_THROW_IF]: it returns on every table. *)
Definition Stride (m : t) : Outcome Word.sint :=
  Ok (Z.of_N (Word.size (values_ m))).

(** Reading and writing a value through a [ValueIterator]. *)
Definition load (m : t) (p : ValueIterator) : Outcome ValueType :=
  vector_at (data_ m) p.

Definition store (p : ValueIterator) (x : ValueType) : Method t unit :=
  data ← call (fun m => vector_assign (data_ m) p x);
  modify (set_data_ (fun _ => data)).

(** The parameter [values] of [AddFeature], [EnsureFeature] and
    [AddFeature_] is a [Feature::ValueInformationArray const&]: a
    reference to an array of the caller's, or to [values_] of the table
    the function is called on, which [Values()] returns by reference.  The
    functions read it through the reference, in the state of the moment:
    [referred] is the array it stands for.  An array of the caller's is
    written as the array itself. *)
Inductive ValuesReference : Type :=
  | Array (values : Feature.ValueInformationArray)
  | OwnValues.

Definition referred (values : ValuesReference) (m : t) : Feature.ValueInformationArray :=
  match values with
  | Array values => values
  | OwnValues => values_ m
  end.

(** [values.size()] is read anew for the [resize], for the loop and for
    the [FeatureInfo]; the writes of the loop do not change it, so the
    bound of the loop is its value when the loop starts. *)
Definition AddFeature_ (name : string) (values : ValuesReference) : Method t unit :=
  startIndex ← get (fun m => Word.size (values_ m));
  size ← get (fun m => Word.size (referred values m));
  modify (set_values_
            (resize (N.to_nat (startIndex + size)) Feature.ValueInformation.default)) ;;
  bound ← get (fun m => length (referred values m));
  for_range 0 bound (fun ii =>
    x ← call (fun m => vector_at (referred values m) ii);
    assigned ← call (fun m => vector_assign (values_ m) (startIndex + ii) x);
    modify (set_values_ (fun _ => assigned))) ;;
  index ← get (fun m => Word.size (features_ m));
  numberValues ← get (fun m => Word.size (referred values m));
  modify (set_features_
            (fun fs => fs ++ [FeatureInfo.mk name startIndex numberValues])) ;;
  modify (set_featureIndices_ (map_emplace name index)).

Definition AddFeature (name : string) (values : ValuesReference) : Method t unit :=
  DIP_THROW_IF IsForged MeasurementForged ;;
  DIP_THROW_IF (fun _ => bool_decide (name = "")) NoFeatureName ;;
  DIP_THROW_IF (fun m => FeatureExists m name) (FeaturePresent name) ;;
  DIP_THROW_IF (fun m => vector_empty (referred values m)) NoValues ;;
  AddFeature_ name values.

Definition EnsureFeature (name : string) (values : ValuesReference) : Method t unit :=
  DIP_THROW_IF IsForged MeasurementForged ;;
  DIP_THROW_IF (fun _ => bool_decide (name = "")) NoFeatureName ;;
  exists_ ← get (fun m => FeatureExists m name);
  if exists_ : bool then mret tt
  else
    DIP_THROW_IF (fun m => vector_empty (referred values m)) NoValues ;;
    AddFeature_ name values.

(** [objectIDs] is a reference too; when it refers to [objects_] itself,
    no round runs (no object yet) or the first round throws before
    anything is written, as with a copy of the array. *)
Definition AddObjectIDs (objectIDs : list Word.uint) : Method t unit :=
  DIP_THROW_IF IsForged MeasurementForged ;;
  for_each objectIDs (fun objectID =>
    DIP_THROW_IF (fun m => ObjectExists m objectID) (ObjectPresent objectID) ;;
    index ← get (fun m => Word.size (objects_ m));
    modify (set_objects_ (fun os => os ++ [objectID])) ;;
    modify (set_objectIndices_ (map_emplace objectID index))).

Definition Forge : Method t unit :=
  forged ← get IsForged;
  if negb forged then
    n ← get (fun m => Word.mul (Word.size (values_ m)) (Word.size (objects_ m)));
    DIP_THROW_IF (fun _ => n =? 0) ZeroSizedTable ;;
    modify (set_data_ (resize (N.to_nat n) 0%float))
  else mret tt.

(** *** The feature view and its cells

    The C++ views hold a reference to the table they were made from; here
    the table is the first argument of every member function. *)
Module IteratorFeature.

Record t : Type := mk { index_ : Word.uint }.

Definition NumberOfFeatures (m : Measurement.t) (it : t) : Word.uint :=
  Measurement.NumberOfFeatures m.

Definition Feature (m : Measurement.t) (it : t) : Outcome FeatureInfo.t :=
  vector_at (features_ m) (index_ it).

Definition Name (m : Measurement.t) (it : t) : Outcome string :=
  feature ← Feature m it; mret (FeatureInfo.name feature).

Definition NumberOfObjects (m : Measurement.t) (it : t) : Word.uint :=
  Measurement.NumberOfObjects m.

Definition ObjectIndex (m : Measurement.t) (it : t) (objectID : Word.uint)
    : Outcome Word.uint :=
  Measurement.ObjectIndex m objectID.

Definition IsAtEnd (m : Measurement.t) (it : t) : bool :=
  negb (index_ it <? NumberOfFeatures m it).

(** [operator++]: [++index_] *)
Definition next (it : t) : t := mk (Word.incr (index_ it)).

Module Iterator.

Record t : Type := mk
  { feature_ : IteratorFeature.t;
    index_ : Word.uint }.

Definition begin (m : Measurement.t) (it : t) : Outcome ValueIterator :=
  stride ← Stride m;
  feature ← IteratorFeature.Feature m (feature_ it);
  mret (0 + Word.mul (index_ it) (Word.of_sint stride)
          + FeatureInfo.startColumn feature).

Definition size (m : Measurement.t) (it : t) : Outcome Word.uint :=
  feature ← IteratorFeature.Feature m (feature_ it);
  mret (FeatureInfo.numberValues feature).

Definition end_ (m : Measurement.t) (it : t) : Outcome ValueIterator :=
  first ← begin m it; count ← size m it; mret (first + count).

(** [operator[]( index )]: the address [begin() + index] it refers to. *)
Definition subscript (m : Measurement.t) (it : t) (index : Word.uint)
    : Outcome ValueIterator :=
  first ← begin m it; mret (first + index).

Definition next (it : t) : t := mk (feature_ it) (Word.incr (index_ it)).

Definition IsAtEnd (m : Measurement.t) (it : t) : bool :=
  negb (index_ it <? IteratorFeature.NumberOfObjects m (feature_ it)).

Definition ObjectID (m : Measurement.t) (it : t) : Outcome Word.uint :=
  vector_at (objects_ m) (index_ it).

End Iterator.

Definition FirstObject (it : t) : Iterator.t := Iterator.mk it 0.

(** [operator[]( objectID )] *)
Definition subscript (m : Measurement.t) (it : t) (objectID : Word.uint)
    : Outcome Iterator.t :=
  index ← ObjectIndex m it objectID; mret (Iterator.mk it index).

End IteratorFeature.

(** *** The object view and its cells *)
Module IteratorObject.

Record t : Type := mk { index_ : Word.uint }.

Definition ObjectID (m : Measurement.t) (it : t) : Outcome Word.uint :=
  vector_at (objects_ m) (index_ it).

Definition NumberOfFeatures (m : Measurement.t) (it : t) : Word.uint :=
  Measurement.NumberOfFeatures m.

Definition NumberOfObjects (m : Measurement.t) (it : t) : Word.uint :=
  Measurement.NumberOfObjects m.

Definition FeatureIndex (m : Measurement.t) (it : t) (name : string)
    : Outcome Word.uint :=
  Measurement.FeatureIndex m name.

Definition IsAtEnd (m : Measurement.t) (it : t) : bool :=
  negb (index_ it <? NumberOfObjects m it).

Definition next (it : t) : t := mk (Word.incr (index_ it)).

Module Iterator.

Record t : Type := mk
  { object_ : IteratorObject.t;
    index_ : Word.uint }.

Definition Feature (m : Measurement.t) (it : t) : Outcome FeatureInfo.t :=
  vector_at (features_ m) (index_ it).

Definition begin (m : Measurement.t) (it : t) : Outcome ValueIterator :=
  data ← Data m;
  stride ← Stride m;
  feature ← Feature m it;
  mret (data + Word.mul (IteratorObject.index_ (object_ it)) (Word.of_sint stride)
          + FeatureInfo.startColumn feature).

Definition size (m : Measurement.t) (it : t) : Outcome Word.uint :=
  feature ← Feature m it; mret (FeatureInfo.numberValues feature).

Definition end_ (m : Measurement.t) (it : t) : Outcome ValueIterator :=
  first ← begin m it; count ← size m it; mret (first + count).

Definition subscript (m : Measurement.t) (it : t) (index : Word.uint)
    : Outcome ValueIterator :=
  first ← begin m it; mret (first + index).

Definition next (it : t) : t := mk (object_ it) (Word.incr (index_ it)).

Definition IsAtEnd (m : Measurement.t) (it : t) : bool :=
  negb (index_ it <? IteratorObject.NumberOfFeatures m (object_ it)).

Definition Name (m : Measurement.t) (it : t) : Outcome string :=
  feature ← Feature m it; mret (FeatureInfo.name feature).

End Iterator.

Definition FirstFeature (it : t) : Iterator.t := Iterator.mk it 0.

(** [operator[]( name )] *)
Definition subscript (m : Measurement.t) (it : t) (name : string)
    : Outcome Iterator.t :=
  index ← FeatureIndex m it name; mret (Iterator.mk it index).

End IteratorObject.

Definition FirstObject (m : t) : IteratorObject.t := IteratorObject.mk 0.

(** [operator[]( objectID )] *)
Definition subscript_object (m : t) (objectID : Word.uint) : Outcome IteratorObject.t :=
  index ← ObjectIndex m objectID; mret (IteratorObject.mk index).

Definition FirstFeature (m : t) : IteratorFeature.t := IteratorFeature.mk 0.

(** [operator[]( name )] *)
Definition subscript_feature (m : t) (name : string) : Outcome IteratorFeature.t :=
  index ← FeatureIndex m name; mret (IteratorFeature.mk index).

(** [msr[ name ][ objectID ][ k ]] and [msr[ objectID ][ name ][ k ]]: the
    address the expression refers to, and the value read there. *)
Definition feature_route (m : t) (name : string) (objectID k : Word.uint)
    : Outcome ValueIterator :=
  column ← subscript_feature m name;
  cell ← IteratorFeature.subscript m column objectID;
  IteratorFeature.Iterator.subscript m cell k.

Definition object_route (m : t) (objectID : Word.uint) (name : string) (k : Word.uint)
    : Outcome ValueIterator :=
  row ← subscript_object m objectID;
  cell ← IteratorObject.subscript m row name;
  IteratorObject.Iterator.subscript m cell k.

End Measurement.

(** An array handed to [AddFeature] or [EnsureFeature] is an array of the
    caller's. *)
#[warnings="-uniform-inheritance"] Coercion Measurement.Array : list >-> Measurement.ValuesReference.

(** ** class MeasurementTool: the feature registry *)
Module MeasurementTool.

Record t : Type := mk
  { features_ : list Feature.Pointer;
    featureIndices_ : gmap string N }.

(** The registry before any call of [Register]. *)
Definition empty : t := mk [] ∅.

Definition Exists (tool : t) (name : string) : bool :=
  negb (Nat.eqb (map_count (featureIndices_ tool) name) 0).

Definition Index (tool : t) (name : string) : Outcome Word.uint :=
  match featureIndices_ tool !! name with
  | None => Throw (FeatureNameNotKnown name)
  | Some second => Ok second
  end.

(** In the [else] branch the argument is released ([feature = nullptr]);
    the registry is not touched. *)
Definition Register (feature : Feature.Pointer) : Method t unit :=
  let name := Feature.Information.name (Feature.Base.information feature) in
  known ← get (fun tool => Exists tool name);
  if negb known then
    index ← get (fun tool => Word.size (features_ tool));
    modify (fun tool => mk (features_ tool ++ [feature]) (featureIndices_ tool)) ;;
    modify (fun tool => mk (features_ tool) (map_emplace name index (featureIndices_ tool)))
  else mret tt.

Definition Features (tool : t) : Feature.InformationArray :=
  fold_left (fun out feature => out ++ [Feature.Base.information feature])
            (features_ tool) [].

End MeasurementTool.

(** ** class FeatureMass: the line-based feature "Mass" *)
Module FeatureMass.

(** Modelled from the spec: the class [Image] is declared in a header of
    the library that this development does not cover; of "the minimal
    interface" the core consumes, [Initialize] reads the scalar/tensor flag
    and the dimensionality. *)
Record Image : Type := mkImage
  { IsScalar : bool;
    Dimensionality : Word.uint }.

(** Modelled from the spec: [LineIterator< T >] is declared in
    [diplib/iterators.h], which this development does not cover; within a
    scanline "pixels are presented in ascending index order".  The iterator
    is the list of the pixels from the current one to the end of the line:
    [*it] is its head, [++it] drops the head and converts to [true] while a
    pixel is left. *)
Abbreviation LineIterator T := (list T).

Definition deref {S T} (it : LineIterator T) : Method S T :=
  fun s => (match it with x :: _ => Ok x | [] => Undefined end, s).

(** Modelled from the spec: [ObjectIdToIndexMap], "the identifier→row-index
    map" handed to the features, is declared in a header that this
    development does not cover; it is "the same as the table's", the type
    of [objectIndices_]. *)
Abbreviation ObjectIdToIndexMap := (gmap N N).

Record t : Type := mk
  { nD_ : Word.uint;
    data_ : list dfloat }.

Definition information : Feature.Information.t :=
  Feature.Information.mk "Mass" "Mass of object (sum of object intensity)" true.

Definition set_data_ (f : list dfloat -> list dfloat) (self : t) : t :=
  mk (nD_ self) (f (data_ self)).

Definition Initialize (label grey : Image) (nObjects : Word.uint)
    : Method t Feature.ValueInformationArray :=
  DIP_THROW_IF (fun _ => negb (IsScalar grey)) NOT_SCALAR ;;
  modify (fun self => mk (Dimensionality label) (data_ self)) ;;
  modify (set_data_ (fun _ => [])) ;;
  modify (set_data_ (resize (N.to_nat nObjects) 0%float)) ;;
  mret [Feature.ValueInformation.mk "Mass"
          (Feature.ValueInformation.units Feature.ValueInformation.default)].

(** The body of the [do { ... } while( ++label )] loop of [ScanLine], on
    the pixel [pixel = *label].  [objectID] and [data] are the two locals
    carried from pixel to pixel; [data] is [nullptr] ([None]) or the address
    of an element of [data_], kept as the element's index. *)
Definition ScanLine_body (pixel : Word.uint32) (grey : LineIterator dfloat)
    (objectIndices : ObjectIdToIndexMap)
    (objectID : Word.uint32) (data : option Word.uint)
    : Method t (Word.uint32 * option Word.uint) :=
  if 0 <? pixel then
    locals ←
      (if negb (pixel =? objectID) then
         let objectID := pixel in
         match objectIndices !! objectID with
         | None => mret (objectID, None)
         | Some second =>
             call (fun self => vector_at (data_ self) second) ;;
             mret (objectID, Some second)
         end
       else mret (objectID, data));
    match locals.2 with
    | Some address =>
        addend ← deref grey;
        current ← call (fun self => vector_at (data_ self) address);
        modify (set_data_ <[N.to_nat address := PrimFloat.add current addend]>) ;;
        mret locals
    | None => mret locals
    end
  else mret (objectID, data).

(** The loop: the body, then [++grey], then [++label] and its test. *)
Fixpoint ScanLine_loop (label : LineIterator Word.uint32) (grey : LineIterator dfloat)
    (objectIndices : ObjectIdToIndexMap)
    (objectID : Word.uint32) (data : option Word.uint) : Method t unit :=
  match label with
  | [] => deref label ;; mret tt
  | pixel :: label' =>
      locals ← ScanLine_body pixel grey objectIndices objectID data;
      match label' with
      | [] => mret tt
      | _ :: _ => ScanLine_loop label' (tail grey) objectIndices locals.1 locals.2
      end
  end.

Definition ScanLine (label : LineIterator Word.uint32) (grey : LineIterator dfloat)
    (coordinates : list Word.uint) (dimension : Word.uint)
    (objectIndices : ObjectIdToIndexMap) : Method t unit :=
  ScanLine_loop label grey objectIndices 0 None.

(** [*output = data_[ objectIndex ]], [output] pointing into the table. *)
Definition Finish (self : t) (objectIndex : Word.uint)
    (output : Measurement.ValueIterator) : Method Measurement.t unit :=
  x ← call (fun _ => vector_at (data_ self) objectIndex);
  Measurement.store output x.

Definition Cleanup : Method t unit := modify (set_data_ (fun _ => [])).

End FeatureMass.

(** ** The life of a table

    A table starts empty and is changed only by its four mutators and by
    writes of cells through a [ValueIterator].  A caller may catch the
    exception of a failed call and go on with the table as the call left
    it.  The value arrays of the calls are arrays of the caller's: a call
    of [AddFeature] or [EnsureFeature] that is handed the table's own array
    leaves the table as it is, or has no defined behaviour
    ([own_values_calls] below), so that it reaches no further table. *)
Inductive Op : Type :=
  | OpAddFeature (name : string) (values : Feature.ValueInformationArray)
  | OpEnsureFeature (name : string) (values : Feature.ValueInformationArray)
  | OpAddObjectIDs (objectIDs : list Word.uint)
  | OpForge
  | OpStore (p : Measurement.ValueIterator) (x : Measurement.ValueType).

Definition exec (op : Op) : Method Measurement.t unit :=
  match op with
  | OpAddFeature name values => Measurement.AddFeature name values
  | OpEnsureFeature name values => Measurement.EnsureFeature name values
  | OpAddObjectIDs objectIDs => Measurement.AddObjectIDs objectIDs
  | OpForge => Measurement.Forge
  | OpStore p x => Measurement.store p x
  end.

Inductive reachable : Measurement.t -> Prop :=
  | reachable_empty :
      reachable Measurement.empty
  | reachable_returns m op m' :
      reachable m -> exec op m = (Ok tt, m') -> reachable m'
  | reachable_throws m op e m' :
      reachable m -> exec op m = (Throw e, m') -> reachable m'.

(** The table left by a sequence of calls that all return. *)
Fixpoint run (ops : list Op) : Method Measurement.t unit :=
  match ops with
  | [] => mret tt
  | op :: ops' => exec op ;; run ops'
  end.

(** The column groups of the features [fs], in order, cover the columns
    from [first] up to [last] with neither gap nor overlap. *)
Fixpoint tiles (fs : list Measurement.FeatureInfo.t) (first last : N) : Prop :=
  match fs with
  | [] => first = last
  | f :: fs' =>
      Measurement.FeatureInfo.startColumn f = first /\
      tiles fs' (first + Measurement.FeatureInfo.numberValues f) last
  end.

Definition sum_numberValues (fs : list Measurement.FeatureInfo.t) : N :=
  foldr (fun f total => Measurement.FeatureInfo.numberValues f + total) 0 fs.

(** One round of the loop of [AddObjectIDs]. *)
Definition push_object (objectID : Word.uint) (m : Measurement.t) : Measurement.t :=
  Measurement.set_objectIndices_
    (map_emplace objectID (Word.size (Measurement.objects_ m)))
    (Measurement.set_objects_ (fun os => os ++ [objectID]) m).

(** The identifier→row map and the row order describe each other. *)
Definition objects_agree (m : Measurement.t) : Prop :=
  forall objectID row,
    Measurement.objectIndices_ m !! objectID = Some row <->
    Measurement.objects_ m !! N.to_nat row = Some objectID.

(** The body of the range-based [for] of [AddObjectIDs]. *)
Definition AddObjectIDs_body (objectID : Word.uint) : Method Measurement.t unit :=
  DIP_THROW_IF (fun m => Measurement.ObjectExists m objectID) (ObjectPresent objectID) ;;
  index ← get (fun m => Word.size (Measurement.objects_ m));
  modify (Measurement.set_objects_ (fun os => os ++ [objectID])) ;;
  modify (Measurement.set_objectIndices_ (map_emplace objectID index)).

(** What [AddObjectIDs] does not touch. *)
Definition columns (m : Measurement.t) :=
  (Measurement.features_ m, Measurement.values_ m, Measurement.featureIndices_ m,
   Measurement.data_ m).

(** What every reachable table satisfies. *)
Record invariant (m : Measurement.t) : Prop := mk_invariant
  { inv_objects : forall objectID row,
      Measurement.objectIndices_ m !! objectID = Some row <->
      Measurement.objects_ m !! N.to_nat row = Some objectID;
    inv_features : forall name index,
      Measurement.featureIndices_ m !! name = Some index <->
      exists f, Measurement.features_ m !! N.to_nat index = Some f /\
                Measurement.FeatureInfo.name f = name;
    inv_nonempty : forall f, f ∈ Measurement.features_ m ->
      Measurement.FeatureInfo.name f <> "" /\
      0 < Measurement.FeatureInfo.numberValues f;
    inv_tiles :
      tiles (Measurement.features_ m) 0 (Word.size (Measurement.values_ m));
    inv_data :
      Measurement.data_ m = [] \/
      Word.size (Measurement.data_ m) =
        Word.mul (Word.size (Measurement.values_ m))
                 (Word.size (Measurement.objects_ m)) }.

(** What [Forge] does not touch. *)
Definition schema (m : Measurement.t) :=
  (Measurement.objects_ m, Measurement.objectIndices_ m,
   Measurement.features_ m, Measurement.values_ m, Measurement.featureIndices_ m).

(** ** Error kinds *)

(** Modelled from the spec: the macro [DIP_THROW_IF] and the exception
    class it throws are declared in [diplib.h], which this development does
    not cover.  The kinds are those of the design: a forged table refuses
    schema changes (AlreadyForged), raw access needs a forged table
    (NotForged), an empty feature name, an empty value array, a feature
    name already present and a zero-sized table are bad caller parameters
    (InvalidArgument), an object identifier already present is a schema
    insertion conflict (DuplicateObject), a lookup miss is UnknownFeature or
    UnknownObject, and a feature that rejects its images reports
    UnsupportedInput. *)
Inductive ErrorKind : Type :=
  | InvalidArgument
  | AlreadyForged
  | NotForged
  | DuplicateObject
  | UnknownFeature
  | UnknownObject
  | UnsupportedInput.

(** Modelled from the spec: the kind of each error the code throws, by the
    message it carries. *)
Definition kind (e : Error) : ErrorKind :=
  match e with
  | MeasurementForged => AlreadyForged
  | NoFeatureName => InvalidArgument
  | FeaturePresent _ => InvalidArgument
  | NoValues => InvalidArgument
  | ObjectPresent _ => DuplicateObject
  | ZeroSizedTable => InvalidArgument
  | MeasurementNotForged => NotForged
  | FeatureNotPresent _ => UnknownFeature
  | ObjectNotPresent _ => UnknownObject
  | FeatureNameNotKnown _ => UnknownFeature
  | NOT_SCALAR => UnsupportedInput
  end.

Definition fails {A} (o : Outcome A) : Prop := exists e, o = Throw e.

Definition fails_with {A} (k : ErrorKind) (o : Outcome A) : Prop :=
  exists e, o = Throw e /\ kind e = k.

(** ** The registry, as the design words it

    Of a sequence of registered features, the instances that survive: an
    instance is kept when no instance before it has its name. *)
Definition feature_name (feature : Feature.Pointer) : string :=
  Feature.Information.name (Feature.Base.information feature).

Fixpoint surviving (seen : list string) (features : list Feature.Pointer)
    : list Feature.Pointer :=
  match features with
  | [] => []
  | feature :: features' =>
      if bool_decide (feature_name feature ∈ seen) then surviving seen features'
      else feature :: surviving (feature_name feature :: seen) features'
  end.

Definition register_all (features : list Feature.Pointer) : Method MeasurementTool.t unit :=
  for_each features MeasurementTool.Register.

(** The name→index map of a registry knows exactly the names of the
    instances it holds. *)
Definition registry_agree (tool : MeasurementTool.t) : Prop :=
  forall name,
    MeasurementTool.Exists tool name = true <->
    name ∈ (feature_name <$> MeasurementTool.features_ tool).

(** The name→index map of a registry and the vector of its instances
    describe each other. *)
Definition registry_indexed (tool : MeasurementTool.t) : Prop :=
  forall name index,
    MeasurementTool.featureIndices_ tool !! name = Some index <->
    exists f, MeasurementTool.features_ tool !! N.to_nat index = Some f /\
              feature_name f = name.

(** ** The mass of an object, as the design words it

    The pixels of the image in the order the scanlines present them, and the
    sum of the grey values of the pixels that carry a given label, added up
    in that order from zero. *)
Abbreviation scanline := (list Word.uint32 * list dfloat)%type.

Definition pixels (lines : list scanline) : list (Word.uint32 * dfloat) :=
  lines ≫= (fun line => zip line.1 line.2).

Definition sum_grey (ps : list (Word.uint32 * dfloat)) : dfloat :=
  fold_left PrimFloat.add ps.*2 0%float.

Definition mass_of (objectID : Word.uint32) (ps : list (Word.uint32 * dfloat)) : dfloat :=
  sum_grey (filter (fun p => p.1 = objectID) ps).

(** The pixels that reach the accumulator of row [row]. *)
Definition accumulated (objectIndices : FeatureMass.ObjectIdToIndexMap) (row : Word.uint)
    (ps : list (Word.uint32 * dfloat)) : list (Word.uint32 * dfloat) :=
  filter (fun p => 0 < p.1 /\ objectIndices !! p.1 = Some row) ps.

(** What one pixel does to the accumulators. *)
Definition accumulate (objectIndices : FeatureMass.ObjectIdToIndexMap)
    (acc : list dfloat) (p : Word.uint32 * dfloat) : list dfloat :=
  if 0 <? p.1 then
    match objectIndices !! p.1 with
    | Some row =>
        match acc !! N.to_nat row with
        | Some current => <[N.to_nat row := PrimFloat.add current p.2]> acc
        | None => acc
        end
    | None => acc
    end
  else acc.

(** The two locals of [ScanLine] agree: [data] is what the lookup of
    [objectID] gives, once a label has been looked up. *)
Definition cached (objectIndices : FeatureMass.ObjectIdToIndexMap)
    (objectID : Word.uint32) (data : option Word.uint) : Prop :=
  if objectID =? 0 then data = None else data = objectIndices !! objectID.

(** A label that is no object of the table: 0, or not a key of the map. *)
Definition background (objectIndices : FeatureMass.ObjectIdToIndexMap)
    (pixel : Word.uint32) : Prop :=
  pixel = 0 \/ objectIndices !! pixel = None.

(** All scanlines are presented to the feature, one call per line. *)
Definition scan (lines : list scanline) (objectIndices : FeatureMass.ObjectIdToIndexMap)
    : Method FeatureMass.t unit :=
  for_each lines (fun line => FeatureMass.ScanLine line.1 line.2 [] 0 objectIndices).

(** ** CreateOffsetsArray: the offsets of the interior pixels of an image *)
Module Offsets.

(** A call returns, throws [std::length_error] (from [reserve] or
    [push_back] of the [std::vector] it builds), or has no defined
    behaviour (an index past the end of an array, an overflow of signed
    arithmetic). *)
Inductive Result (A : Type) : Type :=
  | Returned (a : A)
  | length_error
  | undefined.
Arguments Returned {A} a.
Arguments length_error {A}.
Arguments undefined {A}.

#[global] Instance Result_ret : MRet Result := fun A a => Returned a.
#[global] Instance Result_bind : MBind Result := fun A B f r =>
  match r with
  | Returned a => f a
  | length_error => length_error
  | undefined => undefined
  end.

(** [a - b] on [dip::uint]: it wraps around below zero. *)
Definition sub (a b : Word.uint) : Word.uint :=
  Z.to_N ((Z.of_N a - Z.of_N b) mod Z.of_N Word.modulus).

(** [static_cast< dip::sint >( c )]: the two's complement reading. *)
Definition to_sint (c : Word.uint) : Word.sint :=
  let w := Word.wrap c in
  if w <? 2 ^ 63 then Z.of_N w else (Z.of_N w - Z.of_N Word.modulus)%Z.

(** The result of an operation of [dip::sint]: overflow is undefined. *)
Definition signed (z : Z) : Result Word.sint :=
  if ((- 2 ^ 63 <=? z) && (z <? 2 ^ 63))%Z then Returned z else undefined.

(** [for( ii = 0; ii < ndims; ++ii ) ptr += static_cast< dip::sint >(
    coords[ ii ] ) * strides[ ii ]], [coords] holding [ndims] elements;
    [strides[ ii ]] past the end of [strides] is undefined. *)
Fixpoint dot (coords : list Word.uint) (strides : list Word.sint) (ptr : Word.sint)
    : Result Word.sint :=
  match coords with
  | [] => Returned ptr
  | c :: coords' =>
      match strides with
      | [] => undefined
      | s :: strides' =>
          term ← signed (to_sint c * s);
          ptr' ← signed (ptr + term);
          dot coords' strides' ptr'
      end
  end.

(** [for( ii = 1; ii < ndims; ++ii ) { ++( coords[ ii ] ); if( coords[ ii ]
    < sizes[ ii ] - 1 ) break; coords[ ii ] = 1; }], on the elements of
    [coords] and [sizes] from index 1 on; the flag tells that the loop was
    left by [break], that is with [ii != ndims]. *)
Fixpoint advance (coords sizes : list Word.uint) : Result (list Word.uint * bool) :=
  match coords with
  | [] => Returned ([], false)
  | c :: coords' =>
      match sizes with
      | [] => undefined
      | size :: sizes' =>
          let c' := Word.incr c in
          if c' <? sub size 1 then Returned (c' :: coords', true)
          else
            rest ← advance coords' sizes';
            Returned (1 :: rest.1, rest.2)
      end
  end.

(** [v[ 0 ]] *)
Definition front {A} (v : list A) : Result A :=
  match v with
  | [] => undefined
  | x :: _ => Returned x
  end.

Section Library.

(** [std::vector< dip::sint >::max_size()], a constant of the C++ library. *)
Variable max_size : N.

(** [offsets.reserve( n )] and [offsets.push_back( x )] *)
Definition reserve (n : Word.uint) : Result unit :=
  if max_size <? n then length_error else Returned tt.

Definition push_back (offsets : list Word.sint) (x : Word.sint) : Result (list Word.sint) :=
  if max_size <=? Word.size offsets then length_error else Returned (offsets ++ [x]).

(** [for( ii = 1; ii < sizes[ 0 ] - 1; ++ii ) { offsets.push_back( ptr );
    ptr += strides[ 0 ]; }], [count] being the number of rounds. *)
Fixpoint push_line (count : nat) (strides : list Word.sint) (ptr : Word.sint)
    (offsets : list Word.sint) : Result (list Word.sint) :=
  match count with
  | O => Returned offsets
  | S count' =>
      offsets' ← push_back offsets ptr;
      stride ← front strides;
      ptr' ← signed (ptr + stride);
      push_line count' strides ptr' offsets'
  end.

(** The rounds of [for( ii = 1; ii < bound; ++ii )]. *)
Definition rounds (bound : Word.uint) : nat := N.to_nat (bound - 1).

(** The [for( ;; )] loop, [fuel] bounding the number of its rounds: [None]
    when the bound is reached before the loop is left.  The loop is left
    when [ii == ndims] after the third inner loop, which starts at
    [ii = 1]: with no dimension at all that never holds. *)
Fixpoint loop (fuel : nat) (sizes : list Word.uint) (strides : list Word.sint)
    (coords : list Word.uint) (offsets : list Word.sint)
    : option (Result (list Word.sint)) :=
  match fuel with
  | O => None
  | S fuel' =>
      match
        ptr ← dot coords strides 0%Z;
        size ← front sizes;
        offsets' ← push_line (rounds (sub size 1)) strides ptr offsets;
        moved ← advance (tail coords) (tail sizes);
        Returned (offsets', moved)
      with
      | Returned (offsets', (coords', left_by_break)) =>
          match coords with
          | c :: _ =>
              if left_by_break : bool
              then loop fuel' sizes strides (c :: coords') offsets'
              else Some (Returned offsets')
          | [] => loop fuel' sizes strides [] offsets'
          end
      | length_error => Some length_error
      | undefined => Some undefined
      end
  end.

(** [CreateOffsetsArray( sizes, strides )] *)
Definition CreateOffsetsArray (fuel : nat) (sizes : list Word.uint)
    (strides : list Word.sint) : option (Result (list Word.sint)) :=
  match sizes with
  | [] => Some undefined
  | size :: sizes' =>
      let noInd :=
        fold_left (fun noInd size => Word.mul noInd (sub size 2)) sizes' (sub size 2) in
      match reserve noInd with
      | Returned _ => loop fuel sizes strides (replicate (length sizes) 1) []
      | length_error => Some length_error
      | undefined => Some undefined
      end
  end.

End Library.

End Offsets.

(** ** The pixels [CreateOffsetsArray] is after

    The coordinate vectors [c] with [1 <= c_i <= ranges_i], the first
    coordinate running fastest; the offset of a pixel; the interior of an
    image, whose coordinates stay one pixel away from every border. *)
Fixpoint count_from (first : N) (count : nat) : list N :=
  match count with
  | O => []
  | S count' => first :: count_from (first + 1) count'
  end.

Fixpoint grid (ranges : list N) : list (list N) :=
  match ranges with
  | [] => [[]]
  | r :: ranges' => t ← grid ranges'; (fun c => c :: t) <$> count_from 1 (N.to_nat r)
  end.

Fixpoint offset (coords : list N) (strides : list Z) : Z :=
  match coords, strides with
  | c :: coords', s :: strides' => (Z.of_N c * s + offset coords' strides')%Z
  | _, _ => 0%Z
  end.

Definition interior (sizes : list N) : list (list N) :=
  grid ((fun size => size - 2) <$> sizes).

(** What the loop sweeps along a dimension that is not the first: the
    coordinates from 1 up to [size - 2], and coordinate 1 in any case. *)
Definition sweep (size : N) : N := N.max 1 (size - 2).

Definition swept (sizes : list N) : list (list N) :=
  match sizes with
  | [] => []
  | size :: sizes' => grid (size - 2 :: (sweep <$> sizes'))
  end.

(** The largest distance from the origin that the traversal of an image of
    these sizes and strides can reach. *)
Fixpoint extent (sizes : list N) (strides : list Z) : Z :=
  match sizes, strides with
  | size :: sizes', s :: strides' => (Z.of_N size * Z.abs s + extent sizes' strides')%Z
  | _, _ => 0%Z
  end.

(** The coordinate vector after [coords] in [grid ranges], if any, and the
    vectors of [grid ranges] from [coords] on. *)
Fixpoint next_coords (coords ranges : list N) : option (list N) :=
  match coords, ranges with
  | c :: coords', r :: ranges' =>
      if c <? r then Some (c + 1 :: coords')
      else (fun rest => 1 :: rest) <$> next_coords coords' ranges'
  | _, _ => None
  end.

Fixpoint upward (coords ranges : list N) : list (list N) :=
  match coords, ranges with
  | c :: coords', r :: ranges' =>
      ((fun c' => c' :: coords') <$> count_from c (N.to_nat (r + 1 - c))) ++
      (t ← tail (upward coords' ranges');
       (fun c' => c' :: t) <$> count_from 1 (N.to_nat r))
  | _, _ => [[]]
  end.

(** The number of vectors of [grid ranges], and the vectors that lie in it. *)
Definition volume (ranges : list N) : N := foldr N.mul 1 ranges.

Definition within (coords ranges : list N) : Prop :=
  Forall2 (fun c r => 1 <= c <= r) coords ranges.

(** ** A small table and a small image

    Two features, "Size" with one value and "Feret" with two, and the
    objects 7 and 3; and the labelled image of three lines of three pixels
    with its grey values. *)
Definition example_schema : list Op :=
  [ OpAddFeature "Size" [Feature.ValueInformation.mk "Size" "px^2"];
    OpAddObjectIDs [7; 3];
    OpAddFeature "Feret"
      [Feature.ValueInformation.mk "Max" "px"; Feature.ValueInformation.mk "Min" "px"] ].

Definition example_unforged : Measurement.t := (run example_schema Measurement.empty).2.

Definition example_ops : list Op := example_schema ++ [OpForge; OpStore 5 2.5%float].

Definition example_table : Measurement.t := (run example_ops Measurement.empty).2.

Definition example_lines : list scanline :=
  [ ([0; 1; 1], [0%float; 4%float; 2%float]);
    ([0; 1; 2], [0%float; 6%float; 8%float]);
    ([2; 2; 0], [3%float; 5%float; 0%float]) ].

Definition example_indices : FeatureMass.ObjectIdToIndexMap := <[1 := 0]> (<[2 := 1]> ∅).

Definition example_features : list Feature.Pointer :=
  [ Feature.Base.mk (Feature.Information.mk "Size" "Number of object pixels" false)
      Feature.LINE_BASED;
    Feature.Base.mk FeatureMass.information Feature.LINE_BASED;
    Feature.Base.mk (Feature.Information.mk "Size" "Another size" false)
      Feature.COMPOSITE ].





(** Runs the monadic plumbing of a member function on a given state. *)
Ltac run_method :=
  cbv [mbind mret Method_bind Method_ret DIP_THROW_IF call get modify]; simpl.

(** * Properties *)

(** ** Words and vectors *)

Lemma mul_exact (a b : N) : a * b < Word.modulus -> Word.mul a b = a * b.
Proof. intros Hlt. unfold Word.mul, Word.wrap. by apply N.mod_small. Qed.

Lemma of_sint_of_N (n : N) : Word.of_sint (Z.of_N n) = Word.wrap n.
Proof.
  unfold Word.of_sint, Word.wrap.
  rewrite <- N2Z.inj_mod, N2Z.id. reflexivity.
Qed.

Lemma size_app {A} (v w : list A) : Word.size (v ++ w) = Word.size v + Word.size w.
Proof. unfold Word.size. rewrite length_app. lia. Qed.

Lemma size_nil_iff {A} (v : list A) : Word.size v = 0 <-> v = [].
Proof. unfold Word.size. by destruct v. Qed.

Lemma vector_at_Ok {A} (v : list A) (i : N) (x : A) :
  vector_at v i = Ok x <-> v !! N.to_nat i = Some x.
Proof. unfold vector_at. destruct (v !! N.to_nat i); split; congruence. Qed.

Lemma vector_empty_true {A} (v : list A) : Measurement.vector_empty v = true <-> v = [].
Proof. destruct v; simpl; split; congruence. Qed.

Lemma map_count_true `{Countable K} {V} (m : gmap K V) (k : K) :
  negb (Nat.eqb (map_count m k) 0) = true <-> is_Some (m !! k).
Proof.
  unfold map_count. destruct (m !! k) eqn:E; simpl; split; intros E'; try done.
Qed.

Lemma map_count_false `{Countable K} {V} (m : gmap K V) (k : K) :
  negb (Nat.eqb (map_count m k) 0) = false <-> m !! k = None.
Proof. unfold map_count. destruct (m !! k); simpl; split; congruence. Qed.

Lemma FeatureExists_true m name :
  Measurement.FeatureExists m name = true <->
  is_Some (Measurement.featureIndices_ m !! name).
Proof. apply map_count_true. Qed.

Lemma FeatureExists_false m name :
  Measurement.FeatureExists m name = false <->
  Measurement.featureIndices_ m !! name = None.
Proof. apply map_count_false. Qed.

Lemma ObjectExists_true m objectID :
  Measurement.ObjectExists m objectID = true <->
  is_Some (Measurement.objectIndices_ m !! objectID).
Proof. apply map_count_true. Qed.

Lemma ObjectExists_false m objectID :
  Measurement.ObjectExists m objectID = false <->
  Measurement.objectIndices_ m !! objectID = None.
Proof. apply map_count_false. Qed.

Lemma IsForged_false m : Measurement.IsForged m = false <-> Measurement.data_ m = [].
Proof.
  unfold Measurement.IsForged. destruct (Measurement.data_ m); simpl; split; congruence.
Qed.

(** ** [AddFeature_]: the copy loop appends the new records *)

Lemma copy_loop (start : N) (values : Feature.ValueInformationArray) :
  forall (todo copied rest front : Feature.ValueInformationArray) (m : Measurement.t),
    values = copied ++ todo ->
    length rest = length todo ->
    Word.size front = start + Word.size copied ->
    Measurement.values_ m = front ++ rest ->
    for_range (Word.size copied) (length todo) (fun ii =>
        x ← call (fun _ => vector_at values ii);
        assigned ← call (fun m => vector_assign (Measurement.values_ m) (start + ii) x);
        modify (Measurement.set_values_ (fun _ => assigned))) m
    = (Ok tt, Measurement.set_values_ (fun _ => front ++ todo) m).
Proof.
  set (body := fun ii : Word.uint => _).
  induction todo as [|x todo IH]; intros copied rest front m Hv Hlen Hfront Hm.
  - destruct rest; [|done]. simpl. run_method.
    destruct m; simpl in *. rewrite Hm. reflexivity.
  - destruct rest as [|r rest]; [done|]. simpl in Hlen.
    assert (Hstep : body (Word.size copied) m =
              (Ok tt, Measurement.set_values_ (fun _ => (front ++ [x]) ++ rest) m)).
    { unfold body. run_method.
      assert (Hx : vector_at values (Word.size copied) = Ok x).
      { apply vector_at_Ok. subst values. unfold Word.size. rewrite Nat2N.id.
        by rewrite list_lookup_middle. }
      rewrite Hx.
      assert (Hix : N.to_nat (start + Word.size copied) = length front).
      { rewrite <- Hfront. unfold Word.size. lia. }
      unfold vector_assign. rewrite Hm.
      assert (Hlt : (start + Word.size copied <? Word.size (front ++ r :: rest)) = true).
      { apply N.ltb_lt. rewrite size_app, Hfront. unfold Word.size. simpl. lia. }
      rewrite Hlt, Hix.
      rewrite insert_app_r_alt by lia. rewrite Nat.sub_diag. simpl.
      by rewrite <- app_assoc. }
    simpl for_range. cbv [mbind Method_bind]. rewrite Hstep.
    replace (Word.size copied + 1) with (Word.size (copied ++ [x]))
      by (rewrite size_app; reflexivity).
    rewrite (IH (copied ++ [x]) rest (front ++ [x])).
    + destruct m; unfold Measurement.set_values_; simpl. by rewrite <- app_assoc.
    + subst values. by rewrite <- app_assoc.
    + lia.
    + rewrite !size_app, Hfront. unfold Word.size. simpl. lia.
    + reflexivity.
Qed.

Lemma AddFeature__returns name (values : Feature.ValueInformationArray) m :
  Measurement.AddFeature_ name values m =
  (Ok tt,
   Measurement.mk
     (Measurement.objects_ m) (Measurement.objectIndices_ m)
     (Measurement.features_ m ++
        [Measurement.FeatureInfo.mk name (Word.size (Measurement.values_ m))
           (Word.size values)])
     (Measurement.values_ m ++ values)
     (map_emplace name (Word.size (Measurement.features_ m))
        (Measurement.featureIndices_ m))
     (Measurement.data_ m)).
Proof.
  unfold Measurement.AddFeature_.
  cbv [mbind Method_bind get modify Measurement.referred]. cbn [fst snd].
  pose proof (copy_loop (Word.size (Measurement.values_ m)) values values []
                (replicate (length values) Feature.ValueInformation.default)
                (Measurement.values_ m)) as Hloop.
  simpl in Hloop. change (Word.size []) with 0 in Hloop.
  rewrite Hloop.
  - destruct m; reflexivity.
  - reflexivity.
  - by rewrite length_replicate.
  - lia.
  - destruct m; simpl. unfold Word.size. rewrite resize_ge by lia.
    f_equal. f_equal. lia.
Qed.

(** *** [AddFeature_] with the table's own value array

    The reference [values] is then [values_] itself: after the [resize],
    [values.size()] is twice what it was, the first half of the rounds
    copies the array behind itself, and the round after them writes past
    the end. *)
Lemma for_range_app {St} (body : Word.uint -> Method St unit) (a b : nat) : forall from s,
  for_range from (a + b) body s =
  (for_range from a body ;; for_range (from + N.of_nat a) b body) s.
Proof.
  induction a as [|a IH]; intros from s.
  - cbn [Nat.add for_range]. cbv [mbind Method_bind mret Method_ret].
    by rewrite N.add_0_r.
  - cbn [Nat.add for_range]. cbv [mbind Method_bind].
    destruct (body from s) as [[[]|e|] s1]; try done.
    rewrite IH. cbv [mbind Method_bind].
    by replace (from + 1 + N.of_nat a) with (from + N.of_nat (S a)) by lia.
Qed.

Lemma own_copy_loop (vs : Feature.ValueInformationArray) :
  forall (todo copied rest : Feature.ValueInformationArray) (m : Measurement.t),
    vs = copied ++ todo ->
    length rest = length todo ->
    Measurement.values_ m = (vs ++ copied) ++ rest ->
    for_range (Word.size copied) (length todo) (fun ii =>
        x ← call (fun m => vector_at (Measurement.values_ m) ii);
        assigned ← call (fun m =>
                      vector_assign (Measurement.values_ m) (Word.size vs + ii) x);
        modify (Measurement.set_values_ (fun _ => assigned))) m
    = (Ok tt, Measurement.set_values_ (fun _ => (vs ++ copied) ++ todo) m).
Proof.
  set (body := fun ii : Word.uint => _).
  induction todo as [|x todo IH]; intros copied rest m Hv Hlen Hm.
  - destruct rest; [|done]. simpl. run_method.
    destruct m; simpl in *. rewrite Hm. reflexivity.
  - destruct rest as [|r rest]; [done|]. simpl in Hlen.
    assert (Hstep : body (Word.size copied) m =
              (Ok tt, Measurement.set_values_ (fun _ => (vs ++ copied ++ [x]) ++ rest) m)).
    { unfold body. run_method. rewrite Hm.
      assert (Hx : vector_at ((vs ++ copied) ++ r :: rest) (Word.size copied) = Ok x).
      { apply vector_at_Ok. unfold Word.size. rewrite Nat2N.id.
        rewrite <- app_assoc, lookup_app_l by (subst vs; rewrite length_app; simpl; lia).
        subst vs. by rewrite list_lookup_middle. }
      rewrite Hx.
      assert (Hix : N.to_nat (Word.size vs + Word.size copied) = length (vs ++ copied)).
      { rewrite length_app. unfold Word.size. lia. }
      unfold vector_assign.
      assert (Hlt : (Word.size vs + Word.size copied
                     <? Word.size ((vs ++ copied) ++ r :: rest)) = true).
      { apply N.ltb_lt. rewrite !size_app. unfold Word.size. simpl. lia. }
      rewrite Hlt, Hix.
      rewrite insert_app_r_alt by lia. rewrite Nat.sub_diag. simpl.
      by rewrite <- !app_assoc. }
    simpl for_range. cbv [mbind Method_bind]. rewrite Hstep.
    replace (Word.size copied + 1) with (Word.size (copied ++ [x]))
      by (rewrite size_app; reflexivity).
    rewrite (IH (copied ++ [x]) rest).
    + destruct m; unfold Measurement.set_values_; simpl. by rewrite <- !app_assoc.
    + subst vs. by rewrite <- app_assoc.
    + lia.
    + destruct m; simpl. by rewrite <- !app_assoc.
Qed.

Lemma bind_Ok {St A B} (c : Method St A) (f : A -> Method St B) s a s' :
  c s = (Ok a, s') -> (c ≫= f) s = f a s'.
Proof. intros Hc. cbv [mbind Method_bind]. by rewrite Hc. Qed.

Lemma bind_Undefined {St A B} (c : Method St A) (f : A -> Method St B) s s' :
  c s = (Undefined, s') -> (c ≫= f) s = (Undefined, s').
Proof. intros Hc. cbv [mbind Method_bind]. by rewrite Hc. Qed.

Lemma own_loop (vs : Feature.ValueInformationArray) (m : Measurement.t) (bound : nat) :
  vs <> [] ->
  Measurement.values_ m =
    vs ++ replicate (length vs) Feature.ValueInformation.default ->
  bound = (length vs + length vs)%nat ->
  for_range 0 bound (fun ii =>
      x ← call (fun m => vector_at (Measurement.referred Measurement.OwnValues m) ii);
      assigned ← call (fun m =>
                    vector_assign (Measurement.values_ m) (Word.size vs + ii) x);
      modify (Measurement.set_values_ (fun _ => assigned))) m
  = (Undefined, Measurement.set_values_ (fun _ => vs ++ vs) m).
Proof.
  intros Hne Hm ->. rewrite for_range_app.
  erewrite bind_Ok; cycle 1.
  { apply (own_copy_loop vs vs []
             (replicate (length vs) Feature.ValueInformation.default)).
    - reflexivity.
    - by rewrite length_replicate.
    - by rewrite app_nil_r. }
  rewrite app_nil_r.
  destruct vs as [|v vs]; [done|]. cbn [length for_range].
  apply bind_Undefined.
  erewrite bind_Ok; cycle 1.
  { unfold call. f_equal. apply vector_at_Ok.
    destruct m; cbn [Measurement.referred Measurement.values_ Measurement.set_values_].
    by apply list_lookup_middle; simpl; lia. }
  apply bind_Undefined. unfold call, vector_assign.
  assert (Hlt : (Word.size (v :: vs) + (0 + N.of_nat (S (length vs)))
                 <? Word.size (Measurement.values_
                      (Measurement.set_values_ (fun _ => (v :: vs) ++ v :: vs) m))) = false).
  { apply N.ltb_ge. destruct m; cbn [Measurement.values_ Measurement.set_values_].
    rewrite size_app. unfold Word.size. simpl. lia. }
  by rewrite Hlt.
Qed.

Lemma AddFeature__own name m :
  Measurement.values_ m <> [] ->
  Measurement.AddFeature_ name Measurement.OwnValues m =
    (Undefined, Measurement.set_values_ (fun vs => vs ++ vs) m).
Proof.
  intros Hne. destruct m as [os oi fs vs fi d]. simpl in Hne.
  unfold Measurement.AddFeature_.
  erewrite bind_Ok by reflexivity. erewrite bind_Ok by reflexivity.
  erewrite bind_Ok by reflexivity. erewrite bind_Ok by reflexivity.
  apply bind_Undefined.
  apply (own_loop vs); [done| |].
  - cbn. unfold Word.size. rewrite resize_ge by lia. f_equal. f_equal. lia.
  - cbn. rewrite length_resize. unfold Word.size. lia.
Qed.

(** ** The mutators, case by case *)

Lemma AddFeature_guards name (values : Measurement.ValuesReference) m :
  Measurement.AddFeature name values m =
  if Measurement.IsForged m then (Throw MeasurementForged, m)
  else if bool_decide (name = "") then (Throw NoFeatureName, m)
  else if Measurement.FeatureExists m name then (Throw (FeaturePresent name), m)
  else if Measurement.vector_empty (Measurement.referred values m) then (Throw NoValues, m)
  else Measurement.AddFeature_ name values m.
Proof.
  unfold Measurement.AddFeature. cbv [mbind Method_bind DIP_THROW_IF].
  destruct (Measurement.IsForged m); [done|].
  destruct (bool_decide (name = "")); [done|].
  destruct (Measurement.FeatureExists m name); [done|].
  by destruct (Measurement.vector_empty (Measurement.referred values m)).
Qed.

Lemma EnsureFeature_guards name (values : Measurement.ValuesReference) m :
  Measurement.EnsureFeature name values m =
  if Measurement.IsForged m then (Throw MeasurementForged, m)
  else if bool_decide (name = "") then (Throw NoFeatureName, m)
  else if Measurement.FeatureExists m name then (Ok tt, m)
  else if Measurement.vector_empty (Measurement.referred values m) then (Throw NoValues, m)
  else Measurement.AddFeature_ name values m.
Proof.
  unfold Measurement.EnsureFeature. cbv [mbind Method_bind DIP_THROW_IF get].
  destruct (Measurement.IsForged m); [done|].
  destruct (bool_decide (name = "")); [done|].
  destruct (Measurement.FeatureExists m name); [done|].
  cbv [mbind Method_bind DIP_THROW_IF].
  by destruct (Measurement.vector_empty (Measurement.referred values m)).
Qed.

Lemma own_values_calls name m r m' :
  Measurement.AddFeature name Measurement.OwnValues m = (r, m') \/
  Measurement.EnsureFeature name Measurement.OwnValues m = (r, m') ->
  r = Undefined \/ m' = m.
Proof.
  rewrite AddFeature_guards, EnsureFeature_guards. cbn [Measurement.referred].
  destruct (Measurement.IsForged m); [intros [[= _ <-]|[= _ <-]]; by right|].
  destruct (bool_decide (name = "")); [intros [[= _ <-]|[= _ <-]]; by right|].
  destruct (Measurement.vector_empty (Measurement.values_ m)) eqn:Hempty.
  - destruct (Measurement.FeatureExists m name); intros [[= _ <-]|[= _ <-]]; by right.
  - assert (Hown : Measurement.values_ m <> []) by (by destruct (Measurement.values_ m)).
    rewrite (AddFeature__own name m Hown).
    destruct (Measurement.FeatureExists m name);
      intros [[= <- <-]|[= <- <-]]; first [by left|by right].
Qed.

(** With an array of the caller's. *)
Lemma AddFeature_cases name (values : Feature.ValueInformationArray) m :
  Measurement.AddFeature name values m =
  if Measurement.IsForged m then (Throw MeasurementForged, m)
  else if bool_decide (name = "") then (Throw NoFeatureName, m)
  else if Measurement.FeatureExists m name then (Throw (FeaturePresent name), m)
  else if Measurement.vector_empty values then (Throw NoValues, m)
  else Measurement.AddFeature_ name values m.
Proof. apply AddFeature_guards. Qed.

Lemma EnsureFeature_cases name (values : Feature.ValueInformationArray) m :
  Measurement.EnsureFeature name values m =
  if Measurement.IsForged m then (Throw MeasurementForged, m)
  else if bool_decide (name = "") then (Throw NoFeatureName, m)
  else if Measurement.FeatureExists m name then (Ok tt, m)
  else if Measurement.vector_empty values then (Throw NoValues, m)
  else Measurement.AddFeature_ name values m.
Proof. apply EnsureFeature_guards. Qed.

Lemma Forge_cases m :
  Measurement.Forge m =
  if Measurement.IsForged m then (Ok tt, m)
  else
    let n := Word.mul (Word.size (Measurement.values_ m))
                      (Word.size (Measurement.objects_ m)) in
    if n =? 0 then (Throw ZeroSizedTable, m)
    else (Ok tt, Measurement.set_data_ (resize (N.to_nat n) 0%float) m).
Proof.
  unfold Measurement.Forge. cbv [mbind Method_bind DIP_THROW_IF get modify mret Method_ret].
  destruct (Measurement.IsForged m); simpl; [done|].
  by destruct (_ =? 0).
Qed.

Lemma store_cases p x m :
  Measurement.store p x m =
  if p <? Word.size (Measurement.data_ m)
  then (Ok tt, Measurement.set_data_ (fun _ => <[N.to_nat p := x]> (Measurement.data_ m)) m)
  else (Undefined, m).
Proof.
  unfold Measurement.store, vector_assign. cbv [mbind Method_bind call modify].
  by destruct (p <? _).
Qed.

Lemma objects_agree_exists m objectID :
  objects_agree m ->
  (Measurement.ObjectExists m objectID = true <-> objectID ∈ Measurement.objects_ m).
Proof.
  intros Hag. rewrite ObjectExists_true. split.
  - intros [row Hrow]. apply Hag in Hrow. by eapply list_elem_of_lookup_2.
  - intros [i Hi]%list_elem_of_lookup_1. exists (N.of_nat i).
    apply Hag. by rewrite Nat2N.id.
Qed.

Lemma objects_agree_NoDup m : objects_agree m -> NoDup (Measurement.objects_ m).
Proof.
  intros Hag. apply NoDup_alt. intros i j x Hi Hj.
  assert (Measurement.objectIndices_ m !! x = Some (N.of_nat i)) as Ei
    by (apply Hag; by rewrite Nat2N.id).
  assert (Measurement.objectIndices_ m !! x = Some (N.of_nat j)) as Ej
    by (apply Hag; by rewrite Nat2N.id).
  rewrite Ei in Ej. injection Ej. lia.
Qed.

Lemma objects_agree_push m objectID :
  objects_agree m ->
  Measurement.objectIndices_ m !! objectID = None ->
  objects_agree (push_object objectID m).
Proof.
  intros Hag Hnew id row. destruct m as [os oi fs vs fi d].
  unfold push_object, Measurement.set_objectIndices_, Measurement.set_objects_, map_emplace.
  cbn [Measurement.objects_ Measurement.objectIndices_] in *. rewrite Hnew.
  destruct (decide (id = objectID)) as [->|Hne].
  - rewrite lookup_insert_eq. split.
    + intros [= <-]. unfold Word.size. rewrite Nat2N.id.
      by rewrite list_lookup_middle.
    + intros Hl. destruct (decide (N.to_nat row < length os)%nat) as [Hlt|Hge].
      * rewrite lookup_app_l in Hl by done. apply Hag in Hl. simpl in Hl. congruence.
      * apply lookup_lt_Some in Hl. rewrite length_app in Hl. simpl in Hl.
        f_equal. unfold Word.size. lia.
  - rewrite lookup_insert_ne by done. rewrite (Hag id row). simpl. split.
    + intros Hl. by apply lookup_app_l_Some.
    + intros Hl. apply lookup_app_Some in Hl as [Hl|[_ Hl]]; [done|].
      destruct (N.to_nat row - length os)%nat; simpl in Hl; [congruence|done].
Qed.

Lemma AddObjectIDs_body_cases objectID m :
  AddObjectIDs_body objectID m =
  if Measurement.ObjectExists m objectID then (Throw (ObjectPresent objectID), m)
  else (Ok tt, push_object objectID m).
Proof.
  unfold AddObjectIDs_body. cbv [mbind Method_bind DIP_THROW_IF get modify].
  by destruct (Measurement.ObjectExists m objectID).
Qed.

Lemma AddObjectIDs_cases objectIDs m :
  Measurement.AddObjectIDs objectIDs m =
  if Measurement.IsForged m then (Throw MeasurementForged, m)
  else for_each objectIDs AddObjectIDs_body m.
Proof.
  unfold Measurement.AddObjectIDs. cbv [mbind Method_bind DIP_THROW_IF].
  by destruct (Measurement.IsForged m).
Qed.

(** The loop of [AddObjectIDs] stops at the first identifier that is
    already a row, those before it having been appended. *)
Lemma AddObjectIDs_loop objectIDs : forall m,
  objects_agree m ->
  exists r m',
    for_each objectIDs AddObjectIDs_body m = (r, m') /\
    objects_agree m' /\ columns m' = columns m /\
    ((r = Ok tt /\ Measurement.objects_ m' = Measurement.objects_ m ++ objectIDs /\
      NoDup (Measurement.objects_ m ++ objectIDs)) \/
     (exists added x rest,
        objectIDs = added ++ x :: rest /\ r = Throw (ObjectPresent x) /\
        Measurement.objects_ m' = Measurement.objects_ m ++ added /\
        x ∈ Measurement.objects_ m ++ added)).
Proof.
  induction objectIDs as [|x ids IH]; intros m Hag.
  - exists (Ok tt), m. split; [reflexivity|]. split; [done|]. split; [done|]. left.
    rewrite app_nil_r. split; [done|]. split; [done|]. by apply objects_agree_NoDup.
  - simpl. cbv [mbind Method_bind]. rewrite AddObjectIDs_body_cases.
    destruct (Measurement.ObjectExists m x) eqn:Ex.
    + exists (Throw (ObjectPresent x)), m.
      split; [reflexivity|]. split; [done|]. split; [done|]. right.
      exists [], x, ids. rewrite app_nil_r. split; [done|]. split; [done|].
      split; [done|]. by apply objects_agree_exists.
    + apply ObjectExists_false in Ex.
      destruct (IH (push_object x m) (objects_agree_push _ _ Hag Ex))
        as (r & m' & Hrun & Hag' & Hcol & Hres).
      exists r, m'. split; [done|]. split; [done|]. split.
      { rewrite Hcol. by destruct m. }
      assert (Hobj : Measurement.objects_ (push_object x m) = Measurement.objects_ m ++ [x])
        by (by destruct m).
      rewrite Hobj in Hres. destruct Hres as [(-> & Ho & Hnd)|(added & y & rest & -> & -> & Ho & Hin)].
      * left. rewrite <- app_assoc in Ho, Hnd. done.
      * right. exists (x :: added), y, rest. rewrite <- app_assoc in Ho, Hin. done.
Qed.

(** ** The invariant of reachable tables *)

Lemma tiles_snoc fs first last name count :
  tiles fs first last ->
  tiles (fs ++ [Measurement.FeatureInfo.mk name last count]) first (last + count).
Proof.
  revert first. induction fs as [|f fs IH]; simpl; intros first.
  - intros ->. done.
  - intros [-> Ht]. split; [done|]. by apply IH.
Qed.

Lemma tiles_sum fs first last :
  tiles fs first last -> last = first + sum_numberValues fs.
Proof.
  revert first. induction fs as [|f fs IH]; simpl; intros first.
  - intros ->. lia.
  - intros [_ Ht]. apply IH in Ht. lia.
Qed.

Lemma invariant_empty : invariant Measurement.empty.
Proof.
  split; simpl; try done.
  - intros name index. rewrite lookup_empty. split; [done|].
    intros (f & Hf & _). by rewrite lookup_nil in Hf.
  - intros f Hf. by apply elem_of_nil in Hf.
  - by left.
Qed.

Lemma invariant_AddFeature_ name values m :
  invariant m ->
  Measurement.data_ m = [] ->
  name <> "" -> values <> [] ->
  Measurement.featureIndices_ m !! name = None ->
  invariant (Measurement.AddFeature_ name values m).2.
Proof.
  intros [Hobj Hfeat Hne Htiles Hdata] Hd Hname Hvalues Hnew.
  rewrite AddFeature__returns. destruct m as [os oi fs vs fi d]. simpl in *.
  split; simpl.
  - done.
  - intros name' index. unfold map_emplace. rewrite Hnew.
    destruct (decide (name' = name)) as [->|Hneq].
    + rewrite lookup_insert_eq. split.
      * intros [= <-]. eexists. unfold Word.size. rewrite Nat2N.id.
        by rewrite list_lookup_middle.
      * intros (f & Hl & Hf).
        destruct (decide (N.to_nat index < length fs)%nat) as [Hlt|Hge].
        -- rewrite lookup_app_l in Hl by done.
           assert (fi !! name = Some index) as E by (apply Hfeat; eauto). congruence.
        -- apply lookup_lt_Some in Hl. rewrite length_app in Hl. simpl in Hl.
           f_equal. unfold Word.size. lia.
    + rewrite lookup_insert_ne by done. rewrite (Hfeat name' index). split.
      * intros (f & Hl & Hf). exists f. split; [|done]. by apply lookup_app_l_Some.
      * intros (f & Hl & Hf). exists f. split; [|done].
        apply lookup_app_Some in Hl as [Hl|[_ Hl]]; [done|].
        destruct (N.to_nat index - length fs)%nat; simpl in Hl; [|done].
        injection Hl as <-. simpl in Hf. congruence.
  - intros f [Hf| ->%list_elem_of_singleton]%elem_of_app; [by apply Hne|].
    simpl. split; [done|]. destruct values; [done|]. unfold Word.size. simpl. lia.
  - rewrite size_app. by apply tiles_snoc.
  - left. done.
Qed.

Lemma invariant_exec op m r m' :
  invariant m -> exec op m = (r, m') -> invariant m'.
Proof.
  intros Hinv. destruct op as [name values|name values|objectIDs| |p x]; simpl.
  - rewrite AddFeature_cases.
    destruct (Measurement.IsForged m) eqn:Ef; [by intros [= _ <-]|].
    destruct (bool_decide (name = "")) eqn:En; [by intros [= _ <-]|].
    destruct (Measurement.FeatureExists m name) eqn:Ex; [by intros [= _ <-]|].
    destruct (Measurement.vector_empty values) eqn:Ev; [by intros [= _ <-]|].
    intros Hrun.
    replace m' with (Measurement.AddFeature_ name values m).2 by (by rewrite Hrun).
    apply invariant_AddFeature_; try done.
    + by apply IsForged_false.
    + by apply bool_decide_eq_false in En.
    + intros ->. done.
    + by apply FeatureExists_false.
  - rewrite EnsureFeature_cases.
    destruct (Measurement.IsForged m) eqn:Ef; [by intros [= _ <-]|].
    destruct (bool_decide (name = "")) eqn:En; [by intros [= _ <-]|].
    destruct (Measurement.FeatureExists m name) eqn:Ex; [by intros [= _ <-]|].
    destruct (Measurement.vector_empty values) eqn:Ev; [by intros [= _ <-]|].
    intros Hrun.
    replace m' with (Measurement.AddFeature_ name values m).2 by (by rewrite Hrun).
    apply invariant_AddFeature_; try done.
    + by apply IsForged_false.
    + by apply bool_decide_eq_false in En.
    + intros ->. done.
    + by apply FeatureExists_false.
  - rewrite AddObjectIDs_cases.
    destruct (Measurement.IsForged m) eqn:Ef; [by intros [= _ <-]|].
    apply IsForged_false in Ef.
    destruct (AddObjectIDs_loop objectIDs m (inv_objects m Hinv))
      as (r0 & m0 & Hrun & Hag & Hcol & _).
    rewrite Hrun. intros [= _ <-].
    destruct Hinv as [_ Hfeat Hne Htiles _].
    unfold columns in Hcol. injection Hcol as Hf Hv Hi Hd.
    split.
    + exact Hag.
    + by rewrite Hi, Hf.
    + by rewrite Hf.
    + by rewrite Hf, Hv.
    + left. by rewrite Hd.
  - rewrite Forge_cases.
    destruct (Measurement.IsForged m) eqn:Ef; [by intros [= _ <-]|].
    simpl. destruct (_ =? 0) eqn:En; [by intros [= _ <-]|].
    intros [= _ <-]. destruct Hinv as [Hobj Hfeat Hne Htiles _].
    destruct m as [os oi fs vs fi d]. split; try done.
    right. simpl. unfold Word.size at 1. rewrite length_resize. lia.
  - rewrite store_cases.
    destruct (p <? _) eqn:Ep; [|by intros [= _ <-]].
    intros [= _ <-]. destruct Hinv as [Hobj Hfeat Hne Htiles Hdata].
    destruct m as [os oi fs vs fi d]. split; try done.
    simpl in *. destruct Hdata as [->|Hdata]; [by left|].
    right. unfold Word.size at 1. rewrite length_insert. done.
Qed.

Lemma reachable_invariant m : reachable m -> invariant m.
Proof.
  induction 1 as [|m op m' _ IH Hrun|m op e m' _ IH Hrun].
  - apply invariant_empty.
  - by eapply invariant_exec.
  - by eapply invariant_exec.
Qed.

(** The table left by a sequence of calls that all return is reachable. *)
Lemma run_reachable ops : forall m m',
  reachable m -> run ops m = (Ok tt, m') -> reachable m'.
Proof.
  induction ops as [|op ops IH]; intros m m' Hm; simpl.
  - by intros [= <-].
  - cbv [mbind Method_bind]. destruct (exec op m) as [[[]|e|] m1] eqn:Hop; try done.
    intros Hrun. eapply IH; [|done]. by eapply reachable_returns.
Qed.

(** ** AddFeature *)


(** ** EnsureFeature *)

(** C10: on a table that is not forged, [EnsureFeature( name, values )] with
    a name that is already present returns at once and changes nothing,
    whatever [values] is, the empty array included; with a name that is not
    present and an empty array it fails with InvalidArgument and is, on that
    input, [AddFeature]. *)
Theorem EnsureFeature_spec (m : Measurement.t) (name : string) :
  reachable m ->
  Measurement.IsForged m = false ->
  (Measurement.FeatureExists m name = true ->
     forall values, Measurement.EnsureFeature name values m = (Ok tt, m)) /\
  (Measurement.FeatureExists m name = false ->
     Measurement.EnsureFeature name [] m = Measurement.AddFeature name [] m /\
     exists e, Measurement.EnsureFeature name [] m = (Throw e, m) /\
               kind e = InvalidArgument).
Proof.
  intros Hreach Hf. apply reachable_invariant in Hreach. split.
  - intros Hex values. rewrite EnsureFeature_guards, Hf, Hex.
    apply FeatureExists_true in Hex as [index Hix].
    apply (inv_features m Hreach) in Hix as (f & Hl & Hname).
    assert (name <> "") as Hne.
    { rewrite <- Hname. eapply (inv_nonempty m Hreach). by eapply list_elem_of_lookup_2. }
    by rewrite bool_decide_eq_false_2.
  - intros Hex. rewrite EnsureFeature_cases, AddFeature_cases, Hf, Hex. split; [done|].
    destruct (bool_decide (name = "")); simpl.
    + by exists NoFeatureName.
    + by exists NoValues.
Qed.

(** ** Forge *)


(** ** Raw access *)

(** C5, as the code has it: [Data()] throws (NotForged) on every table that
    is not forged and returns the address of the buffer on every forged
    one; [Stride()] has no such guard and returns the number of value
    columns on every table, forged or not. *)
Theorem Data_Stride_spec (m : Measurement.t) :
  (Measurement.IsForged m = false ->
     Measurement.Data m = Throw MeasurementNotForged /\
     kind MeasurementNotForged = NotForged) /\
  (Measurement.IsForged m = true -> Measurement.Data m = Ok 0) /\
  Measurement.Stride m = Ok (Z.of_N (Measurement.NumberOfValues m)).
Proof.
  unfold Measurement.Data, Measurement.Stride.
  split; [|split]; [by intros ->|by intros ->|done].
Qed.

(** C5, as stated, fails: the empty table is not forged, yet [Stride()]
    returns on it; so does it on a table with a feature and no buffer. *)
Lemma Stride_returns_when_not_forged :
  Measurement.IsForged Measurement.empty = false /\
  Measurement.Stride Measurement.empty = Ok 0%Z /\
  ~ fails (Measurement.Stride Measurement.empty) /\
  let m := (Measurement.AddFeature "Size" [Feature.ValueInformation.mk "Size" "px"]
              Measurement.empty).2 in
  Measurement.IsForged m = false /\ Measurement.Stride m = Ok 1%Z.
Proof.
  split; [reflexivity|]. split; [reflexivity|]. split; [|by vm_compute].
  by intros [e He].
Qed.

(** ** AddObjectIDs *)

Lemma AddObjectIDs_fresh_prefix added : forall m rest,
  NoDup added ->
  (forall objectID, objectID ∈ added -> Measurement.ObjectExists m objectID = false) ->
  exists m1,
    for_each (added ++ rest) AddObjectIDs_body m = for_each rest AddObjectIDs_body m1 /\
    Measurement.objects_ m1 = Measurement.objects_ m ++ added /\
    columns m1 = columns m /\
    (forall objectID,
       Measurement.ObjectExists m1 objectID = true <->
       Measurement.ObjectExists m objectID = true \/ objectID ∈ added).
Proof.
  induction added as [|a added IH]; intros m rest Hnd Hfresh.
  - exists m. rewrite app_nil_r. repeat split; try done; [by left|].
    intros [?|?%elem_of_nil]; done.
  - apply NoDup_cons in Hnd as [Ha Hnd].
    assert (Hpush : forall objectID,
              Measurement.ObjectExists (push_object a m) objectID = true <->
              Measurement.ObjectExists m objectID = true \/ objectID = a).
    { intros id. rewrite !ObjectExists_true.
      pose proof (Hfresh a ltac:(left)) as Hnew. apply ObjectExists_false in Hnew.
      destruct m as [os oi fs vs fi d].
      unfold push_object, Measurement.set_objectIndices_, Measurement.set_objects_,
        map_emplace.
      cbn [Measurement.objects_ Measurement.objectIndices_] in *. rewrite Hnew.
      destruct (decide (id = a)) as [->|Hne].
      - rewrite lookup_insert_eq. split; [by right|by eexists].
      - rewrite lookup_insert_ne by done. split; [by left|]. by intros [?|?]. }
    destruct (IH (push_object a m) rest Hnd) as (m1 & Hrun & Hobj & Hcol & Hex).
    { intros id Hid. apply not_true_iff_false. rewrite Hpush. intros [E| ->]; [|done].
      rewrite Hfresh in E; [done|by right]. }
    exists m1. split; [|split; [|split]].
    + simpl. cbv [mbind Method_bind]. rewrite AddObjectIDs_body_cases.
      rewrite (Hfresh a) by left. exact Hrun.
    + rewrite Hobj. destruct m; simpl. by rewrite <- app_assoc.
    + rewrite Hcol. by destruct m.
    + intros id. rewrite Hex, Hpush, elem_of_cons. tauto.
Qed.

(** C8: [AddObjectIDs( ids )] throws when the table is forged, and throws
    when one of the identifiers is already a row of the table; when it
    returns, the row order is the former one followed by the given
    identifiers in the order given, each new identifier is mapped to its
    row, the identifier→row-index mapping is injective, and the columns
    are untouched. *)
Theorem AddObjectIDs_spec (objectIDs : list Word.uint) (m : Measurement.t) :
  reachable m ->
  (Measurement.IsForged m = true ->
     exists e, Measurement.AddObjectIDs objectIDs m = (Throw e, m) /\
               kind e = AlreadyForged) /\
  (Measurement.IsForged m = false ->
   (exists objectID, objectID ∈ objectIDs /\ Measurement.ObjectExists m objectID = true) ->
     exists x m', Measurement.AddObjectIDs objectIDs m = (Throw (ObjectPresent x), m')) /\
  (forall m', Measurement.AddObjectIDs objectIDs m = (Ok tt, m') ->
     Measurement.Objects m' = Measurement.Objects m ++ objectIDs /\
     (forall k objectID, objectIDs !! k = Some objectID ->
        Measurement.ObjectIndex m' objectID =
          Ok (Measurement.NumberOfObjects m + N.of_nat k)) /\
     (forall id1 id2 row,
        Measurement.ObjectIndex m' id1 = Ok row ->
        Measurement.ObjectIndex m' id2 = Ok row -> id1 = id2) /\
     columns m' = columns m).
Proof.
  intros Hreach. apply reachable_invariant in Hreach.
  pose proof (inv_objects m Hreach) as Hag.
  rewrite AddObjectIDs_cases.
  destruct (AddObjectIDs_loop objectIDs m Hag) as (r & m1 & Hrun & Hag1 & Hcol & Hres).
  split; [|split].
  - intros ->. by exists MeasurementForged.
  - intros -> (id & Hin & Hex). rewrite Hrun.
    destruct Hres as [(_ & _ & Hnd)|(added & x & rest & _ & -> & _)]; [|by eexists _, _].
    exfalso. apply NoDup_app in Hnd as (_ & Hdisj & _).
    apply (Hdisj id); [|done]. by apply objects_agree_exists.
  - intros m'. destruct (Measurement.IsForged m); [done|]. rewrite Hrun.
    intros [= -> <-].
    destruct Hres as [(_ & Ho & Hnd)|(added & x & rest & _ & [=] & _)].
    unfold Measurement.Objects, Measurement.ObjectIndex, Measurement.NumberOfObjects.
    split; [done|]. split; [|split; [|done]].
    + intros k id Hk.
      assert (Measurement.objectIndices_ m1 !! id =
                Some (Word.size (Measurement.objects_ m) + N.of_nat k)) as ->; [|done].
      apply Hag1. rewrite Ho. unfold Word.size.
      replace (N.to_nat _) with (length (Measurement.objects_ m) + k)%nat by lia.
      by rewrite lookup_app_r, Nat.add_comm, Nat.add_sub by lia.
    + intros id1 id2 row.
      destruct (Measurement.objectIndices_ m1 !! id1) as [r1|] eqn:E1; [|done].
      destruct (Measurement.objectIndices_ m1 !! id2) as [r2|] eqn:E2; [|done].
      intros [= ->] [= ->]. apply Hag1 in E1, E2. congruence.
Qed.

Lemma AddObjectIDs_throws_at (m : Measurement.t) added x rest :
  Measurement.IsForged m = false ->
  NoDup added ->
  (forall objectID, objectID ∈ added -> Measurement.ObjectExists m objectID = false) ->
  Measurement.ObjectExists m x = true \/ x ∈ added ->
  exists m',
    Measurement.AddObjectIDs (added ++ x :: rest) m = (Throw (ObjectPresent x), m') /\
    Measurement.Objects m' = Measurement.Objects m ++ added /\
    (forall objectID, objectID ∈ added -> Measurement.ObjectExists m' objectID = true).
Proof.
  intros Hf Hnd Hfresh Hx.
  destruct (AddObjectIDs_fresh_prefix added m (x :: rest) Hnd Hfresh)
    as (m1 & Hrun & Hobj & _ & Hex).
  exists m1. rewrite AddObjectIDs_cases, Hf, Hrun. simpl.
  cbv [mbind Method_bind]. rewrite AddObjectIDs_body_cases.
  rewrite (proj2 (Hex x) Hx). split; [done|]. split; [done|].
  intros id Hid. apply Hex. by right.
Qed.

(** C9: [AddObjectIDs] is not atomic.  When a call on a table that is not
    forged throws, it throws at an identifier [x] of the array that is
    already a row, and the identifiers [added] that precede [x] in the array
    have been appended to the rows and stay there: [ObjectExists] is true
    of each of them in the table the call leaves.  So an array that holds
    the same new identifier twice throws and leaves the identifier
    inserted. *)
Theorem AddObjectIDs_not_atomic (m : Measurement.t) :
  reachable m ->
  Measurement.IsForged m = false ->
  (forall objectIDs e m',
     Measurement.AddObjectIDs objectIDs m = (Throw e, m') ->
     exists added x rest,
       objectIDs = added ++ x :: rest /\
       e = ObjectPresent x /\
       Measurement.Objects m' = Measurement.Objects m ++ added /\
       x ∈ Measurement.Objects m' /\
       (forall objectID, objectID ∈ added ->
          Measurement.ObjectExists m objectID = false /\
          Measurement.ObjectExists m' objectID = true)) /\
  (forall a rest,
     Measurement.ObjectExists m a = false ->
     exists m',
       Measurement.AddObjectIDs (a :: a :: rest) m = (Throw (ObjectPresent a), m') /\
       Measurement.ObjectExists m' a = true /\
       Measurement.Objects m' = Measurement.Objects m ++ [a]).
Proof.
  intros Hreach Hf. apply reachable_invariant in Hreach.
  pose proof (inv_objects m Hreach) as Hag. split.
  - intros ids e m'. rewrite AddObjectIDs_cases, Hf.
    destruct (AddObjectIDs_loop ids m Hag) as (r & m1 & Hrun & Hag1 & _ & Hres).
    rewrite Hrun. intros [= -> <-].
    destruct Hres as [([=] & _)|(added & x & rest & -> & [= ->] & Ho & Hin)].
    exists added, x, rest. unfold Measurement.Objects.
    split; [done|]. split; [done|]. split; [done|]. split; [by rewrite Ho|].
    intros id Hid.
    pose proof (objects_agree_NoDup m1 Hag1) as Hnd. rewrite Ho in Hnd.
    apply NoDup_app in Hnd as (_ & Hdisj & _). split.
    + apply not_true_iff_false. rewrite (objects_agree_exists m id Hag).
      intros Hold. by apply (Hdisj id).
    + apply (objects_agree_exists m1 id Hag1). rewrite Ho, elem_of_app. by right.
  - intros a rest Ha.
    destruct (AddObjectIDs_throws_at m [a] a rest Hf) as (m' & Hrun & Hobj & Hex).
    + apply NoDup_singleton.
    + by intros id ->%list_elem_of_singleton.
    + right. by apply list_elem_of_singleton.
    + exists m'. split; [exact Hrun|]. split; [|done].
      apply Hex. by apply list_elem_of_singleton.
Qed.

(** ** Layout *)

Lemma tiles_lookup fs : forall first last i f,
  tiles fs first last -> fs !! i = Some f ->
  Measurement.FeatureInfo.startColumn f = first + sum_numberValues (take i fs) /\
  Measurement.FeatureInfo.startColumn f + Measurement.FeatureInfo.numberValues f <= last.
Proof.
  induction fs as [|g fs IH]; intros first last i f Ht Hl; [done|].
  destruct Ht as [Hs Ht]. destruct i as [|i]; simpl in *.
  - injection Hl as ->. split; [lia|]. apply tiles_sum in Ht. lia.
  - destruct (IH _ _ _ _ Ht Hl) as [E Hle]. split; [lia|done].
Qed.

(** C4: after a sequence of calls of [AddFeature], [EnsureFeature],
    [AddObjectIDs], [Forge] (and writes of cells) that all return,
    [Stride()] is the sum of [numberValues] over the recorded features,
    which is the number of value-information records; the column groups
    tile the columns from 0 up to [Stride()] in the order of the features:
    each feature starts where the groups of the features before it end. *)
Theorem Stride_layout (ops : list Op) (m : Measurement.t) :
  run ops Measurement.empty = (Ok tt, m) ->
  Measurement.Stride m = Ok (Z.of_N (sum_numberValues (Measurement.Features m))) /\
  sum_numberValues (Measurement.Features m) = Word.size (Measurement.Values m) /\
  tiles (Measurement.Features m) 0 (sum_numberValues (Measurement.Features m)) /\
  (forall i f, Measurement.Features m !! i = Some f ->
     0 < Measurement.FeatureInfo.numberValues f /\
     Measurement.FeatureInfo.startColumn f =
       sum_numberValues (take i (Measurement.Features m)) /\
     Measurement.FeatureInfo.startColumn f + Measurement.FeatureInfo.numberValues f
       <= sum_numberValues (Measurement.Features m)).
Proof.
  intros Hrun.
  assert (Hinv : invariant m).
  { apply reachable_invariant. eapply run_reachable; [apply reachable_empty|done]. }
  pose proof (inv_tiles m Hinv) as Ht.
  pose proof (tiles_sum _ _ _ Ht) as Hsum. rewrite N.add_0_l in Hsum.
  unfold Measurement.Stride, Measurement.Features, Measurement.Values.
  rewrite <- Hsum. split; [done|]. split; [done|]. split; [done|].
  intros i f Hl. destruct (tiles_lookup _ _ _ _ _ Ht Hl) as [E Hle].
  split; [|split; [lia|done]].
  eapply (inv_nonempty m Hinv). by eapply list_elem_of_lookup_2.
Qed.

(** ** The two views *)

Lemma feature_route_eq m name objectID k :
  Measurement.feature_route m name objectID k =
  index ← Measurement.FeatureIndex m name;
  row ← Measurement.ObjectIndex m objectID;
  f ← vector_at (Measurement.features_ m) index;
  Ok (0 + Word.mul row (Word.wrap (Measurement.NumberOfValues m))
        + Measurement.FeatureInfo.startColumn f + k).
Proof.
  unfold Measurement.feature_route, Measurement.subscript_feature,
    Measurement.IteratorFeature.subscript, Measurement.IteratorFeature.ObjectIndex,
    Measurement.IteratorFeature.Iterator.subscript,
    Measurement.IteratorFeature.Iterator.begin, Measurement.IteratorFeature.Feature,
    Measurement.Stride, Measurement.NumberOfValues.
  destruct (Measurement.FeatureIndex m name) as [index| |]; try done.
  destruct (Measurement.ObjectIndex m objectID) as [row| |]; try done.
  cbn [mbind mret Outcome_bind Outcome_ret Measurement.IteratorFeature.Iterator.index_
       Measurement.IteratorFeature.Iterator.feature_ Measurement.IteratorFeature.index_].
  rewrite of_sint_of_N. by destruct (vector_at _ index).
Qed.

Lemma object_route_eq m objectID name k :
  Measurement.object_route m objectID name k =
  row ← Measurement.ObjectIndex m objectID;
  index ← Measurement.FeatureIndex m name;
  data ← Measurement.Data m;
  f ← vector_at (Measurement.features_ m) index;
  Ok (data + Word.mul row (Word.wrap (Measurement.NumberOfValues m))
        + Measurement.FeatureInfo.startColumn f + k).
Proof.
  unfold Measurement.object_route, Measurement.subscript_object,
    Measurement.IteratorObject.subscript, Measurement.IteratorObject.FeatureIndex,
    Measurement.IteratorObject.Iterator.subscript,
    Measurement.IteratorObject.Iterator.begin, Measurement.IteratorObject.Iterator.Feature,
    Measurement.Stride, Measurement.NumberOfValues.
  destruct (Measurement.ObjectIndex m objectID) as [row| |]; try done.
  destruct (Measurement.FeatureIndex m name) as [index| |]; try done.
  cbn [mbind mret Outcome_bind Outcome_ret Measurement.IteratorObject.Iterator.index_
       Measurement.IteratorObject.Iterator.object_ Measurement.IteratorObject.index_].
  destruct (Measurement.Data m); try done.
  cbn [mbind mret Outcome_bind Outcome_ret].
  rewrite of_sint_of_N. by destruct (vector_at _ index).
Qed.

(** C1: on a forged table, for an object identifier that is a row, a
    feature name that is a column group and [k] below the feature's
    [numberValues], [msr[ name ][ objectID ][ k ]] and
    [msr[ objectID ][ name ][ k ]] refer to the same element of the buffer
    and so read the same value; when the cell count fits [dip::uint] that
    element is number [row * Stride() + startColumn + k], it lies inside
    the buffer and inside the cell of the object and the feature. *)
Theorem view_duality (m : Measurement.t) (objectID : Word.uint) (name : string)
    (k count : Word.uint) :
  reachable m ->
  Measurement.IsForged m = true ->
  Measurement.ObjectExists m objectID = true ->
  Measurement.NumberOfValues_of m name = Ok count ->
  k < count ->
  exists row startColumn stride address,
    Measurement.ObjectIndex m objectID = Ok row /\
    Measurement.ValueIndex m name = Ok startColumn /\
    Measurement.Stride m = Ok stride /\
    Measurement.feature_route m name objectID k = Ok address /\
    Measurement.object_route m objectID name k = Ok address /\
    address = Word.mul row (Word.of_sint stride) + startColumn + k /\
    (a ← Measurement.feature_route m name objectID k; Measurement.load m a) =
    (a ← Measurement.object_route m objectID name k; Measurement.load m a) /\
    (Measurement.NumberOfValues m * Measurement.NumberOfObjects m < Word.modulus ->
       Z.of_N address = (Z.of_N row * stride + Z.of_N startColumn + Z.of_N k)%Z /\
       address < Word.size (Measurement.data_ m) /\
       row * Measurement.NumberOfValues m <= address - k /\
       address < (row + 1) * Measurement.NumberOfValues m /\
       exists x, Measurement.load m address = Ok x).
Proof.
  intros Hreach Hforged Hobj Hcount Hk. apply reachable_invariant in Hreach.
  apply ObjectExists_true in Hobj as [row Hrow].
  unfold Measurement.NumberOfValues_of in Hcount.
  destruct (Measurement.FeatureIndex m name) as [index| |] eqn:Hindex; try done.
  simpl in Hcount.
  destruct (vector_at (Measurement.features_ m) index) as [f| |] eqn:Hf; try done.
  injection Hcount as <-.
  exists row, (Measurement.FeatureInfo.startColumn f),
    (Z.of_N (Measurement.NumberOfValues m)),
    (Word.mul row (Word.wrap (Measurement.NumberOfValues m))
       + Measurement.FeatureInfo.startColumn f + k).
  assert (Hrow' : Measurement.ObjectIndex m objectID = Ok row)
    by (unfold Measurement.ObjectIndex; by rewrite Hrow).
  assert (Hfr : Measurement.feature_route m name objectID k =
                Ok (Word.mul row (Word.wrap (Measurement.NumberOfValues m))
                    + Measurement.FeatureInfo.startColumn f + k)).
  { rewrite feature_route_eq, Hindex, Hrow'. simpl. rewrite Hf. done. }
  assert (Hor : Measurement.object_route m objectID name k =
                Ok (Word.mul row (Word.wrap (Measurement.NumberOfValues m))
                    + Measurement.FeatureInfo.startColumn f + k)).
  { rewrite object_route_eq, Hindex, Hrow'. unfold Measurement.Data. rewrite Hforged.
    simpl. rewrite Hf. done. }
  split; [done|]. split; [unfold Measurement.ValueIndex; by rewrite Hindex; simpl; rewrite Hf|].
  split; [done|]. split; [done|]. split; [done|].
  split; [by rewrite of_sint_of_N|]. split; [by rewrite Hfr, Hor|].
  intros Hfits.
  apply (inv_objects m Hreach) in Hrow. apply lookup_lt_Some in Hrow.
  apply vector_at_Ok in Hf.
  destruct (tiles_lookup _ _ _ _ _ (inv_tiles m Hreach) Hf) as [_ Hle].
  destruct (inv_data m Hreach) as [Hd|Hd];
    [apply IsForged_false in Hd; congruence|].
  unfold Measurement.NumberOfValues, Measurement.NumberOfObjects in *.
  rewrite (mul_exact _ _ Hfits) in Hd.
  set (V := Word.size (Measurement.values_ m)) in *.
  set (O := Word.size (Measurement.objects_ m)) in *.
  assert (row < O) as HrowO by (unfold O, Word.size; lia).
  assert (V < Word.modulus) as HV by nia.
  assert (Word.wrap V = V) as -> by (by apply N.mod_small).
  assert (row * V < Word.modulus) as Hrv by nia.
  rewrite (mul_exact _ _ Hrv).
  assert (row * V + Measurement.FeatureInfo.startColumn f + k < Word.size (Measurement.data_ m))
    as Hin by nia.
  split; [lia|]. split; [done|]. split; [lia|]. split; [nia|].
  unfold Measurement.load, vector_at.
  destruct (Measurement.data_ m !! _) as [x|] eqn:E; [by exists x|].
  apply lookup_ge_None in E. unfold Word.size in Hin. lia.
Qed.

(** ** The registry *)

Lemma Register_cases feature tool :
  MeasurementTool.Register feature tool =
  if MeasurementTool.Exists tool (feature_name feature) then (Ok tt, tool)
  else (Ok tt,
        MeasurementTool.mk
          (MeasurementTool.features_ tool ++ [feature])
          (map_emplace (feature_name feature) (Word.size (MeasurementTool.features_ tool))
             (MeasurementTool.featureIndices_ tool))).
Proof.
  unfold MeasurementTool.Register, feature_name.
  cbv [mbind Method_bind get modify mret Method_ret].
  destruct (MeasurementTool.Exists tool _); [|done]. by destruct tool.
Qed.

Lemma push_back_loop {A B} (g : A -> B) (xs : list A) : forall out,
  fold_left (fun out x => out ++ [g x]) xs out = out ++ (g <$> xs).
Proof.
  induction xs as [|x xs IH]; intros out; simpl.
  - by rewrite app_nil_r.
  - rewrite IH. by rewrite <- app_assoc.
Qed.

Lemma Features_fmap tool :
  MeasurementTool.Features tool =
  Feature.Base.information <$> MeasurementTool.features_ tool.
Proof. unfold MeasurementTool.Features. by rewrite push_back_loop. Qed.

Lemma registry_agree_empty : registry_agree MeasurementTool.empty.
Proof.
  intros name. unfold MeasurementTool.Exists. rewrite map_count_true. simpl.
  rewrite lookup_empty. split; [by intros []|by intros ?%elem_of_nil].
Qed.

Lemma registry_agree_push feature tool :
  registry_agree tool ->
  MeasurementTool.Exists tool (feature_name feature) = false ->
  registry_agree
    (MeasurementTool.mk
       (MeasurementTool.features_ tool ++ [feature])
       (map_emplace (feature_name feature) (Word.size (MeasurementTool.features_ tool))
          (MeasurementTool.featureIndices_ tool))).
Proof.
  intros Hag Hnew name. specialize (Hag name).
  unfold MeasurementTool.Exists in *. rewrite map_count_true in Hag.
  rewrite map_count_false in Hnew. rewrite map_count_true. simpl.
  unfold map_emplace. rewrite Hnew. rewrite fmap_app, elem_of_app. simpl.
  rewrite list_elem_of_singleton.
  destruct (decide (name = feature_name feature)) as [->|Hne].
  - rewrite lookup_insert_eq. split; [by right|by eexists].
  - rewrite lookup_insert_ne by done. rewrite Hag. split; [by left|]. by intros [?|?].
Qed.

Lemma surviving_ext features : forall seen seen',
  (forall name, name ∈ seen <-> name ∈ seen') ->
  surviving seen features = surviving seen' features.
Proof.
  induction features as [|f fs IH]; intros seen seen' Hext; [done|]. simpl.
  rewrite (bool_decide_ext _ _ (Hext (feature_name f))).
  destruct (bool_decide _); [by apply IH|].
  f_equal. apply IH. intros name. rewrite !elem_of_cons, Hext. done.
Qed.

Lemma register_all_from features : forall tool,
  registry_agree tool ->
  exists tool',
    register_all features tool = (Ok tt, tool') /\
    MeasurementTool.features_ tool' =
      MeasurementTool.features_ tool ++
        surviving (feature_name <$> MeasurementTool.features_ tool) features /\
    registry_agree tool'.
Proof.
  unfold register_all.
  induction features as [|f fs IH]; intros tool Hag.
  - exists tool. by rewrite app_nil_r.
  - simpl. cbv [mbind Method_bind]. rewrite Register_cases.
    destruct (MeasurementTool.Exists tool (feature_name f)) eqn:Ex.
    + destruct (IH tool Hag) as (tool' & Hrun & Hfs & Hag').
      exists tool'. split; [done|]. split; [|done].
      apply Hag in Ex. by rewrite bool_decide_eq_true_2.
    + destruct (IH _ (registry_agree_push f tool Hag Ex)) as (tool' & Hrun & Hfs & Hag').
      exists tool'. split; [done|]. split; [|done].
      rewrite Hfs. simpl.
      assert (feature_name f ∉ (feature_name <$> MeasurementTool.features_ tool)) as Hnot.
      { intros Hin. apply Hag in Hin. congruence. }
      rewrite bool_decide_eq_false_2 by done.
      rewrite <- app_assoc. simpl. f_equal. f_equal. apply surviving_ext.
      intros name. rewrite fmap_app, elem_of_app, elem_of_cons. simpl.
      rewrite list_elem_of_singleton. tauto.
Qed.

Lemma surviving_first features : forall seen f,
  f ∈ surviving seen features ->
  (feature_name f ∉ seen) /\
  exists k, features !! k = Some f /\
    forall j g, (j < k)%nat -> features !! j = Some g -> feature_name g <> feature_name f.
Proof.
  induction features as [|h fs IH]; intros seen f; simpl; [by intros ?%elem_of_nil|].
  destruct (bool_decide (feature_name h ∈ seen)) eqn:Eh.
  - apply bool_decide_eq_true in Eh. intros Hin.
    destruct (IH _ _ Hin) as (Hnot & k & Hk & Hfirst). split; [done|].
    exists (S k). split; [done|]. intros [|j] g Hj; simpl.
    + intros [= <-] E. rewrite E in Eh. done.
    + apply Hfirst. lia.
  - apply bool_decide_eq_false in Eh. intros [->|Hin]%elem_of_cons.
    + split; [done|]. exists 0%nat. split; [done|]. intros j g Hj. lia.
    + destruct (IH _ _ Hin) as (Hnot & k & Hk & Hfirst).
      rewrite not_elem_of_cons in Hnot. destruct Hnot as [Hne Hnot]. split; [done|].
      exists (S k). split; [done|]. intros [|j] g Hj; simpl.
      * by intros [= <-].
      * apply Hfirst. lia.
Qed.

Lemma surviving_NoDup features : forall seen,
  NoDup (feature_name <$> surviving seen features).
Proof.
  induction features as [|h fs IH]; intros seen; simpl; [constructor|].
  destruct (bool_decide (feature_name h ∈ seen)); [apply IH|].
  simpl. constructor; [|apply IH].
  intros (g & Hg & Hin)%list_elem_of_fmap.
  apply surviving_first in Hin as [Hnot _]. apply Hnot. rewrite <- Hg. by left.
Qed.

Lemma surviving_sublist features : forall seen, sublist (surviving seen features) features.
Proof.
  induction features as [|h fs IH]; intros seen; simpl; [constructor|].
  destruct (bool_decide _); [by apply sublist_cons|by apply sublist_skip].
Qed.

Lemma surviving_names features : forall seen name,
  name ∈ (feature_name <$> features) -> name ∉ seen ->
  name ∈ (feature_name <$> surviving seen features).
Proof.
  induction features as [|h fs IH]; intros seen name; simpl; [done|].
  intros Hin Hnot. apply elem_of_cons in Hin.
  destruct (bool_decide (feature_name h ∈ seen)) eqn:Eh.
  - apply bool_decide_eq_true in Eh. destruct Hin as [->|Hin]; [done|]. by apply IH.
  - rewrite fmap_cons, elem_of_cons.
    destruct (decide (name = feature_name h)) as [->|Hne]; [by left|]. right.
    destruct Hin as [?|Hin]; [done|]. apply IH; [done|].
    rewrite not_elem_of_cons. done.
Qed.


(** C6: registering a feature whose name is already registered returns and
    leaves the registry as it was, the argument being dropped; after any
    sequence of [Register] calls on a fresh registry the registry holds, in
    registration order, the first instance of every name, and [Features()]
    is their information records: one per distinct name, every registered
    name among them. *)
Theorem Register_spec :
  (forall tool feature,
     MeasurementTool.Exists tool (feature_name feature) = true ->
     MeasurementTool.Register feature tool = (Ok tt, tool)) /\
  (forall features,
     exists tool,
       register_all features MeasurementTool.empty = (Ok tt, tool) /\
       MeasurementTool.features_ tool = surviving [] features /\
       MeasurementTool.Features tool =
         Feature.Base.information <$> surviving [] features /\
       NoDup (Feature.Information.name <$> MeasurementTool.Features tool) /\
       (forall name,
          name ∈ (feature_name <$> features) <->
          name ∈ (Feature.Information.name <$> MeasurementTool.Features tool)) /\
       sublist (surviving [] features) features /\
       (forall f, f ∈ surviving [] features ->
          exists k, features !! k = Some f /\
            forall j g, (j < k)%nat -> features !! j = Some g ->
                        feature_name g <> feature_name f)).
Proof.
  split.
  - intros tool feature Hex. by rewrite Register_cases, Hex.
  - intros features.
    destruct (register_all_from features _ registry_agree_empty) as (tool & Hrun & Hfs & _).
    simpl in Hfs. exists tool. rewrite Features_fmap, Hfs, <- list_fmap_compose.
    split; [done|]. split; [done|]. split; [done|].
    split; [apply surviving_NoDup|]. split; [|split].
    + intros name. split.
      * intros Hin. apply surviving_names; [done|]. apply not_elem_of_nil.
      * intros Hin. eapply elem_of_sublist; [exact Hin|].
        apply fmap_sublist, surviving_sublist.
    + apply surviving_sublist.
    + intros f Hin. by apply surviving_first in Hin as [_ ?].
Qed.

(** ** The mass accumulator *)

Section Accumulator.

Variable objectIndices : FeatureMass.ObjectIdToIndexMap.

Lemma accumulate_length acc p :
  length (accumulate objectIndices acc p) = length acc.
Proof.
  unfold accumulate. destruct (0 <? p.1); [|done].
  destruct (objectIndices !! p.1); [|done].
  destruct (acc !! _); [|done]. by rewrite length_insert.
Qed.

Lemma foldl_accumulate_length ps : forall acc,
  length (foldl (accumulate objectIndices) acc ps) = length acc.
Proof.
  induction ps as [|p ps IH]; intros acc; simpl; [done|].
  by rewrite IH, accumulate_length.
Qed.

Lemma ScanLine_body_spec pixel g grey self objectID data :
  (forall id row, objectIndices !! id = Some row ->
     row < Word.size (FeatureMass.data_ self)) ->
  cached objectIndices objectID data ->
  exists objectID' data',
    FeatureMass.ScanLine_body pixel (g :: grey) objectIndices objectID data self =
    (Ok (objectID', data'),
     FeatureMass.set_data_ (fun acc => accumulate objectIndices acc (pixel, g)) self) /\
    cached objectIndices objectID' data'.
Proof.
  intros Hrange Hc. unfold FeatureMass.ScanLine_body, accumulate. simpl fst. simpl snd.
  destruct (0 <? pixel) eqn:Hpos.
  2:{ exists objectID, data. split; [|done]. by destruct self. }
  apply N.ltb_lt in Hpos.
  assert (Hcp : cached objectIndices pixel (objectIndices !! pixel)).
  { unfold cached. by rewrite (proj2 (N.eqb_neq pixel 0)) by lia. }
  assert (Hat : forall row, objectIndices !! pixel = Some row ->
            exists current, FeatureMass.data_ self !! N.to_nat row = Some current).
  { intros row Hrow. apply Hrange in Hrow.
    destruct (FeatureMass.data_ self !! N.to_nat row) eqn:E; [by eexists|].
    apply lookup_ge_None in E. unfold Word.size in Hrow. lia. }
  exists pixel, (objectIndices !! pixel). split; [|done].
  destruct (pixel =? objectID) eqn:Heq; simpl negb; cbv iota.
  - apply N.eqb_eq in Heq. subst objectID. unfold cached in Hc.
    rewrite (proj2 (N.eqb_neq pixel 0)) in Hc by lia. subst data.
    cbv [mbind Method_bind call modify mret Method_ret FeatureMass.deref]; simpl.
    destruct (objectIndices !! pixel) as [row|] eqn:Hrow; [|by destruct self].
    destruct (Hat row eq_refl) as [current Hcur].
    unfold vector_at. rewrite Hcur.
      destruct self. unfold FeatureMass.set_data_. simpl in *. by rewrite Hcur.
  - cbv zeta.
    destruct (objectIndices !! pixel) as [row|] eqn:Hrow.
    + destruct (Hat row eq_refl) as [current Hcur].
      cbv [mbind Method_bind call modify mret Method_ret FeatureMass.deref]; simpl.
      unfold vector_at. rewrite Hcur.
      destruct self. unfold FeatureMass.set_data_. simpl in *. by rewrite Hcur.
    + cbv [mbind Method_bind call modify mret Method_ret FeatureMass.deref]; simpl.
      by destruct self.
Qed.

Lemma ScanLine_loop_spec : forall label grey self objectID data,
  label <> [] ->
  length label = length grey ->
  (forall id row, objectIndices !! id = Some row ->
     row < Word.size (FeatureMass.data_ self)) ->
  cached objectIndices objectID data ->
  FeatureMass.ScanLine_loop label grey objectIndices objectID data self =
  (Ok tt,
   FeatureMass.set_data_
     (fun acc => foldl (accumulate objectIndices) acc (zip label grey)) self).
Proof.
  induction label as [|pixel label IH]; intros grey self objectID data Hne Hlen Hrange Hc;
    [done|].
  destruct grey as [|g grey]; [done|]. simpl in Hlen. injection Hlen as Hlen.
  destruct (ScanLine_body_spec pixel g grey self objectID data Hrange Hc)
    as (objectID' & data' & Hbody & Hc').
  cbn [FeatureMass.ScanLine_loop]. cbv [mbind Method_bind]. rewrite Hbody.
  destruct label as [|pixel' label].
  - destruct grey; [|done]. by destruct self.
  - cbn [tail fst snd]. rewrite IH; try done.
    intros id row Hrow. apply Hrange in Hrow. destruct self; simpl in *.
    unfold Word.size in *. by rewrite accumulate_length.
Qed.

Lemma scan_spec lines : forall self,
  (forall line, line ∈ lines -> line.1 <> [] /\ length line.1 = length line.2) ->
  (forall id row, objectIndices !! id = Some row ->
     row < Word.size (FeatureMass.data_ self)) ->
  scan lines objectIndices self =
  (Ok tt,
   FeatureMass.set_data_
     (fun acc => foldl (accumulate objectIndices) acc (pixels lines)) self).
Proof.
  unfold scan, pixels.
  induction lines as [|line lines IH]; intros self Hlines Hrange.
  - by destruct self.
  - destruct (Hlines line ltac:(left)) as [Hne Hlen].
    simpl. cbv [mbind Method_bind]. unfold FeatureMass.ScanLine.
    rewrite ScanLine_loop_spec; try done.
    fold (@mbind list _ _ _ (fun line : scanline => zip line.1 line.2) lines).
    rewrite IH.
    + destruct self. unfold FeatureMass.set_data_. simpl. by rewrite foldl_app.
    + intros l Hl. apply Hlines. by right.
    + intros id row Hrow. apply Hrange in Hrow. destruct self; simpl in *.
      unfold Word.size in *. by rewrite foldl_accumulate_length.
Qed.

Lemma accumulate_lookup ps : forall acc row x,
  acc !! N.to_nat row = Some x ->
  foldl (accumulate objectIndices) acc ps !! N.to_nat row =
  Some (fold_left PrimFloat.add (accumulated objectIndices row ps).*2 x).
Proof.
  unfold accumulated.
  induction ps as [|p ps IH]; intros acc row x Hx; simpl; [done|].
  rewrite filter_cons. unfold accumulate at 2.
  destruct (decide (0 < p.1 /\ objectIndices !! p.1 = Some row)) as [[Hpos Hrow]|Hno].
  - rewrite (proj2 (N.ltb_lt _ _) Hpos), Hrow, Hx. simpl.
    apply IH. apply list_lookup_insert_eq. by eapply lookup_lt_Some.
  - apply IH. destruct (0 <? p.1) eqn:Hpos; [|done].
    apply N.ltb_lt in Hpos.
    destruct (objectIndices !! p.1) as [row'|] eqn:Hrow; [|done].
    destruct (acc !! N.to_nat row') eqn:E; [|done].
    rewrite list_lookup_insert_ne; [done|].
    intros Heq. apply Hno. split; [done|]. f_equal. lia.
Qed.

End Accumulator.

(** C7: after [Initialize] for [nObjects] rows and the presentation of all
    scanlines to [ScanLine], the accumulator of every row is the sum, in the
    order the pixels are presented and starting from zero, of the grey
    values of the pixels whose label is positive and is mapped to that row;
    a pixel with label 0 or with a label the map does not know is in no such
    sum.  For an injective map and an object identifier (positive) these
    are exactly the pixels whose label is the identifier, and [Finish]
    writes their sum through [output]: when [output] points into the
    buffer of a table, the call returns, the value read there afterwards
    is that sum, and the other values and the schema of the table are as
    before. *)
Theorem Mass_spec (label grey : FeatureMass.Image) (lines : list scanline)
    (objectIndices : FeatureMass.ObjectIdToIndexMap) (nObjects : Word.uint)
    (self : FeatureMass.t) :
  FeatureMass.IsScalar grey = true ->
  (forall line, line ∈ lines -> line.1 <> [] /\ length line.1 = length line.2) ->
  (forall id row, objectIndices !! id = Some row -> row < nObjects) ->
  (forall id1 id2 row,
     objectIndices !! id1 = Some row -> objectIndices !! id2 = Some row -> id1 = id2) ->
  exists self',
    (FeatureMass.Initialize label grey nObjects ;; scan lines objectIndices) self
      = (Ok tt, self') /\
    Word.size (FeatureMass.data_ self') = nObjects /\
    (forall row, row < nObjects ->
       vector_at (FeatureMass.data_ self') row =
         Ok (sum_grey (accumulated objectIndices row (pixels lines)))) /\
    (forall row p, p ∈ accumulated objectIndices row (pixels lines) ->
       p.1 <> 0 /\ objectIndices !! p.1 = Some row) /\
    (forall objectID row,
       0 < objectID -> objectIndices !! objectID = Some row ->
       accumulated objectIndices row (pixels lines) =
         filter (fun p => p.1 = objectID) (pixels lines) /\
       (forall output table,
          FeatureMass.Finish self' row output table =
          Measurement.store output (mass_of objectID (pixels lines)) table) /\
       forall output table,
         output < Word.size (Measurement.data_ table) ->
         exists table',
           FeatureMass.Finish self' row output table = (Ok tt, table') /\
           Measurement.load table' output = Ok (mass_of objectID (pixels lines)) /\
           (forall p, p <> output ->
              Measurement.load table' p = Measurement.load table p) /\
           schema table' = schema table).
Proof.
  intros Hscalar Hlines Hrange Hinj.
  set (zeros := replicate (N.to_nat nObjects) 0%float).
  set (self0 := FeatureMass.mk (FeatureMass.Dimensionality label) zeros).
  assert (Hinit : FeatureMass.Initialize label grey nObjects self =
                  (Ok [Feature.ValueInformation.mk "Mass" ""], self0)).
  { unfold FeatureMass.Initialize.
    cbv [mbind Method_bind DIP_THROW_IF modify mret Method_ret]. rewrite Hscalar.
    unfold FeatureMass.set_data_. simpl. by rewrite resize_nil. }
  assert (Hsize : Word.size zeros = nObjects).
  { unfold Word.size, zeros. rewrite length_replicate. lia. }
  eexists. split.
  { cbv [mbind Method_bind]. rewrite Hinit. apply scan_spec; [done|].
    intros id row Hrow. simpl. rewrite Hsize. by eapply Hrange. }
  simpl FeatureMass.data_.
  assert (Hacc : forall row, row < nObjects ->
            vector_at (foldl (accumulate objectIndices) zeros (pixels lines)) row =
            Ok (sum_grey (accumulated objectIndices row (pixels lines)))).
  { intros row Hrow. apply vector_at_Ok. apply accumulate_lookup.
    apply lookup_replicate. split; [done|lia]. }
  assert (Hfilter : forall objectID row,
            0 < objectID -> objectIndices !! objectID = Some row ->
            accumulated objectIndices row (pixels lines) =
            filter (fun p => p.1 = objectID) (pixels lines)).
  { intros objectID row Hpos Hrow. unfold accumulated. apply list_filter_iff.
    intros p. split.
    - intros [_ Hp]. by eapply Hinj.
    - intros ->. done. }
  split; [|split; [|split]].
  - unfold Word.size. rewrite foldl_accumulate_length. exact Hsize.
  - exact Hacc.
  - intros row p [[Hpos Hrow] _]%list_elem_of_filter. split; [lia|done].
  - intros objectID row Hpos Hrow. split; [by apply Hfilter|].
    assert (Hfinish : forall output table,
              FeatureMass.Finish
                (FeatureMass.set_data_
                   (fun acc => foldl (accumulate objectIndices) acc (pixels lines)) self0)
                row output table =
              Measurement.store output (mass_of objectID (pixels lines)) table).
    { intros output table. unfold FeatureMass.Finish.
      cbv [mbind Method_bind call]. simpl FeatureMass.data_.
      rewrite (Hacc row (Hrange _ _ Hrow)). unfold mass_of.
      by rewrite (Hfilter objectID row). }
    split; [exact Hfinish|].
    intros output table Hin. rewrite Hfinish, store_cases.
    rewrite (proj2 (N.ltb_lt _ _) Hin). eexists. split; [reflexivity|].
    unfold Word.size in Hin. split; [|split].
    + unfold Measurement.load. apply vector_at_Ok. destruct table; simpl in *.
      apply list_lookup_insert_eq. lia.
    + intros p Hp. unfold Measurement.load, vector_at. destruct table; simpl in *.
      rewrite list_lookup_insert_ne; [done|]. lia.
    + by destruct table.
Qed.

(** * Worked examples *)

Lemma example_unforged_reachable : reachable example_unforged.
Proof.
  apply (run_reachable example_schema Measurement.empty); [apply reachable_empty|].
  vm_compute. reflexivity.
Qed.

Lemma example_table_reachable : reachable example_table.
Proof.
  apply (run_reachable example_ops Measurement.empty); [apply reachable_empty|].
  vm_compute. reflexivity.
Qed.

(** The second value of "Feret" for object 3, by both routes: element 5 of
    the buffer, which holds 2.5. *)
Lemma view_duality_witness :
  reachable example_table /\
  Measurement.IsForged example_table = true /\
  Measurement.feature_route example_table "Feret" 3 1 = Ok 5 /\
  Measurement.object_route example_table 3 "Feret" 1 = Ok 5 /\
  Measurement.load example_table 5 = Ok 2.5%float.
Proof.
  split; [exact example_table_reachable|]. split; [reflexivity|].
  destruct (view_duality example_table 3 "Feret" 1 2)
    as (row & startColumn & stride & address & Hrow & Hcol & Hstride & Hf & Ho & Ha & _ & _).
  - exact example_table_reachable.
  - reflexivity.
  - reflexivity.
  - reflexivity.
  - reflexivity.
  - injection Hrow as <-. injection Hcol as <-. injection Hstride as <-.
    rewrite Hf, Ho, Ha. split; [reflexivity|]. split; reflexivity.
Defined.






Lemma Stride_layout_witness :
  run example_ops Measurement.empty = (Ok tt, example_table) /\
  Measurement.Stride example_table = Ok 3%Z /\
  Word.size (Measurement.Values example_table) = 3 /\
  tiles (Measurement.Features example_table) 0 3.
Proof.
  assert (Hrun : run example_ops Measurement.empty = (Ok tt, example_table))
    by (vm_compute; reflexivity).
  split; [exact Hrun|].
  destruct (Stride_layout example_ops example_table Hrun) as (Hstride & Hsum & Htiles & _).
  split; [exact Hstride|]. split; [by rewrite <- Hsum|exact Htiles].
Defined.

Lemma Register_spec_witness :
  exists tool,
    register_all example_features MeasurementTool.empty = (Ok tt, tool) /\
    MeasurementTool.Features tool =
      [ Feature.Information.mk "Size" "Number of object pixels" false;
        FeatureMass.information ].
Proof.
  destruct Register_spec as [_ Hall].
  destruct (Hall example_features) as (tool & Hrun & _ & Hfeatures & _).
  exists tool. split; [exact Hrun|exact Hfeatures].
Defined.

Lemma example_lines_ok :
  forall line, line ∈ example_lines -> line.1 <> [] /\ length line.1 = length line.2.
Proof. apply Forall_forall. repeat constructor; done. Qed.

Lemma example_indices_lookup id row :
  example_indices !! id = Some row <-> (id = 1 /\ row = 0) \/ (id = 2 /\ row = 1).
Proof.
  unfold example_indices. rewrite !lookup_insert_Some, lookup_empty. split.
  - intros [[<- <-]|[? [[<- <-]|[? ?]]]]; [by left|by right|done].
  - intros [[-> ->]|[-> ->]]; [by left|]. right. split; [done|]. by left.
Qed.

(** The second scenario of the design: objects 1 and 2 weigh 12 and 16. *)
Lemma Mass_spec_witness :
  exists self',
    (FeatureMass.Initialize (FeatureMass.mkImage true 2) (FeatureMass.mkImage true 2) 2 ;;
     scan example_lines example_indices) (FeatureMass.mk 0 []) = (Ok tt, self') /\
    vector_at (FeatureMass.data_ self') 0 = Ok 12%float /\
    vector_at (FeatureMass.data_ self') 1 = Ok 16%float /\
    mass_of 1 (pixels example_lines) = 12%float /\
    mass_of 2 (pixels example_lines) = 16%float /\
    (exists table',
       FeatureMass.Finish self' 0 0 example_table = (Ok tt, table') /\
       Measurement.load table' 0 = Ok 12%float /\
       Measurement.load table' 5 = Ok 2.5%float) /\
    (exists table',
       FeatureMass.Finish self' 1 3 example_table = (Ok tt, table') /\
       Measurement.load table' 3 = Ok 16%float).
Proof.
  destruct (Mass_spec (FeatureMass.mkImage true 2) (FeatureMass.mkImage true 2)
              example_lines example_indices 2 (FeatureMass.mk 0 []))
    as (self' & Hrun & _ & Hacc & _ & Hfinish).
  - reflexivity.
  - exact example_lines_ok.
  - intros id row [[_ ->]|[_ ->]]%example_indices_lookup; reflexivity.
  - intros id1 id2 row [[-> ->]|[-> ->]]%example_indices_lookup
      [[-> ?]|[-> ?]]%example_indices_lookup; done.
  - exists self'. split; [exact Hrun|].
    split; [exact (Hacc 0 eq_refl)|]. split; [exact (Hacc 1 eq_refl)|].
    split; [reflexivity|]. split; [reflexivity|]. split.
    + destruct (Hfinish 1 0) as (_ & _ & Hwrite); [reflexivity| |].
      { apply example_indices_lookup. left. split; reflexivity. }
      destruct (Hwrite 0 example_table eq_refl) as (table' & Hcall & Hread & Hrest & _).
      exists table'. split; [exact Hcall|]. split; [exact Hread|].
      rewrite Hrest by discriminate. reflexivity.
    + destruct (Hfinish 2 1) as (_ & _ & Hwrite); [reflexivity| |].
      { apply example_indices_lookup. right. split; reflexivity. }
      destruct (Hwrite 3 example_table eq_refl) as (table' & Hcall & Hread & _).
      exists table'. split; [exact Hcall|exact Hread].
Defined.

Lemma AddObjectIDs_spec_witness :
  reachable example_unforged /\
  (exists x m', Measurement.AddObjectIDs [5; 7] example_unforged
                  = (Throw (ObjectPresent x), m')) /\
  let m' := (Measurement.AddObjectIDs [5; 9] example_unforged).2 in
  Measurement.Objects m' = [7; 3; 5; 9] /\
  Measurement.ObjectIndex m' 9 = Ok 3.
Proof.
  split; [exact example_unforged_reachable|].
  destruct (AddObjectIDs_spec [5; 7] example_unforged example_unforged_reachable)
    as (_ & Hthrow & _).
  split; [apply Hthrow; [reflexivity|]; exists 7; split; [|reflexivity]; set_solver|].
  destruct (AddObjectIDs_spec [5; 9] example_unforged example_unforged_reachable)
    as (_ & _ & Hok).
  destruct (Hok (Measurement.AddObjectIDs [5; 9] example_unforged).2)
    as (Hobjects & Hindex & _); [vm_compute; reflexivity|].
  split; [exact Hobjects|]. exact (Hindex 1%nat 9 eq_refl).
Defined.

Lemma AddObjectIDs_not_atomic_witness :
  reachable example_unforged /\
  Measurement.IsForged example_unforged = false /\
  (exists m',
     Measurement.AddObjectIDs [5; 5; 9] example_unforged = (Throw (ObjectPresent 5), m') /\
     Measurement.ObjectExists m' 5 = true /\
     Measurement.Objects m' = [7; 3; 5]) /\
  (exists added x rest,
     [5; 9; 7; 4] = added ++ x :: rest /\
     ObjectPresent 7 = ObjectPresent x /\
     forall objectID, objectID ∈ added ->
       Measurement.ObjectExists example_unforged objectID = false /\
       Measurement.ObjectExists
         (Measurement.AddObjectIDs [5; 9; 7; 4] example_unforged).2 objectID = true).
Proof.
  split; [exact example_unforged_reachable|]. split; [reflexivity|].
  destruct (AddObjectIDs_not_atomic example_unforged example_unforged_reachable eq_refl)
    as (Hany & Htwice).
  split; [exact (Htwice 5 [9] eq_refl)|].
  destruct (Hany [5; 9; 7; 4] (ObjectPresent 7)
              (Measurement.AddObjectIDs [5; 9; 7; 4] example_unforged).2)
    as (added & x & rest & Hsplit & He & _ & _ & Hadded); [vm_compute; reflexivity|].
  exists added, x, rest. split; [exact Hsplit|]. split; [exact He|exact Hadded].
Defined.

Lemma EnsureFeature_spec_witness :
  reachable example_unforged /\
  Measurement.IsForged example_unforged = false /\
  Measurement.EnsureFeature "Size" [] example_unforged = (Ok tt, example_unforged) /\
  Measurement.EnsureFeature "Mass" [] example_unforged =
    Measurement.AddFeature "Mass" [] example_unforged /\
  exists e, Measurement.EnsureFeature "Mass" [] example_unforged
              = (Throw e, example_unforged) /\
            kind e = InvalidArgument.
Proof.
  split; [exact example_unforged_reachable|]. split; [reflexivity|].
  destruct (EnsureFeature_spec example_unforged "Size" example_unforged_reachable eq_refl)
    as (Hpresent & _).
  split; [exact (Hpresent eq_refl [])|].
  destruct (EnsureFeature_spec example_unforged "Mass" example_unforged_reachable eq_refl)
    as (_ & Habsent).
  exact (Habsent eq_refl).
Defined.

(** * Further properties of the table *)

(** ** Forging is final *)

Lemma AddObjectIDs_keeps_columns objectIDs : forall m r m',
  Measurement.AddObjectIDs objectIDs m = (r, m') -> columns m' = columns m.
Proof.
  intros m r m'. rewrite AddObjectIDs_cases.
  destruct (Measurement.IsForged m); [by intros [= _ <-]|].
  revert m. induction objectIDs as [|x ids IH]; intros m; simpl.
  - by intros [= _ <-].
  - cbv [mbind Method_bind]. rewrite AddObjectIDs_body_cases.
    destruct (Measurement.ObjectExists m x); [by intros [= _ <-]|].
    intros Hrun. rewrite (IH _ Hrun). by destruct m.
Qed.

Lemma exec_forged op m r m' :
  Measurement.IsForged m = true ->
  exec op m = (r, m') ->
  Measurement.IsForged m' = true /\ schema m' = schema m /\
  Word.size (Measurement.data_ m') = Word.size (Measurement.data_ m).
Proof.
  intros Hf. destruct op as [name values|name values|objectIDs| |p x]; simpl.
  - rewrite AddFeature_cases, Hf. intros [= _ <-]. done.
  - rewrite EnsureFeature_cases, Hf. intros [= _ <-]. done.
  - rewrite AddObjectIDs_cases, Hf. intros [= _ <-]. done.
  - rewrite Forge_cases, Hf. intros [= _ <-]. done.
  - rewrite store_cases. destruct (p <? _) eqn:Hp; intros [= _ <-]; [|done].
    destruct m as [os oi fs vs fi d]. unfold Measurement.IsForged in *. simpl in *.
    split_and!; try done.
    + destruct d; [done|]. by destruct (N.to_nat p).
    + unfold Word.size. by rewrite length_insert.
Qed.

(** X1: once a table is forged, [AddFeature], [EnsureFeature] (even for a
    name that is present) and [AddObjectIDs] throw "Measurement object is
    forged." and change nothing, and after any sequence of calls and cell
    writes whatever the table is still forged, has the same schema and a
    buffer of the same size. *)
Theorem forged_is_final (m : Measurement.t) :
  Measurement.IsForged m = true ->
  (forall name values,
     Measurement.AddFeature name values m = (Throw MeasurementForged, m) /\
     Measurement.EnsureFeature name values m = (Throw MeasurementForged, m)) /\
  (forall objectIDs,
     Measurement.AddObjectIDs objectIDs m = (Throw MeasurementForged, m)) /\
  (forall ops r m',
     run ops m = (r, m') ->
     Measurement.IsForged m' = true /\ schema m' = schema m /\
     Word.size (Measurement.data_ m') = Word.size (Measurement.data_ m)).
Proof.
  intros Hf. split; [|split].
  - intros name values. by rewrite AddFeature_guards, EnsureFeature_guards, Hf.
  - intros ids. by rewrite AddObjectIDs_cases, Hf.
  - intros ops. revert m Hf. induction ops as [|op ops IH]; intros m Hf r m'; simpl.
    + by intros [= _ <-].
    + cbv [mbind Method_bind].
      destruct (exec op m) as [o m1] eqn:Hop.
      destruct (exec_forged op m o m1 Hf Hop) as (Hf1 & Hs1 & Hd1).
      destruct o as [[]|e|].
      * intros Hrun. destruct (IH m1 Hf1 r m' Hrun) as (? & ? & ?).
        split; [done|]. split; congruence.
      * by intros [= _ <-].
      * by intros [= _ <-].
Qed.

(** X2: on a table that is not forged no call but a [Forge()] that returns
    forges it: [AddFeature], [EnsureFeature], [AddObjectIDs] and a [Forge()]
    that throws leave the buffer empty, whatever their outcome, and a write
    through a [ValueIterator] has no defined behaviour and writes nothing. *)
Theorem only_Forge_forges (m : Measurement.t) (op : Op) (r : Outcome unit)
    (m' : Measurement.t) :
  Measurement.IsForged m = false ->
  exec op m = (r, m') ->
  (Measurement.IsForged m' = true -> op = OpForge /\ r = Ok tt) /\
  (forall p x, op = OpStore p x -> r = Undefined /\ m' = m).
Proof.
  intros Hf. pose proof Hf as Hd. apply IsForged_false in Hd.
  destruct op as [name values|name values|objectIDs| |p x]; simpl.
  - rewrite AddFeature_cases, Hf.
    destruct (bool_decide _); [intros [= _ <-]; split; [congruence|done]|].
    destruct (Measurement.FeatureExists _ _); [intros [= _ <-]; split; [congruence|done]|].
    destruct (Measurement.vector_empty _); [intros [= _ <-]; split; [congruence|done]|].
    rewrite AddFeature__returns. intros [= _ <-]. split; [|done].
    unfold Measurement.IsForged. simpl. by rewrite Hd.
  - rewrite EnsureFeature_cases, Hf.
    destruct (bool_decide _); [intros [= _ <-]; split; [congruence|done]|].
    destruct (Measurement.FeatureExists _ _); [intros [= _ <-]; split; [congruence|done]|].
    destruct (Measurement.vector_empty _); [intros [= _ <-]; split; [congruence|done]|].
    rewrite AddFeature__returns. intros [= _ <-]. split; [|done].
    unfold Measurement.IsForged. simpl. by rewrite Hd.
  - intros Hrun. apply AddObjectIDs_keeps_columns in Hrun.
    unfold columns in Hrun. injection Hrun as _ _ _ Hdata. split; [|done].
    unfold Measurement.IsForged. by rewrite Hdata, Hd.
  - rewrite Forge_cases, Hf. simpl. destruct (_ =? 0).
    + intros [= _ <-]. split; [congruence|done].
    + intros [= <- _]. done.
  - rewrite store_cases, Hd.
    destruct (p <? Word.size []) eqn:Hp; [apply N.ltb_lt in Hp; by destruct p|].
    intros [= <- <-]. split; [congruence|]. done.
Qed.

(** ** Lookups *)

Lemma Values_loop (source : Feature.ValueInformationArray) (start : N) :
  forall (todo copied rest : Feature.ValueInformationArray),
    length rest = length todo ->
    (forall j x, todo !! j = Some x ->
       source !! (j + length copied + N.to_nat start)%nat = Some x) ->
    for_range (Word.size copied) (length todo) (fun ii =>
        x ← call (fun _ => vector_at source (ii + start));
        assigned ← call (fun values => vector_assign values ii x);
        modify (fun _ => assigned)) (copied ++ rest)
    = (Ok tt, copied ++ todo).
Proof.
  set (body := fun ii : Word.uint => _).
  induction todo as [|x todo IH]; intros copied rest Hlen Hsrc.
  - by destruct rest.
  - destruct rest as [|r rest]; [done|]. simpl in Hlen.
    assert (Hstep : body (Word.size copied) (copied ++ r :: rest) =
                    (Ok tt, (copied ++ [x]) ++ rest)).
    { unfold body. run_method.
      assert (vector_at source (Word.size copied + start) = Ok x) as ->.
      { apply vector_at_Ok. rewrite <- (Hsrc 0%nat x eq_refl). f_equal.
        unfold Word.size. lia. }
      unfold vector_assign.
      assert ((Word.size copied <? Word.size (copied ++ r :: rest)) = true) as ->.
      { apply N.ltb_lt. rewrite size_app. unfold Word.size. simpl. lia. }
      unfold Word.size at 1. rewrite Nat2N.id.
      rewrite insert_app_r_alt by lia. rewrite Nat.sub_diag. simpl.
      by rewrite <- app_assoc. }
    simpl for_range. cbv [mbind Method_bind]. rewrite Hstep.
    replace (Word.size copied + 1) with (Word.size (copied ++ [x]))
      by (rewrite size_app; reflexivity).
    rewrite (IH (copied ++ [x]) rest).
    + by rewrite <- app_assoc.
    + lia.
    + intros j y Hj. rewrite <- (Hsrc (S j) y Hj). f_equal.
      rewrite length_app. simpl. lia.
Qed.

Lemma Values_of_slice m name index f :
  Measurement.FeatureIndex m name = Ok index ->
  Measurement.features_ m !! N.to_nat index = Some f ->
  Measurement.FeatureInfo.startColumn f + Measurement.FeatureInfo.numberValues f
    <= Word.size (Measurement.values_ m) ->
  Measurement.Values_of m name =
    Ok (take (N.to_nat (Measurement.FeatureInfo.numberValues f))
          (drop (N.to_nat (Measurement.FeatureInfo.startColumn f))
             (Measurement.values_ m))).
Proof.
  intros Hindex Hf Hle. unfold Measurement.Values_of. rewrite Hindex. simpl.
  apply vector_at_Ok in Hf. rewrite Hf. simpl.
  set (n := N.to_nat (Measurement.FeatureInfo.numberValues f)).
  set (start := Measurement.FeatureInfo.startColumn f) in *.
  set (slice := take n (drop (N.to_nat start) (Measurement.values_ m))).
  assert (Hlen : length slice = n).
  { unfold slice. rewrite length_take, length_drop. unfold Word.size in Hle. lia. }
  pose proof (Values_loop (Measurement.values_ m) start slice []
                (replicate n Feature.ValueInformation.default)) as Hloop.
  simpl in Hloop. change (Word.size []) with 0 in Hloop.
  rewrite Hlen in Hloop. rewrite Hloop; [done|by rewrite length_replicate|].
  intros j x Hj. unfold slice in Hj. apply lookup_take_Some in Hj as [Hj _].
  rewrite lookup_drop in Hj. rewrite <- Hj. f_equal. lia.
Qed.

Lemma invariant_feature m name index :
  invariant m ->
  Measurement.featureIndices_ m !! name = Some index ->
  exists f,
    Measurement.features_ m !! N.to_nat index = Some f /\
    Measurement.FeatureInfo.name f = name /\
    0 < Measurement.FeatureInfo.numberValues f /\
    Measurement.FeatureInfo.startColumn f + Measurement.FeatureInfo.numberValues f
      <= Word.size (Measurement.values_ m).
Proof.
  intros Hinv Hindex. apply (inv_features m Hinv) in Hindex as (f & Hf & Hname).
  exists f. split; [done|]. split; [done|]. split.
  - eapply (inv_nonempty m Hinv). by eapply list_elem_of_lookup_2.
  - by destruct (tiles_lookup _ _ _ _ _ (inv_tiles m Hinv) Hf).
Qed.

Lemma invariant_names_NoDup m :
  invariant m -> NoDup (Measurement.FeatureInfo.name <$> Measurement.features_ m).
Proof.
  intros Hinv. apply NoDup_alt. intros i j name Hi Hj.
  apply list_lookup_fmap_Some in Hi as (f & -> & Hfi).
  apply list_lookup_fmap_Some in Hj as (g & Hname & Hgj).
  assert (Measurement.featureIndices_ m !! Measurement.FeatureInfo.name f
            = Some (N.of_nat i)) as Ei.
  { apply (inv_features m Hinv). exists f. by rewrite Nat2N.id. }
  assert (Measurement.featureIndices_ m !! Measurement.FeatureInfo.name f
            = Some (N.of_nat j)) as Ej.
  { apply (inv_features m Hinv). exists g. by rewrite Nat2N.id. }
  rewrite Ei in Ej. injection Ej. lia.
Qed.

(** X3: on a reachable table, a name for which [FeatureExists] is false
    makes [FeatureIndex], [ValueIndex], [NumberOfValues( name )],
    [Values( name )] and [operator[]( name )] throw "Feature not present";
    a name for which it is true is the name of exactly one entry of
    [Features()], at the index [FeatureIndex] returns, and the other four
    return that entry's [startColumn], its [numberValues] and the
    [numberValues] records of [Values()] from [startColumn] on, without any
    access out of range.  No two entries of [Features()] share a name. *)
Theorem feature_lookups (m : Measurement.t) (name : string) :
  reachable m ->
  (Measurement.FeatureExists m name = false ->
     Measurement.FeatureIndex m name = Throw (FeatureNotPresent name) /\
     Measurement.ValueIndex m name = Throw (FeatureNotPresent name) /\
     Measurement.NumberOfValues_of m name = Throw (FeatureNotPresent name) /\
     Measurement.Values_of m name = Throw (FeatureNotPresent name) /\
     Measurement.subscript_feature m name = Throw (FeatureNotPresent name)) /\
  (Measurement.FeatureExists m name = true ->
     exists index f,
       Measurement.FeatureIndex m name = Ok index /\
       index < Measurement.NumberOfFeatures m /\
       Measurement.Features m !! N.to_nat index = Some f /\
       Measurement.FeatureInfo.name f = name /\
       Measurement.ValueIndex m name = Ok (Measurement.FeatureInfo.startColumn f) /\
       Measurement.NumberOfValues_of m name = Ok (Measurement.FeatureInfo.numberValues f) /\
       (exists values,
          Measurement.Values_of m name = Ok values /\
          Word.size values = Measurement.FeatureInfo.numberValues f /\
          forall k, values !! k =
            if decide (k < length values)%nat
            then Measurement.Values m
                   !! (N.to_nat (Measurement.FeatureInfo.startColumn f) + k)%nat
            else None)) /\
  (forall index f,
     Measurement.Features m !! N.to_nat index = Some f ->
     Measurement.FeatureIndex m (Measurement.FeatureInfo.name f) = Ok index) /\
  NoDup (Measurement.FeatureInfo.name <$> Measurement.Features m).
Proof.
  intros Hreach. apply reachable_invariant in Hreach.
  unfold Measurement.Features, Measurement.Values, Measurement.NumberOfFeatures.
  split; [|split; [|split]].
  - intros Hno%FeatureExists_false.
    unfold Measurement.ValueIndex, Measurement.NumberOfValues_of, Measurement.Values_of,
      Measurement.subscript_feature, Measurement.FeatureIndex.
    by rewrite Hno.
  - intros [index Hindex]%FeatureExists_true.
    destruct (invariant_feature m name index Hreach Hindex) as (f & Hf & Hname & Hpos & Hle).
    assert (Hix : Measurement.FeatureIndex m name = Ok index)
      by (unfold Measurement.FeatureIndex; by rewrite Hindex).
    exists index, f. split; [done|]. split.
    { apply lookup_lt_Some in Hf. unfold Word.size. lia. }
    split; [done|]. split; [done|].
    unfold Measurement.ValueIndex, Measurement.NumberOfValues_of. rewrite Hix. simpl.
    rewrite (proj2 (vector_at_Ok _ _ _) Hf). simpl. split; [done|]. split; [done|].
    eexists. split; [by eapply Values_of_slice|].
    assert (Hlen : length (take (N.to_nat (Measurement.FeatureInfo.numberValues f))
                     (drop (N.to_nat (Measurement.FeatureInfo.startColumn f))
                        (Measurement.values_ m)))
                   = N.to_nat (Measurement.FeatureInfo.numberValues f)).
    { rewrite length_take, length_drop. unfold Word.size in Hle. lia. }
    split; [unfold Word.size; rewrite Hlen; lia|].
    intros k. rewrite Hlen. case_decide as Hk.
    + by rewrite lookup_take_lt, lookup_drop by done.
    + apply lookup_ge_None. rewrite Hlen. lia.
  - intros index f Hf. unfold Measurement.FeatureIndex.
    assert (Measurement.featureIndices_ m !! Measurement.FeatureInfo.name f = Some index)
      as -> by (apply (inv_features m Hreach); by exists f).
    done.
  - by apply invariant_names_NoDup.
Qed.

(** X4: on a reachable table [ObjectIndex] and [Objects()] are inverse to
    each other: [ObjectIndex( id )] returns [row] exactly when [Objects()]
    holds [id] at [row]; it throws "Object not present", and so does
    [operator[]( id )], exactly when [ObjectExists( id )] is false; and no
    identifier is in [Objects()] twice. *)
Theorem object_lookups (m : Measurement.t) (objectID : Word.uint) :
  reachable m ->
  (forall row,
     Measurement.ObjectIndex m objectID = Ok row <->
     Measurement.Objects m !! N.to_nat row = Some objectID) /\
  (Measurement.ObjectExists m objectID = true <-> objectID ∈ Measurement.Objects m) /\
  (Measurement.ObjectExists m objectID = false <->
   Measurement.ObjectIndex m objectID = Throw (ObjectNotPresent objectID)) /\
  (Measurement.ObjectExists m objectID = false ->
   Measurement.subscript_object m objectID = Throw (ObjectNotPresent objectID)) /\
  (forall row, Measurement.ObjectIndex m objectID = Ok row ->
     row < Measurement.NumberOfObjects m) /\
  NoDup (Measurement.Objects m).
Proof.
  intros Hreach. apply reachable_invariant in Hreach.
  pose proof (inv_objects m Hreach) as Hag.
  unfold Measurement.Objects, Measurement.NumberOfObjects, Measurement.subscript_object,
    Measurement.ObjectIndex.
  split_and!.
  - intros row. rewrite <- (Hag objectID row).
    destruct (Measurement.objectIndices_ m !! objectID); split; congruence.
  - by apply objects_agree_exists.
  - rewrite ObjectExists_false.
    destruct (Measurement.objectIndices_ m !! objectID); split; congruence.
  - intros Hno%ObjectExists_false. by rewrite Hno.
  - intros row.
    destruct (Measurement.objectIndices_ m !! objectID) as [row'|] eqn:E; [|done].
    intros [= ->]. apply Hag, lookup_lt_Some in E. unfold Word.size. lia.
  - by apply objects_agree_NoDup.
Qed.

Lemma tiles_concat (values : Feature.ValueInformationArray) fs : forall first last,
  tiles fs first last ->
  concat ((fun f =>
             take (N.to_nat (Measurement.FeatureInfo.numberValues f))
               (drop (N.to_nat (Measurement.FeatureInfo.startColumn f)) values)) <$> fs)
  = take (N.to_nat (last - first)) (drop (N.to_nat first) values).
Proof.
  induction fs as [|f fs IH]; intros first last.
  - simpl. intros ->. by rewrite N.sub_diag.
  - intros [Hs Ht]. pose proof (tiles_sum _ _ _ Ht) as Hsum.
    rewrite fmap_cons. cbn [concat]. rewrite (IH _ _ Ht), Hs.
    replace (N.to_nat (first + Measurement.FeatureInfo.numberValues f))
      with (N.to_nat first + N.to_nat (Measurement.FeatureInfo.numberValues f))%nat by lia.
    rewrite <- drop_drop, take_take_drop. f_equal. lia.
Qed.

(** X5: on a reachable table the arrays [Values( name )] of the features,
    taken in the order of [Features()], are each as long as the feature's
    [numberValues] and, put end to end, are [Values()]: every
    value-information record belongs to exactly one feature. *)
Theorem Values_partition (m : Measurement.t) :
  reachable m ->
  exists groups,
    Forall2 (fun f group =>
               Measurement.Values_of m (Measurement.FeatureInfo.name f) = Ok group /\
               Word.size group = Measurement.FeatureInfo.numberValues f)
            (Measurement.Features m) groups /\
    concat groups = Measurement.Values m.
Proof.
  intros Hreach. apply reachable_invariant in Hreach.
  unfold Measurement.Features, Measurement.Values.
  exists ((fun f =>
             take (N.to_nat (Measurement.FeatureInfo.numberValues f))
               (drop (N.to_nat (Measurement.FeatureInfo.startColumn f))
                  (Measurement.values_ m))) <$> Measurement.features_ m).
  split.
  - apply Forall2_fmap_r, Forall_Forall2_diag, Forall_forall. intros f Hf.
    apply list_elem_of_lookup_1 in Hf as [i Hi].
    assert (Hmap : Measurement.featureIndices_ m !! Measurement.FeatureInfo.name f
                   = Some (N.of_nat i)).
    { apply (inv_features m Hreach). exists f. by rewrite Nat2N.id. }
    destruct (invariant_feature m _ _ Hreach Hmap) as (g & Hg & _ & _ & Hle).
    rewrite Nat2N.id, Hi in Hg. injection Hg as <-.
    split.
    + eapply (Values_of_slice m _ (N.of_nat i)); [|by rewrite Nat2N.id|done].
      unfold Measurement.FeatureIndex. by rewrite Hmap.
    + unfold Word.size in *. rewrite length_take, length_drop. lia.
  - rewrite (tiles_concat _ _ 0 _ (inv_tiles m Hreach)). simpl.
    rewrite N.sub_0_r. unfold Word.size. rewrite Nat2N.id. by rewrite firstn_all.
Qed.

Lemma ValueIndex_Ok m name index f :
  Measurement.FeatureIndex m name = Ok index ->
  Measurement.features_ m !! N.to_nat index = Some f ->
  Measurement.ValueIndex m name = Ok (Measurement.FeatureInfo.startColumn f) /\
  Measurement.NumberOfValues_of m name = Ok (Measurement.FeatureInfo.numberValues f).
Proof.
  intros Hix Hf%vector_at_Ok.
  unfold Measurement.ValueIndex, Measurement.NumberOfValues_of. rewrite Hix.
  cbn [mbind Outcome_bind]. rewrite Hf. done.
Qed.

Lemma lookups_Throw m name e :
  Measurement.FeatureIndex m name = Throw e ->
  Measurement.ValueIndex m name = Throw e /\
  Measurement.NumberOfValues_of m name = Throw e /\
  Measurement.Values_of m name = Throw e.
Proof.
  intros Hix.
  unfold Measurement.ValueIndex, Measurement.NumberOfValues_of, Measurement.Values_of.
  by rewrite Hix.
Qed.

(** ** Adding a feature, then looking it up *)

(** X6: when [AddFeature( name, values )] returns on a reachable table,
    the new table finds the feature: [FeatureIndex( name )] is the former
    number of features, [ValueIndex( name )] the former number of value
    columns, [NumberOfValues( name )] the length of [values] and
    [Values( name )] the array [values] itself; every lookup of another
    name, and every lookup of an object, answers as before. *)
Theorem AddFeature_lookup (m : Measurement.t) (name : string)
    (values : Feature.ValueInformationArray) (m' : Measurement.t) :
  reachable m ->
  Measurement.AddFeature name values m = (Ok tt, m') ->
  Measurement.FeatureExists m' name = true /\
  Measurement.FeatureIndex m' name = Ok (Measurement.NumberOfFeatures m) /\
  Measurement.ValueIndex m' name = Ok (Measurement.NumberOfValues m) /\
  Measurement.NumberOfValues_of m' name = Ok (Word.size values) /\
  Measurement.Values_of m' name = Ok values /\
  Measurement.NumberOfFeatures m' = Measurement.NumberOfFeatures m + 1 /\
  Measurement.NumberOfValues m' = Measurement.NumberOfValues m + Word.size values /\
  (forall other, other <> name ->
     Measurement.FeatureExists m' other = Measurement.FeatureExists m other /\
     Measurement.FeatureIndex m' other = Measurement.FeatureIndex m other /\
     Measurement.ValueIndex m' other = Measurement.ValueIndex m other /\
     Measurement.NumberOfValues_of m' other = Measurement.NumberOfValues_of m other /\
     Measurement.Values_of m' other = Measurement.Values_of m other) /\
  (forall objectID,
     Measurement.ObjectExists m' objectID = Measurement.ObjectExists m objectID /\
     Measurement.ObjectIndex m' objectID = Measurement.ObjectIndex m objectID) /\
  Measurement.Objects m' = Measurement.Objects m.
Proof.
  intros Hreach Hrun.
  assert (Hreach' : reachable m') by (by eapply (reachable_returns m (OpAddFeature name values))).
  apply reachable_invariant in Hreach, Hreach'.
  rewrite AddFeature_cases in Hrun.
  destruct (Measurement.IsForged m); [done|].
  destruct (bool_decide (name = "")); [done|].
  destruct (Measurement.FeatureExists m name) eqn:Hnew; [done|].
  destruct (Measurement.vector_empty values); [done|].
  rewrite AddFeature__returns in Hrun. injection Hrun as <-.
  apply FeatureExists_false in Hnew.
  destruct m as [os oi fs vs fi d].
  unfold Measurement.NumberOfFeatures, Measurement.NumberOfValues, Measurement.Objects.
  cbn [Measurement.objects_ Measurement.objectIndices_ Measurement.features_
       Measurement.values_ Measurement.featureIndices_ Measurement.data_] in *.
  set (m' := Measurement.mk os oi (fs ++ _) (vs ++ values) _ d) in *.
  assert (Hmap : forall other,
            Measurement.featureIndices_ m' !! other =
            if decide (name = other) then Some (Word.size fs) else fi !! other).
  { intros other. unfold m', map_emplace. simpl. rewrite Hnew. apply lookup_insert. }
  assert (Hix : Measurement.FeatureIndex m' name = Ok (Word.size fs)).
  { unfold Measurement.FeatureIndex. rewrite Hmap. by rewrite decide_True. }
  assert (Hf : Measurement.features_ m' !! N.to_nat (Word.size fs) =
               Some (Measurement.FeatureInfo.mk name (Word.size vs) (Word.size values))).
  { unfold m', Word.size. simpl. rewrite Nat2N.id. by rewrite list_lookup_middle. }
  destruct (ValueIndex_Ok m' name _ _ Hix Hf) as [Hvi Hnv].
  split_and!.
  - unfold Measurement.FeatureExists. rewrite map_count_true, Hmap, decide_True; done.
  - done.
  - exact Hvi.
  - exact Hnv.
  - rewrite (Values_of_slice m' name _ _ Hix Hf).
    + unfold m', Word.size. simpl. rewrite !Nat2N.id.
      rewrite drop_app_length. by rewrite firstn_all.
    + unfold m'. simpl. rewrite size_app. lia.
  - unfold m'. simpl. by rewrite size_app.
  - unfold m'. simpl. by rewrite size_app.
  - intros other Hne.
    assert (Hother : Measurement.featureIndices_ m' !! other = fi !! other)
      by (rewrite Hmap; by rewrite decide_False).
    set (m0 := Measurement.mk os oi fs vs fi d) in *.
    assert (Hixo : Measurement.FeatureIndex m' other = Measurement.FeatureIndex m0 other)
      by (unfold Measurement.FeatureIndex; by rewrite Hother).
    split; [unfold Measurement.FeatureExists, map_count; by rewrite Hother|].
    split; [done|].
    destruct (fi !! other) as [index|] eqn:Hindex.
    2:{ assert (Measurement.FeatureIndex m0 other = Throw (FeatureNotPresent other)) as E0
          by (unfold Measurement.FeatureIndex; simpl; by rewrite Hindex).
        pose proof E0 as E'. rewrite <- Hixo in E'.
        destruct (lookups_Throw m0 other _ E0) as (-> & -> & ->).
        by destruct (lookups_Throw m' other _ E') as (-> & -> & ->). }
    assert (Measurement.FeatureIndex m0 other = Ok index) as E0
      by (unfold Measurement.FeatureIndex; simpl; by rewrite Hindex).
    pose proof E0 as E'. rewrite <- Hixo in E'.
    destruct (invariant_feature m0 other index Hreach Hindex) as (f & Hfo & _ & _ & Hle).
    assert (Hfo' : Measurement.features_ m' !! N.to_nat index = Some f)
      by (unfold m'; simpl; by apply lookup_app_l_Some).
    destruct (ValueIndex_Ok m0 other _ _ E0 Hfo) as [-> ->].
    destruct (ValueIndex_Ok m' other _ _ E' Hfo') as [-> ->].
    split; [done|]. split; [done|].
    rewrite (Values_of_slice m' other index f E' Hfo'),
      (Values_of_slice m0 other index f E0 Hfo Hle).
    + unfold m', m0. simpl. f_equal. unfold Word.size in Hle. simpl in Hle.
      rewrite drop_app_le by lia. rewrite take_app_le; [done|]. rewrite length_drop. lia.
    + unfold m'. simpl. rewrite size_app. simpl in Hle. lia.
  - done.
  - done.
Qed.

(** ** Views, cells and the buffer *)

Lemma incr_exact (n : N) : n + 1 < Word.modulus -> Word.incr n = n + 1.
Proof. intros Hlt. unfold Word.incr, Word.wrap. by apply N.mod_small. Qed.

Lemma iter_next_object k :
  N.of_nat k < Word.modulus ->
  Nat.iter k Measurement.IteratorObject.next (Measurement.IteratorObject.mk 0)
  = Measurement.IteratorObject.mk (N.of_nat k).
Proof.
  induction k as [|k IH]; intros Hk; [done|]. simpl. rewrite IH by lia.
  unfold Measurement.IteratorObject.next. simpl. rewrite incr_exact by lia.
  f_equal. lia.
Qed.

Lemma iter_next_feature k :
  N.of_nat k < Word.modulus ->
  Nat.iter k Measurement.IteratorFeature.next (Measurement.IteratorFeature.mk 0)
  = Measurement.IteratorFeature.mk (N.of_nat k).
Proof.
  induction k as [|k IH]; intros Hk; [done|]. simpl. rewrite IH by lia.
  unfold Measurement.IteratorFeature.next. simpl. rewrite incr_exact by lia.
  f_equal. lia.
Qed.

(** X7: on a reachable table, stepping [k] times from [FirstObject()],
    for [k] below 2^64 (where [++index_] wraps around), reaches the end
    exactly when [k] is the number of objects or more; before that the
    view's [ObjectID()] is the [k]-th identifier of [Objects()], and
    indexing the table with that identifier gives the same view back.
    Likewise from [FirstFeature()], with [Name()], [Features()] and
    indexing by name. *)
Theorem views_enumerate (m : Measurement.t) (k : nat) :
  reachable m ->
  N.of_nat k < Word.modulus ->
  (let row := Nat.iter k Measurement.IteratorObject.next (Measurement.FirstObject m) in
   (Measurement.IteratorObject.IsAtEnd m row = false <->
    (k < length (Measurement.Objects m))%nat) /\
   forall objectID,
     Measurement.Objects m !! k = Some objectID ->
     Measurement.IteratorObject.ObjectID m row = Ok objectID /\
     Measurement.subscript_object m objectID = Ok row) /\
  (let column := Nat.iter k Measurement.IteratorFeature.next (Measurement.FirstFeature m) in
   (Measurement.IteratorFeature.IsAtEnd m column = false <->
    (k < length (Measurement.Features m))%nat) /\
   forall f,
     Measurement.Features m !! k = Some f ->
     Measurement.IteratorFeature.Name m column = Ok (Measurement.FeatureInfo.name f) /\
     Measurement.subscript_feature m (Measurement.FeatureInfo.name f) = Ok column).
Proof.
  intros Hreach Hk. apply reachable_invariant in Hreach.
  unfold Measurement.FirstObject, Measurement.FirstFeature.
  rewrite iter_next_object, iter_next_feature by done. cbv zeta.
  unfold Measurement.Objects, Measurement.Features.
  split.
  - split.
    + unfold Measurement.IteratorObject.IsAtEnd, Measurement.IteratorObject.NumberOfObjects,
        Measurement.NumberOfObjects, Word.size. simpl.
      rewrite negb_false_iff, N.ltb_lt. lia.
    + intros id Hid. split.
      * unfold Measurement.IteratorObject.ObjectID. simpl.
        apply vector_at_Ok. by rewrite Nat2N.id.
      * unfold Measurement.subscript_object, Measurement.ObjectIndex.
        assert (Measurement.objectIndices_ m !! id = Some (N.of_nat k)) as ->; [|done].
        apply (inv_objects m Hreach). by rewrite Nat2N.id.
  - split.
    + unfold Measurement.IteratorFeature.IsAtEnd, Measurement.IteratorFeature.NumberOfFeatures,
        Measurement.NumberOfFeatures, Word.size. simpl.
      rewrite negb_false_iff, N.ltb_lt. lia.
    + intros f Hf. split.
      * unfold Measurement.IteratorFeature.Name, Measurement.IteratorFeature.Feature. simpl.
        assert (vector_at (Measurement.features_ m) (N.of_nat k) = Ok f) as ->; [|done].
        apply vector_at_Ok. by rewrite Nat2N.id.
      * unfold Measurement.subscript_feature, Measurement.FeatureIndex.
        assert (Measurement.featureIndices_ m !! Measurement.FeatureInfo.name f
                  = Some (N.of_nat k)) as ->; [|done].
        apply (inv_features m Hreach). exists f. by rewrite Nat2N.id.
Qed.

Lemma tiles_ordered fs : forall first last i j f g,
  tiles fs first last -> fs !! i = Some f -> fs !! j = Some g -> (i < j)%nat ->
  Measurement.FeatureInfo.startColumn f + Measurement.FeatureInfo.numberValues f
    <= Measurement.FeatureInfo.startColumn g.
Proof.
  induction fs as [|h fs IH]; intros first last i j f g Ht Hi Hj Hlt; [done|].
  destruct Ht as [Hs Ht]. destruct j as [|j]; [lia|]. simpl in Hj.
  destruct i as [|i]; simpl in Hi.
  - injection Hi as ->. destruct (tiles_lookup _ _ _ _ _ Ht Hj) as [E _]. lia.
  - eapply IH; [done..|lia].
Qed.

Lemma tiles_next fs : forall first last i f g,
  tiles fs first last -> fs !! i = Some f -> fs !! S i = Some g ->
  Measurement.FeatureInfo.startColumn g =
  Measurement.FeatureInfo.startColumn f + Measurement.FeatureInfo.numberValues f.
Proof.
  induction fs as [|h fs IH]; intros first last i f g Ht Hi Hj; [done|].
  destruct Ht as [Hs Ht]. simpl in Hj. destruct i as [|i]; simpl in Hi.
  - injection Hi as ->. destruct fs as [|g' fs]; [done|]. simpl in Hj.
    injection Hj as ->. destruct Ht as [-> _]. lia.
  - by eapply IH.
Qed.

Lemma tiles_last fs : forall first final f,
  tiles fs first final -> last fs = Some f ->
  Measurement.FeatureInfo.startColumn f + Measurement.FeatureInfo.numberValues f = final.
Proof.
  induction fs as [|h fs IH]; intros first final f Ht Hl; [done|].
  destruct Ht as [Hs Ht]. destruct fs as [|g fs].
  - simpl in *. injection Hl as ->. lia.
  - by eapply IH.
Qed.

Lemma address_unique (V row row' c c' : N) :
  c < V -> c' < V -> row * V + c = row' * V + c' -> row = row' /\ c = c'.
Proof.
  intros Hc Hc' E.
  assert (row = row') as -> by nia. split; [done|lia].
Qed.

(** The first element of the cell of row [row] and feature number [index],
    as each view computes it. *)
Lemma sum_numberValues_length fs :
  (forall f, f ∈ fs -> 0 < Measurement.FeatureInfo.numberValues f) ->
  N.of_nat (length fs) <= sum_numberValues fs.
Proof.
  induction fs as [|f fs IH]; intros Hpos; [done|].
  cbn [length sum_numberValues foldr]. fold (sum_numberValues fs).
  pose proof (Hpos f ltac:(left)) as Hf.
  assert (N.of_nat (length fs) <= sum_numberValues fs)
    by (apply IH; intros g Hg; apply Hpos; by right).
  lia.
Qed.

(** The index of a feature, and the one after it, lie below the number of
    value columns. *)
Lemma feature_index_fits m index f :
  invariant m ->
  Measurement.features_ m !! N.to_nat index = Some f ->
  index + 1 <= Word.size (Measurement.values_ m).
Proof.
  intros Hinv Hf.
  destruct (tiles_lookup _ _ _ _ _ (inv_tiles m Hinv) Hf) as [Hstart Hle].
  pose proof (inv_nonempty m Hinv f (list_elem_of_lookup_2 _ _ _ Hf)) as [_ Hpos].
  assert (Hsum : N.of_nat (length (take (N.to_nat index) (Measurement.features_ m)))
                 <= sum_numberValues (take (N.to_nat index) (Measurement.features_ m))).
  { apply sum_numberValues_length. intros g Hg.
    apply (inv_nonempty m Hinv). eapply elem_of_sublist; [exact Hg|]. apply sublist_take. }
  rewrite length_take_le in Hsum by (apply lookup_lt_Some in Hf; lia).
  lia.
Qed.

Lemma cell_begin m row index f :
  invariant m ->
  Measurement.IsForged m = true ->
  Measurement.NumberOfValues m * Measurement.NumberOfObjects m < Word.modulus ->
  row < Measurement.NumberOfObjects m ->
  Measurement.features_ m !! N.to_nat index = Some f ->
  let first := row * Measurement.NumberOfValues m + Measurement.FeatureInfo.startColumn f in
  Measurement.IteratorObject.Iterator.begin m
    (Measurement.IteratorObject.Iterator.mk (Measurement.IteratorObject.mk row) index)
    = Ok first /\
  Measurement.IteratorFeature.Iterator.begin m
    (Measurement.IteratorFeature.Iterator.mk (Measurement.IteratorFeature.mk index) row)
    = Ok first /\
  first + Measurement.FeatureInfo.numberValues f <= (row + 1) * Measurement.NumberOfValues m /\
  (row + 1) * Measurement.NumberOfValues m <= Word.size (Measurement.data_ m).
Proof.
  intros Hinv Hforged Hfits Hrow Hf.
  destruct (tiles_lookup _ _ _ _ _ (inv_tiles m Hinv) Hf) as [_ Hle].
  destruct (inv_data m Hinv) as [Hd|Hd]; [apply IsForged_false in Hd; congruence|].
  unfold Measurement.NumberOfValues, Measurement.NumberOfObjects in *.
  rewrite (mul_exact _ _ Hfits) in Hd.
  set (V := Word.size (Measurement.values_ m)) in *.
  set (O := Word.size (Measurement.objects_ m)) in *.
  assert (Word.wrap V = V) as HV by (apply N.mod_small; nia).
  assert (Word.mul row V = row * V) as Hmul by (apply mul_exact; nia).
  cbv zeta.
  unfold Measurement.IteratorObject.Iterator.begin, Measurement.IteratorFeature.Iterator.begin,
    Measurement.IteratorObject.Iterator.Feature, Measurement.IteratorFeature.Feature,
    Measurement.Data, Measurement.Stride.
  rewrite Hforged. cbn [negb mbind mret Outcome_bind Outcome_ret
    Measurement.IteratorObject.Iterator.index_ Measurement.IteratorObject.Iterator.object_
    Measurement.IteratorObject.index_ Measurement.IteratorFeature.Iterator.index_
    Measurement.IteratorFeature.Iterator.feature_ Measurement.IteratorFeature.index_].
  rewrite (proj2 (vector_at_Ok _ _ _) Hf). cbn [mbind mret Outcome_bind Outcome_ret].
  rewrite of_sint_of_N. fold V. rewrite HV, Hmul.
  split; [done|]. split; [done|]. split; nia.
Qed.

(** X8: in a forged reachable table whose cell count fits [dip::uint], the
    cell of row [row] and feature number [index] starts at element
    [row * Stride() + startColumn] in both views, holds [numberValues]
    elements and lies inside the buffer; within a row the cell of the next
    feature begins where this one ends, the cell of the first feature
    begins the row, the cell of the last feature ends it, the last row ends
    with the buffer, and in the feature view the next object is one
    [Stride()] further. *)
Theorem cells_tile_buffer (m : Measurement.t) (row index : Word.uint)
    (f : Measurement.FeatureInfo.t) :
  reachable m ->
  Measurement.IsForged m = true ->
  Measurement.NumberOfValues m * Measurement.NumberOfObjects m < Word.modulus ->
  row < Measurement.NumberOfObjects m ->
  Measurement.Features m !! N.to_nat index = Some f ->
  let cell :=
    Measurement.IteratorObject.Iterator.mk (Measurement.IteratorObject.mk row) index in
  let column_cell :=
    Measurement.IteratorFeature.Iterator.mk (Measurement.IteratorFeature.mk index) row in
  let first := row * Measurement.NumberOfValues m + Measurement.FeatureInfo.startColumn f in
  let stop := first + Measurement.FeatureInfo.numberValues f in
  Measurement.IteratorObject.Iterator.begin m cell = Ok first /\
  Measurement.IteratorObject.Iterator.size m cell =
    Ok (Measurement.FeatureInfo.numberValues f) /\
  Measurement.IteratorObject.Iterator.end_ m cell = Ok stop /\
  Measurement.IteratorFeature.Iterator.begin m column_cell = Ok first /\
  Measurement.IteratorFeature.Iterator.end_ m column_cell = Ok stop /\
  first < stop /\ stop <= Word.size (Measurement.data_ m) /\
  (index = 0 -> first = row * Measurement.NumberOfValues m) /\
  (Measurement.IteratorObject.Iterator.IsAtEnd m
     (Measurement.IteratorObject.Iterator.next cell) = false ->
   Measurement.IteratorObject.Iterator.begin m
     (Measurement.IteratorObject.Iterator.next cell) = Ok stop) /\
  (Measurement.IteratorObject.Iterator.IsAtEnd m
     (Measurement.IteratorObject.Iterator.next cell) = true ->
   stop = (row + 1) * Measurement.NumberOfValues m) /\
  (row + 1 = Measurement.NumberOfObjects m ->
   (row + 1) * Measurement.NumberOfValues m = Word.size (Measurement.data_ m)) /\
  (Measurement.IteratorFeature.Iterator.IsAtEnd m
     (Measurement.IteratorFeature.Iterator.next column_cell) = false ->
   Measurement.IteratorFeature.Iterator.begin m
     (Measurement.IteratorFeature.Iterator.next column_cell)
     = Ok (first + Measurement.NumberOfValues m)).
Proof.
  intros Hreach Hforged Hfits Hrow Hf. apply reachable_invariant in Hreach.
  unfold Measurement.Features in Hf. cbv zeta.
  destruct (cell_begin m row index f Hreach Hforged Hfits Hrow Hf)
    as (Hob & Hfb & Hle & Hin).
  pose proof (inv_nonempty m Hreach f (list_elem_of_lookup_2 _ _ _ Hf)) as [_ Hpos].
  assert (Hsize : vector_at (Measurement.features_ m) index = Ok f) by (by apply vector_at_Ok).
  assert (Hwords : index + 1 < Word.modulus /\ row + 1 < Word.modulus).
  { pose proof (feature_index_fits m index f Hreach Hf) as Hindex.
    unfold Measurement.NumberOfValues, Measurement.NumberOfObjects in *. nia. }
  destruct Hwords as [Hindex1 Hrow1].
  split_and!.
  - exact Hob.
  - unfold Measurement.IteratorObject.Iterator.size,
      Measurement.IteratorObject.Iterator.Feature. simpl. by rewrite Hsize.
  - unfold Measurement.IteratorObject.Iterator.end_,
      Measurement.IteratorObject.Iterator.size,
      Measurement.IteratorObject.Iterator.Feature. rewrite Hob. simpl. by rewrite Hsize.
  - exact Hfb.
  - unfold Measurement.IteratorFeature.Iterator.end_,
      Measurement.IteratorFeature.Iterator.size,
      Measurement.IteratorFeature.Feature. rewrite Hfb. simpl. by rewrite Hsize.
  - lia.
  - lia.
  - intros ->. destruct (Measurement.features_ m) as [|g fs] eqn:E; [done|].
    simpl in Hf. injection Hf as ->. pose proof (inv_tiles m Hreach) as Ht.
    rewrite E in Ht. destruct Ht as [-> _]. lia.
  - unfold Measurement.IteratorObject.Iterator.IsAtEnd,
      Measurement.IteratorObject.Iterator.next,
      Measurement.IteratorObject.NumberOfFeatures, Measurement.NumberOfFeatures.
    simpl. rewrite (incr_exact index Hindex1).
    rewrite negb_false_iff, N.ltb_lt. unfold Word.size. intros Hnext.
    destruct (Measurement.features_ m !! N.to_nat (index + 1)) as [g|] eqn:Hg.
    2:{ apply lookup_ge_None in Hg. lia. }
    destruct (cell_begin m row (index + 1) g Hreach Hforged Hfits Hrow Hg) as (-> & _).
    replace (N.to_nat (index + 1)) with (S (N.to_nat index)) in Hg by lia.
    rewrite (tiles_next _ _ _ _ _ _ (inv_tiles m Hreach) Hf Hg). f_equal. lia.
  - unfold Measurement.IteratorObject.Iterator.IsAtEnd,
      Measurement.IteratorObject.Iterator.next,
      Measurement.IteratorObject.NumberOfFeatures, Measurement.NumberOfFeatures.
    simpl. rewrite (incr_exact index Hindex1).
    rewrite negb_true_iff, N.ltb_ge. unfold Word.size. intros Hnext.
    assert (last (Measurement.features_ m) = Some f) as Hlast.
    { rewrite last_lookup. rewrite <- Hf. f_equal. apply lookup_lt_Some in Hf. lia. }
    pose proof (tiles_last _ _ _ _ (inv_tiles m Hreach) Hlast) as E.
    unfold Measurement.NumberOfValues. lia.
  - intros Hlastrow.
    destruct (inv_data m Hreach) as [Hd|Hd]; [apply IsForged_false in Hd; congruence|].
    unfold Measurement.NumberOfValues, Measurement.NumberOfObjects in *.
    rewrite (mul_exact _ _ Hfits) in Hd. rewrite Hd, Hlastrow. lia.
  - unfold Measurement.IteratorFeature.Iterator.IsAtEnd,
      Measurement.IteratorFeature.Iterator.next,
      Measurement.IteratorFeature.NumberOfObjects.
    simpl. rewrite (incr_exact row Hrow1).
    rewrite negb_false_iff, N.ltb_lt. intros Hnext.
    destruct (cell_begin m (row + 1) index f Hreach Hforged Hfits Hnext Hf) as (_ & -> & _).
    f_equal. lia.
Qed.

Lemma route_addresses m objectID name k row index f :
  invariant m ->
  Measurement.IsForged m = true ->
  Measurement.NumberOfValues m * Measurement.NumberOfObjects m < Word.modulus ->
  Measurement.objectIndices_ m !! objectID = Some row ->
  Measurement.featureIndices_ m !! name = Some index ->
  Measurement.features_ m !! N.to_nat index = Some f ->
  let address :=
    row * Measurement.NumberOfValues m + Measurement.FeatureInfo.startColumn f + k in
  Measurement.feature_route m name objectID k = Ok address /\
  Measurement.object_route m objectID name k = Ok address.
Proof.
  intros Hinv Hforged Hfits Hrow Hindex Hf. cbv zeta.
  rewrite feature_route_eq, object_route_eq.
  unfold Measurement.FeatureIndex, Measurement.ObjectIndex, Measurement.Data.
  rewrite Hrow, Hindex, Hforged. cbn [negb mbind Outcome_bind].
  rewrite (proj2 (vector_at_Ok _ _ _) Hf). cbn [mbind Outcome_bind].
  apply (inv_objects m Hinv), lookup_lt_Some in Hrow.
  unfold Measurement.NumberOfValues, Measurement.NumberOfObjects, Word.size in *.
  assert (Word.wrap (N.of_nat (length (Measurement.values_ m)))
          = N.of_nat (length (Measurement.values_ m))) as ->
    by (apply N.mod_small; nia).
  rewrite mul_exact by nia. done.
Qed.

Lemma cell_offsets_differ m index index' f f' k k' :
  invariant m ->
  Measurement.features_ m !! N.to_nat index = Some f ->
  Measurement.features_ m !! N.to_nat index' = Some f' ->
  k < Measurement.FeatureInfo.numberValues f ->
  k' < Measurement.FeatureInfo.numberValues f' ->
  Measurement.FeatureInfo.startColumn f + k = Measurement.FeatureInfo.startColumn f' + k' ->
  index = index' /\ k = k'.
Proof.
  intros Hinv Hf Hf' Hk Hk' E. pose proof (inv_tiles m Hinv) as Ht.
  destruct (decide (N.to_nat index < N.to_nat index')%nat) as [Hlt|Hge].
  { pose proof (tiles_ordered _ _ _ _ _ _ _ Ht Hf Hf' Hlt). lia. }
  destruct (decide (N.to_nat index' < N.to_nat index)%nat) as [Hlt|Hge'].
  { pose proof (tiles_ordered _ _ _ _ _ _ _ Ht Hf' Hf Hlt). lia. }
  assert (index = index') as <- by lia.
  rewrite Hf in Hf'. injection Hf' as <-. split; [done|lia].
Qed.

(** X9: in a forged reachable table whose cell count fits [dip::uint], two
    values of the table share an element of the buffer only if they are
    the same value: the addresses [cell[ k ]] and [cell'[ k' ]] of the cells
    of rows [row], [row'] and features number [index], [index'] are equal
    only when [row = row'], [index = index'] and [k = k']. *)
Theorem cells_disjoint (m : Measurement.t) (row row' index index' k k' : Word.uint)
    (f f' : Measurement.FeatureInfo.t) (address : Measurement.ValueIterator) :
  reachable m ->
  Measurement.IsForged m = true ->
  Measurement.NumberOfValues m * Measurement.NumberOfObjects m < Word.modulus ->
  row < Measurement.NumberOfObjects m ->
  row' < Measurement.NumberOfObjects m ->
  Measurement.Features m !! N.to_nat index = Some f ->
  Measurement.Features m !! N.to_nat index' = Some f' ->
  k < Measurement.FeatureInfo.numberValues f ->
  k' < Measurement.FeatureInfo.numberValues f' ->
  Measurement.IteratorObject.Iterator.subscript m
    (Measurement.IteratorObject.Iterator.mk (Measurement.IteratorObject.mk row) index) k
    = Ok address ->
  Measurement.IteratorObject.Iterator.subscript m
    (Measurement.IteratorObject.Iterator.mk (Measurement.IteratorObject.mk row') index') k'
    = Ok address ->
  row = row' /\ index = index' /\ k = k'.
Proof.
  intros Hreach Hforged Hfits Hrow Hrow' Hf Hf' Hk Hk'.
  apply reachable_invariant in Hreach. unfold Measurement.Features in *.
  destruct (cell_begin m row index f Hreach Hforged Hfits Hrow Hf) as (Hb & _ & Hle & _).
  destruct (cell_begin m row' index' f' Hreach Hforged Hfits Hrow' Hf') as (Hb' & _ & Hle' & _).
  unfold Measurement.IteratorObject.Iterator.subscript. rewrite Hb, Hb'. simpl.
  intros [= <-] [= E].
  destruct (address_unique (Measurement.NumberOfValues m) row' row
              (Measurement.FeatureInfo.startColumn f' + k')
              (Measurement.FeatureInfo.startColumn f + k)) as [-> Hc]; [lia..|].
  destruct (cell_offsets_differ m index index' f f' k k' Hreach Hf Hf' Hk Hk') as [-> ->];
    [lia|done].
Qed.

Lemma valid_cell m objectID name count :
  invariant m ->
  Measurement.ObjectExists m objectID = true ->
  Measurement.NumberOfValues_of m name = Ok count ->
  exists row index f,
    Measurement.objectIndices_ m !! objectID = Some row /\
    Measurement.objects_ m !! N.to_nat row = Some objectID /\
    Measurement.featureIndices_ m !! name = Some index /\
    Measurement.features_ m !! N.to_nat index = Some f /\
    Measurement.FeatureInfo.name f = name /\
    Measurement.FeatureInfo.numberValues f = count /\
    Measurement.FeatureInfo.startColumn f + count <= Measurement.NumberOfValues m.
Proof.
  intros Hinv [row Hrow]%ObjectExists_true Hcount.
  unfold Measurement.NumberOfValues_of, Measurement.FeatureIndex in Hcount.
  destruct (Measurement.featureIndices_ m !! name) as [index|] eqn:Hindex; [|done].
  destruct (invariant_feature m name index Hinv Hindex) as (f & Hf & Hname & _ & Hle).
  simpl in Hcount. rewrite (proj2 (vector_at_Ok _ _ _) Hf) in Hcount. injection Hcount as <-.
  exists row, index, f. split_and!; try done. by apply (inv_objects m Hinv).
Qed.

(** X10: in a forged reachable table whose cell count fits [dip::uint], a
    value written through [msr[ name ][ objectID ][ k ]] is the value read
    back through [msr[ objectID ][ name ][ k ]] (and through the feature
    view), and the write changes no other value of the table: every other
    valid triple reads, by either route, what it read before. *)
Theorem write_then_read (m : Measurement.t) (objectID : Word.uint) (name : string)
    (k count : Word.uint) (x : Measurement.ValueType) :
  reachable m ->
  Measurement.IsForged m = true ->
  Measurement.NumberOfValues m * Measurement.NumberOfObjects m < Word.modulus ->
  Measurement.ObjectExists m objectID = true ->
  Measurement.NumberOfValues_of m name = Ok count ->
  k < count ->
  exists address m',
    Measurement.feature_route m name objectID k = Ok address /\
    Measurement.store address x m = (Ok tt, m') /\
    schema m' = schema m /\
    (p ← Measurement.object_route m' objectID name k; Measurement.load m' p) = Ok x /\
    (p ← Measurement.feature_route m' name objectID k; Measurement.load m' p) = Ok x /\
    forall objectID' name' k' count',
      Measurement.ObjectExists m objectID' = true ->
      Measurement.NumberOfValues_of m name' = Ok count' ->
      k' < count' ->
      (objectID', name', k') <> (objectID, name, k) ->
      (p ← Measurement.object_route m' objectID' name' k'; Measurement.load m' p) =
      (p ← Measurement.object_route m objectID' name' k'; Measurement.load m p) /\
      (p ← Measurement.feature_route m' name' objectID' k'; Measurement.load m' p) =
      (p ← Measurement.feature_route m name' objectID' k'; Measurement.load m p).
Proof.
  intros Hreach Hforged Hfits Hobj Hcount Hk. apply reachable_invariant in Hreach.
  destruct (valid_cell m objectID name count Hreach Hobj Hcount)
    as (row & index & f & Hrow & Hrow' & Hindex & Hf & Hname & Hn & Hle).
  destruct (route_addresses m objectID name k row index f Hreach Hforged Hfits Hrow Hindex Hf)
    as [Hfr _].
  assert (Hdata : Word.size (Measurement.data_ m) =
                  Measurement.NumberOfValues m * Measurement.NumberOfObjects m).
  { destruct (inv_data m Hreach) as [Hd|Hd]; [apply IsForged_false in Hd; congruence|].
    rewrite Hd. by apply mul_exact. }
  set (V := Measurement.NumberOfValues m) in *.
  set (address := row * V + Measurement.FeatureInfo.startColumn f + k) in *.
  assert (HrowO : row < Measurement.NumberOfObjects m).
  { apply lookup_lt_Some in Hrow'. unfold Measurement.NumberOfObjects, Word.size. lia. }
  assert (Hin : address < Word.size (Measurement.data_ m)).
  { rewrite Hdata. unfold address. nia. }
  set (m' := Measurement.set_data_
               (fun _ => <[N.to_nat address := x]> (Measurement.data_ m)) m).
  assert (Hstore : Measurement.store address x m = (Ok tt, m')).
  { rewrite store_cases. by rewrite (proj2 (N.ltb_lt _ _) Hin). }
  assert (Hinv' : invariant m') by (by eapply (invariant_exec (OpStore address x))).
  assert (Hforged' : Measurement.IsForged m' = true)
    by (by destruct (exec_forged (OpStore address x) m _ _ Hforged Hstore)).
  assert (Hschema : schema m' = schema m) by (by destruct m).
  assert (Hroutes : forall id' name' k' row' index' f',
            Measurement.objectIndices_ m !! id' = Some row' ->
            Measurement.featureIndices_ m !! name' = Some index' ->
            Measurement.features_ m !! N.to_nat index' = Some f' ->
            let a' := row' * V + Measurement.FeatureInfo.startColumn f' + k' in
            Measurement.feature_route m name' id' k' = Ok a' /\
            Measurement.object_route m id' name' k' = Ok a' /\
            Measurement.feature_route m' name' id' k' = Ok a' /\
            Measurement.object_route m' id' name' k' = Ok a').
  { intros id' name' k' row' index' f' Hr Hi Hf'. cbv zeta.
    destruct (route_addresses m id' name' k' row' index' f' Hreach Hforged Hfits Hr Hi Hf')
      as [-> ->].
    destruct (route_addresses m' id' name' k' row' index' f' Hinv' Hforged') as [-> ->];
      try done; by destruct m. }
  destruct (Hroutes objectID name k row index f Hrow Hindex Hf) as (_ & _ & Hfr' & Hor').
  exists address, m'. split; [done|]. split; [done|]. split; [done|].
  assert (Hload : Measurement.load m' address = Ok x).
  { unfold Measurement.load. apply vector_at_Ok. unfold m'. destruct m; simpl in *.
    apply list_lookup_insert_eq. unfold Word.size in Hin. lia. }
  split; [by rewrite Hor'|]. split; [by rewrite Hfr'|].
  intros id' name' k' count' Hobj' Hcount' Hk' Hne.
  destruct (valid_cell m id' name' count' Hreach Hobj' Hcount')
    as (row' & index' & f' & Hr' & Hr'' & Hi' & Hf' & Hname' & Hn' & Hle').
  destruct (Hroutes id' name' k' row' index' f' Hr' Hi' Hf') as (-> & -> & -> & ->).
  cbn [mbind Outcome_bind].
  assert (Hdiff : row' * V + Measurement.FeatureInfo.startColumn f' + k' <> address).
  { intros E. unfold address in E.
    destruct (address_unique V row' row
                (Measurement.FeatureInfo.startColumn f' + k')
                (Measurement.FeatureInfo.startColumn f + k)) as [-> Hc]; [lia..|].
    destruct (cell_offsets_differ m index' index f' f k' k Hreach Hf' Hf) as [-> ->];
      [lia..|].
    rewrite Hf in Hf'. injection Hf' as <-. apply Hne.
    rewrite Hrow' in Hr''. injection Hr'' as <-. by rewrite <- Hname, <- Hname'. }
  assert (Measurement.load m' (row' * V + Measurement.FeatureInfo.startColumn f' + k')
          = Measurement.load m (row' * V + Measurement.FeatureInfo.startColumn f' + k')) as ->.
  { unfold Measurement.load, vector_at, m'. destruct m; simpl.
    rewrite list_lookup_insert_ne; [done|]. lia. }
  done.
Qed.

(** ** How the mutators compose *)

(** X11: [EnsureFeature] is [AddFeature] for a name that is not present;
    when [EnsureFeature( name, values )] returns, the name is present, the
    table is unchanged if it was present before, and a second
    [EnsureFeature] of that name, with any value array, returns and
    changes nothing, whereas [AddFeature] of that name now throws "Feature
    already present". *)
Theorem EnsureFeature_idempotent (m : Measurement.t) (name : string)
    (values : Feature.ValueInformationArray) :
  (Measurement.FeatureExists m name = false ->
   Measurement.EnsureFeature name values m = Measurement.AddFeature name values m) /\
  (forall m',
     Measurement.EnsureFeature name values m = (Ok tt, m') ->
     Measurement.FeatureExists m' name = true /\
     (Measurement.FeatureExists m name = true -> m' = m) /\
     forall values',
       Measurement.EnsureFeature name values' m' = (Ok tt, m') /\
       Measurement.AddFeature name values' m' = (Throw (FeaturePresent name), m')).
Proof.
  split.
  - intros Hnew. by rewrite EnsureFeature_cases, AddFeature_cases, Hnew.
  - intros m'. rewrite EnsureFeature_cases.
    destruct (Measurement.IsForged m) eqn:Hf; [done|].
    destruct (bool_decide (name = "")) eqn:Hn; [done|].
    assert (Hdone : forall m1,
              Measurement.IsForged m1 = false -> Measurement.FeatureExists m1 name = true ->
              forall values',
                Measurement.EnsureFeature name values' m1 = (Ok tt, m1) /\
                Measurement.AddFeature name values' m1 = (Throw (FeaturePresent name), m1)).
    { intros m1 Hf1 Hex1 values'.
      by rewrite EnsureFeature_guards, AddFeature_guards, Hf1, Hn, Hex1. }
    destruct (Measurement.FeatureExists m name) eqn:Hex.
    + intros [= <-]. split; [done|]. split; [done|]. by apply Hdone.
    + destruct (Measurement.vector_empty values); [done|].
      rewrite AddFeature__returns. intros [= <-].
      assert (Hex' : Measurement.FeatureExists
                (Measurement.mk (Measurement.objects_ m) (Measurement.objectIndices_ m)
                   (Measurement.features_ m ++
                      [Measurement.FeatureInfo.mk name (Word.size (Measurement.values_ m))
                         (Word.size values)])
                   (Measurement.values_ m ++ values)
                   (map_emplace name (Word.size (Measurement.features_ m))
                      (Measurement.featureIndices_ m))
                   (Measurement.data_ m)) name = true).
      { apply FeatureExists_true. simpl. unfold map_emplace.
        apply FeatureExists_false in Hex. rewrite Hex, lookup_insert_eq. by eexists. }
      split; [done|]. split; [done|]. apply Hdone; [|done].
      apply IsForged_false in Hf. apply IsForged_false. done.
Qed.

Lemma for_each_app {S A} (xs ys : list A) (body : A -> Method S unit) (s : S) :
  for_each (xs ++ ys) body s = (for_each xs body ;; for_each ys body) s.
Proof.
  revert s. induction xs as [|x xs IH]; intros s; simpl; [done|].
  cbv [mbind Method_bind] in *. destruct (body x s) as [[[]|e|] s1]; [|done..].
  apply IH.
Qed.

(** X12: adding object identifiers in two calls is adding them in one:
    [AddObjectIDs( a ++ b )] has the outcome and leaves the table of
    [AddObjectIDs( a )] followed, if it returns, by [AddObjectIDs( b )]. *)
Theorem AddObjectIDs_app (a b : list Word.uint) (m : Measurement.t) :
  Measurement.AddObjectIDs (a ++ b) m =
  (Measurement.AddObjectIDs a ;; Measurement.AddObjectIDs b) m.
Proof.
  cbv [mbind Method_bind]. rewrite !AddObjectIDs_cases.
  destruct (Measurement.IsForged m) eqn:Hf; [done|].
  rewrite for_each_app. cbv [mbind Method_bind].
  destruct (for_each a AddObjectIDs_body m) as [[[]|e|] m1] eqn:Hrun; [|done..].
  rewrite AddObjectIDs_cases.
  assert (Measurement.IsForged m1 = false) as ->; [|done].
  assert (Hcol : columns m1 = columns m).
  { apply (AddObjectIDs_keeps_columns a m (Ok tt)). by rewrite AddObjectIDs_cases, Hf. }
  unfold columns in Hcol. injection Hcol as _ _ _ Hd.
  unfold Measurement.IsForged in *. by rewrite Hd.
Qed.

(** X13: on a reachable table [AddObjectIDs( ids )] returns exactly when
    the table is not forged, no identifier occurs twice in [ids] and none
    is already a row. *)
Theorem AddObjectIDs_returns_iff (objectIDs : list Word.uint) (m : Measurement.t) :
  reachable m ->
  (exists m', Measurement.AddObjectIDs objectIDs m = (Ok tt, m')) <->
  Measurement.IsForged m = false /\ NoDup objectIDs /\
  forall objectID, objectID ∈ objectIDs -> Measurement.ObjectExists m objectID = false.
Proof.
  intros Hreach. apply reachable_invariant in Hreach.
  pose proof (inv_objects m Hreach) as Hag. rewrite AddObjectIDs_cases. split.
  - intros [m' Hrun]. destruct (Measurement.IsForged m); [done|]. split; [done|].
    destruct (AddObjectIDs_loop objectIDs m Hag) as (r & m1 & Hrun1 & _ & _ & Hres).
    rewrite Hrun in Hrun1. injection Hrun1 as <- <-.
    destruct Hres as [(_ & _ & Hnd)|(? & ? & ? & _ & [=] & _)].
    apply NoDup_app in Hnd as (_ & Hdisj & Hnd). split; [done|].
    intros id Hid. apply not_true_iff_false. rewrite (objects_agree_exists m id Hag).
    intros Hold. by apply (Hdisj id).
  - intros (-> & Hnd & Hfresh).
    destruct (AddObjectIDs_fresh_prefix objectIDs m [] Hnd Hfresh) as (m1 & Hrun & _).
    rewrite app_nil_r in Hrun. exists m1. by rewrite Hrun.
Qed.

(** X14: a reachable table that is not forged has an empty buffer; a forged
    one has at least one feature, one value column and one object, and its
    buffer holds [Stride() * NumberOfObjects()] values (the product taken in
    [dip::uint]). *)
Theorem buffer_size (m : Measurement.t) :
  reachable m ->
  (Measurement.IsForged m = false -> Measurement.data_ m = []) /\
  (Measurement.IsForged m = true ->
     Word.size (Measurement.data_ m) =
       Word.mul (Measurement.NumberOfValues m) (Measurement.NumberOfObjects m) /\
     0 < Measurement.NumberOfFeatures m /\
     0 < Measurement.NumberOfValues m /\
     0 < Measurement.NumberOfObjects m).
Proof.
  intros Hreach. apply reachable_invariant in Hreach. split.
  - by intros ?%IsForged_false.
  - intros Hf.
    destruct (inv_data m Hreach) as [Hd|Hd]; [apply IsForged_false in Hd; congruence|].
    unfold Measurement.NumberOfValues, Measurement.NumberOfObjects,
      Measurement.NumberOfFeatures.
    split; [done|].
    assert (Word.size (Measurement.data_ m) <> 0) as Hne.
    { intros E%size_nil_iff. apply IsForged_false in E. congruence. }
    rewrite Hd in Hne. unfold Word.mul, Word.wrap in Hne.
    assert (0 < Word.size (Measurement.values_ m)) as HV.
    { destruct (Word.size (Measurement.values_ m)); [|lia]. by rewrite N.mul_0_l in Hne. }
    assert (0 < Word.size (Measurement.objects_ m)) as HO.
    { destruct (Word.size (Measurement.objects_ m)); [|lia]. by rewrite N.mul_0_r in Hne. }
    split; [|done].
    pose proof (inv_tiles m Hreach) as Ht.
    destruct (Measurement.features_ m); [simpl in Ht; lia|]. unfold Word.size. simpl. lia.
Qed.

Lemma AddObjectIDs_loop_columns objectIDs : forall m r m',
  for_each objectIDs AddObjectIDs_body m = (r, m') ->
  forall fs vs fi d,
    for_each objectIDs AddObjectIDs_body
      (Measurement.mk (Measurement.objects_ m) (Measurement.objectIndices_ m) fs vs fi d)
    = (r, Measurement.mk (Measurement.objects_ m') (Measurement.objectIndices_ m') fs vs fi d).
Proof.
  induction objectIDs as [|x ids IH]; intros m r m'; simpl.
  - by intros [= <- <-].
  - cbv [mbind Method_bind]. intros Hrun fs vs fi d.
    rewrite AddObjectIDs_body_cases in Hrun. rewrite AddObjectIDs_body_cases.
    change (Measurement.ObjectExists (Measurement.mk _ _ fs vs fi d) x)
      with (Measurement.ObjectExists m x).
    destruct (Measurement.ObjectExists m x); [by injection Hrun as <- <-|].
    by apply (IH _ _ _ Hrun).
Qed.

(** X15: features and objects can be added in either order: when
    [AddFeature( name, values )] followed by [AddObjectIDs( ids )] returns,
    so does [AddObjectIDs( ids )] followed by [AddFeature( name, values )],
    and the other way round, and both leave the same table. *)
Theorem AddFeature_AddObjectIDs_commute (m m' : Measurement.t) (name : string)
    (values : Feature.ValueInformationArray) (objectIDs : list Word.uint) :
  (Measurement.AddFeature name values ;; Measurement.AddObjectIDs objectIDs) m = (Ok tt, m')
  <->
  (Measurement.AddObjectIDs objectIDs ;; Measurement.AddFeature name values) m = (Ok tt, m').
Proof.
  cbv [mbind Method_bind].
  rewrite AddFeature_cases, (AddObjectIDs_cases objectIDs m).
  destruct (Measurement.IsForged m) eqn:Hf; [done|].
  destruct (for_each objectIDs AddObjectIDs_body m) as [r m1] eqn:Hloop.
  pose proof (AddObjectIDs_loop_columns _ _ _ _ Hloop) as Hcols.
  assert (Hcol1 : columns m1 = columns m).
  { apply (AddObjectIDs_keeps_columns objectIDs m r). by rewrite AddObjectIDs_cases, Hf. }
  unfold columns in Hcol1. injection Hcol1 as Hfs Hvs Hfi Hd.
  assert (Hf1 : Measurement.IsForged m1 = false)
    by (unfold Measurement.IsForged in *; by rewrite Hd).
  assert (Hex1 : Measurement.FeatureExists m1 name = Measurement.FeatureExists m name)
    by (unfold Measurement.FeatureExists; by rewrite Hfi).
  destruct (bool_decide (name = "")) eqn:Hn.
  { split; [done|]. destruct r as [[]|e|]; [|done..].
    by rewrite AddFeature_cases, Hf1, Hn. }
  destruct (Measurement.FeatureExists m name) eqn:Hex.
  { split; [done|]. destruct r as [[]|e|]; [|done..].
    by rewrite AddFeature_cases, Hf1, Hn, Hex1. }
  destruct (Measurement.vector_empty values) eqn:Hv.
  { split; [done|]. destruct r as [[]|e|]; [|done..].
    by rewrite AddFeature_cases, Hf1, Hn, Hex1, Hv. }
  rewrite AddFeature__returns, AddObjectIDs_cases.
  replace (Measurement.IsForged _) with false
    by (symmetry; apply IsForged_false; simpl; by apply IsForged_false).
  cbn [Measurement.objects_ Measurement.objectIndices_] in Hcols.
  rewrite (Hcols _ _ _ _).
  destruct r as [[]|e|]; [|done..].
  rewrite AddFeature_cases, Hf1, Hn, Hex1, Hv, AddFeature__returns.
  by rewrite Hfs, Hvs, Hfi, Hd.
Qed.

(** * Further properties of the registry *)

Lemma registry_indexed_empty : registry_indexed MeasurementTool.empty.
Proof.
  intros name index. simpl. rewrite lookup_empty. split; [done|].
  intros (f & Hf & _). by rewrite lookup_nil in Hf.
Qed.

Lemma registry_indexed_Register feature tool tool' :
  registry_indexed tool ->
  MeasurementTool.Register feature tool = (Ok tt, tool') ->
  registry_indexed tool'.
Proof.
  intros Hix. rewrite Register_cases.
  destruct (MeasurementTool.Exists tool (feature_name feature)) eqn:Hex; [by intros [= <-]|].
  intros [= <-] name index. unfold MeasurementTool.Exists in Hex.
  apply map_count_false in Hex. simpl. unfold map_emplace. rewrite Hex.
  destruct (decide (name = feature_name feature)) as [->|Hne].
  - rewrite lookup_insert_eq. split.
    + intros [= <-]. exists feature. unfold Word.size. rewrite Nat2N.id.
      by rewrite list_lookup_middle.
    + intros (f & Hl & Hf).
      destruct (decide (N.to_nat index < length (MeasurementTool.features_ tool))%nat)
        as [Hlt|Hge].
      * rewrite lookup_app_l in Hl by done.
        assert (MeasurementTool.featureIndices_ tool !! feature_name feature = Some index)
          as E by (apply Hix; eauto).
        congruence.
      * apply lookup_lt_Some in Hl. rewrite length_app in Hl. simpl in Hl.
        f_equal. unfold Word.size. lia.
  - rewrite lookup_insert_ne by done. rewrite (Hix name index). split.
    + intros (f & Hl & Hf). exists f. split; [|done]. by apply lookup_app_l_Some.
    + intros (f & Hl & Hf). exists f. split; [|done].
      apply lookup_app_Some in Hl as [Hl|[_ Hl]]; [done|].
      destruct (N.to_nat index - length (MeasurementTool.features_ tool))%nat;
        simpl in Hl; [|done].
      injection Hl as <-. congruence.
Qed.

Lemma register_all_indexed features : forall tool tool',
  registry_indexed tool ->
  register_all features tool = (Ok tt, tool') ->
  registry_indexed tool'.
Proof.
  unfold register_all.
  induction features as [|f fs IH]; intros tool tool' Hix; simpl.
  - by intros [= <-].
  - cbv [mbind Method_bind].
    destruct (MeasurementTool.Register f tool) as [[[]|e|] tool1] eqn:Hreg; [|done..].
    apply IH. by eapply registry_indexed_Register.
Qed.

(** X16: in a registry built by [Register] calls, [Index( name )] returns
    the position of the instance of that name in the registry, and that
    position only; it throws "Feature name not known" exactly when
    [Exists( name )] is false, which is exactly when no feature of that name
    was registered. *)
Theorem Register_then_Index (features : list Feature.Pointer) (tool : MeasurementTool.t)
    (name : string) :
  register_all features MeasurementTool.empty = (Ok tt, tool) ->
  (MeasurementTool.Exists tool name = true <-> name ∈ (feature_name <$> features)) /\
  (forall index,
     MeasurementTool.Index tool name = Ok index <->
     exists f, MeasurementTool.features_ tool !! N.to_nat index = Some f /\
               feature_name f = name) /\
  (forall index,
     MeasurementTool.Index tool name = Ok index ->
     exists info, MeasurementTool.Features tool !! N.to_nat index = Some info /\
                  Feature.Information.name info = name) /\
  (MeasurementTool.Exists tool name = false <->
   MeasurementTool.Index tool name = Throw (FeatureNameNotKnown name)).
Proof.
  intros Hrun.
  pose proof (register_all_indexed features _ _ registry_indexed_empty Hrun) as Hix.
  destruct (register_all_from features _ registry_agree_empty) as (tool1 & Hrun1 & Hfs & Hag).
  rewrite Hrun in Hrun1. injection Hrun1 as <-. simpl in Hfs.
  assert (Hiff : forall index,
            MeasurementTool.Index tool name = Ok index <->
            exists f, MeasurementTool.features_ tool !! N.to_nat index = Some f /\
                      feature_name f = name).
  { intros index. rewrite <- (Hix name index). unfold MeasurementTool.Index.
    destruct (MeasurementTool.featureIndices_ tool !! name); split; congruence. }
  split_and!.
  - rewrite (Hag name), Hfs. split.
    + intros Hin. eapply elem_of_sublist; [exact Hin|].
      apply fmap_sublist, surviving_sublist.
    + intros Hin. apply surviving_names; [done|]. apply not_elem_of_nil.
  - exact Hiff.
  - intros index (f & Hf & Hname)%Hiff. exists (Feature.Base.information f).
    rewrite Features_fmap, list_lookup_fmap, Hf. done.
  - unfold MeasurementTool.Exists, MeasurementTool.Index. rewrite map_count_false.
    destruct (MeasurementTool.featureIndices_ tool !! name); split; congruence.
Qed.

(** X17: [Register] never throws.  Afterwards the name of the feature
    exists, registering the same feature again changes nothing, and the
    answers of [Exists] and [Index] for every other name are as before; if
    the name was not known, the feature is the last of the registry and
    [Index] of its name is the former number of features. *)
Theorem Register_outcome (feature : Feature.Pointer) (tool : MeasurementTool.t) :
  exists tool',
    MeasurementTool.Register feature tool = (Ok tt, tool') /\
    MeasurementTool.Exists tool' (feature_name feature) = true /\
    MeasurementTool.Register feature tool' = (Ok tt, tool') /\
    (forall other, other <> feature_name feature ->
       MeasurementTool.Exists tool' other = MeasurementTool.Exists tool other /\
       MeasurementTool.Index tool' other = MeasurementTool.Index tool other) /\
    (MeasurementTool.Exists tool (feature_name feature) = true -> tool' = tool) /\
    (MeasurementTool.Exists tool (feature_name feature) = false ->
       MeasurementTool.features_ tool' = MeasurementTool.features_ tool ++ [feature] /\
       MeasurementTool.Index tool' (feature_name feature) =
         Ok (Word.size (MeasurementTool.features_ tool)) /\
       MeasurementTool.Features tool' =
         MeasurementTool.Features tool ++ [Feature.Base.information feature]).
Proof.
  rewrite Register_cases.
  destruct (MeasurementTool.Exists tool (feature_name feature)) eqn:Hex.
  - exists tool. rewrite Register_cases, Hex. by split_and!.
  - eexists. split; [reflexivity|].
    set (tool' := MeasurementTool.mk _ _).
    pose proof Hex as Hnew. unfold MeasurementTool.Exists in Hnew.
    apply map_count_false in Hnew.
    assert (Hmap : forall other,
              MeasurementTool.featureIndices_ tool' !! other =
              if decide (feature_name feature = other)
              then Some (Word.size (MeasurementTool.features_ tool))
              else MeasurementTool.featureIndices_ tool !! other).
    { intros other. unfold tool', map_emplace. simpl. rewrite Hnew. apply lookup_insert. }
    assert (Hex' : MeasurementTool.Exists tool' (feature_name feature) = true).
    { unfold MeasurementTool.Exists. rewrite map_count_true, Hmap, decide_True; done. }
    split_and!.
    + done.
    + by rewrite Register_cases, Hex'.
    + intros other Hne. unfold MeasurementTool.Exists, MeasurementTool.Index, map_count.
      rewrite Hmap, decide_False; done.
    + done.
    + intros _. split; [done|]. split.
      * unfold MeasurementTool.Index. by rewrite Hmap, decide_True.
      * rewrite !Features_fmap. unfold tool'. simpl. by rewrite fmap_app.
Qed.

(** * Further properties of the mass feature *)

Lemma Initialize_cases label grey nObjects self :
  FeatureMass.Initialize label grey nObjects self =
  if FeatureMass.IsScalar grey
  then (Ok [Feature.ValueInformation.mk "Mass" ""],
        FeatureMass.mk (FeatureMass.Dimensionality label)
          (replicate (N.to_nat nObjects) 0%float))
  else (Throw NOT_SCALAR, self).
Proof.
  unfold FeatureMass.Initialize.
  cbv [mbind Method_bind DIP_THROW_IF modify mret Method_ret].
  destruct (FeatureMass.IsScalar grey); [|done].
  unfold FeatureMass.set_data_. simpl. by rewrite resize_nil.
Qed.

Lemma mass_run label grey lines objectIndices nObjects self :
  FeatureMass.IsScalar grey = true ->
  (forall line, line ∈ lines -> line.1 <> [] /\ length line.1 = length line.2) ->
  (forall id row, objectIndices !! id = Some row -> row < nObjects) ->
  (FeatureMass.Initialize label grey nObjects ;; scan lines objectIndices) self =
  (Ok tt,
   FeatureMass.mk (FeatureMass.Dimensionality label)
     (foldl (accumulate objectIndices) (replicate (N.to_nat nObjects) 0%float)
        (pixels lines))).
Proof.
  intros Hscalar Hlines Hrange. cbv [mbind Method_bind].
  rewrite Initialize_cases, Hscalar. rewrite scan_spec; [done|done|].
  intros id row Hrow. simpl. unfold Word.size. rewrite length_replicate.
  apply Hrange in Hrow. lia.
Qed.

(** X18: [Initialize] throws [E::NOT_SCALAR] and leaves the feature as it
    was when the grey image is not scalar; otherwise it returns one value
    named "Mass" and, whatever the feature held before, leaves [nObjects]
    accumulators at zero, so that [Finish] of any row right after writes
    0.  After [Cleanup], [Finish] of any row is an access past the end of
    the accumulators. *)
Theorem Initialize_Cleanup (label grey : FeatureMass.Image) (nObjects : Word.uint)
    (self : FeatureMass.t) :
  (FeatureMass.IsScalar grey = false ->
     FeatureMass.Initialize label grey nObjects self = (Throw NOT_SCALAR, self)) /\
  (FeatureMass.IsScalar grey = true ->
     exists self',
       FeatureMass.Initialize label grey nObjects self =
         (Ok [Feature.ValueInformation.mk "Mass" ""], self') /\
       FeatureMass.nD_ self' = FeatureMass.Dimensionality label /\
       Word.size (FeatureMass.data_ self') = nObjects /\
       forall row output table,
         FeatureMass.Finish self' row output table =
         if row <? nObjects then Measurement.store output 0%float table
         else (Undefined, table)) /\
  (forall row output table,
     FeatureMass.Finish (FeatureMass.Cleanup self).2 row output table = (Undefined, table)).
Proof.
  rewrite Initialize_cases. split_and!.
  - by intros ->.
  - intros ->. eexists. split; [reflexivity|]. simpl. split; [done|]. split.
    + unfold Word.size. rewrite length_replicate. lia.
    + intros row output table. unfold FeatureMass.Finish, vector_at. simpl.
      cbv [mbind Method_bind call]. destruct (row <? nObjects) eqn:Hrow.
      * apply N.ltb_lt in Hrow.
        by rewrite (proj2 (lookup_replicate _ _ _ _)) by (split; [done|lia]).
      * apply N.ltb_ge in Hrow.
        rewrite (proj2 (lookup_ge_None _ _)); [done|]. rewrite length_replicate. lia.
  - intros row output table. unfold FeatureMass.Finish, FeatureMass.Cleanup, vector_at.
    by cbv [mbind Method_bind call modify].
Qed.

(** X19: where the lines of the image break does not matter to the mass:
    two sequences of scanlines that present the same pixels in the same
    order leave the same accumulators (the label and address the loop keeps
    from pixel to pixel are only a short cut). *)
Theorem scan_line_breaks (lines lines' : list scanline)
    (objectIndices : FeatureMass.ObjectIdToIndexMap) (self : FeatureMass.t) :
  (forall line, line ∈ lines -> line.1 <> [] /\ length line.1 = length line.2) ->
  (forall line, line ∈ lines' -> line.1 <> [] /\ length line.1 = length line.2) ->
  (forall id row, objectIndices !! id = Some row ->
     row < Word.size (FeatureMass.data_ self)) ->
  pixels lines = pixels lines' ->
  scan lines objectIndices self = scan lines' objectIndices self /\
  exists self', scan lines objectIndices self = (Ok tt, self') /\
                FeatureMass.nD_ self' = FeatureMass.nD_ self /\
                length (FeatureMass.data_ self') = length (FeatureMass.data_ self).
Proof.
  intros Hlines Hlines' Hrange Hpixels.
  rewrite !scan_spec by done. rewrite Hpixels. split; [done|].
  eexists. split; [reflexivity|]. destruct self; simpl.
  by rewrite foldl_accumulate_length.
Qed.

(** X20: an object whose identifier labels no pixel of the image has mass
    zero: after [Initialize] and all scanlines, [Finish] of its row writes
    0. *)
Theorem Mass_of_absent_object (label grey : FeatureMass.Image) (lines : list scanline)
    (objectIndices : FeatureMass.ObjectIdToIndexMap) (nObjects : Word.uint)
    (self : FeatureMass.t) (objectID row : Word.uint) :
  FeatureMass.IsScalar grey = true ->
  (forall line, line ∈ lines -> line.1 <> [] /\ length line.1 = length line.2) ->
  (forall id row, objectIndices !! id = Some row -> row < nObjects) ->
  (forall id1 id2 row,
     objectIndices !! id1 = Some row -> objectIndices !! id2 = Some row -> id1 = id2) ->
  objectIndices !! objectID = Some row ->
  (forall p, p ∈ pixels lines -> p.1 <> objectID) ->
  exists self',
    (FeatureMass.Initialize label grey nObjects ;; scan lines objectIndices) self
      = (Ok tt, self') /\
    forall output table,
      FeatureMass.Finish self' row output table = Measurement.store output 0%float table.
Proof.
  intros Hscalar Hlines Hrange Hinj Hrow Habsent.
  eexists. split; [by apply mass_run|].
  intros output table. unfold FeatureMass.Finish. cbv [mbind Method_bind call].
  simpl FeatureMass.data_.
  assert (vector_at
            (foldl (accumulate objectIndices) (replicate (N.to_nat nObjects) 0%float)
               (pixels lines)) row = Ok 0%float) as ->; [|done].
  apply vector_at_Ok.
  rewrite (accumulate_lookup objectIndices _ _ row 0%float).
  - assert (accumulated objectIndices row (pixels lines) = []) as ->; [|done].
    unfold accumulated.
    destruct (filter _ (pixels lines)) as [|p ps] eqn:E; [done|]. exfalso.
    assert (p ∈ p :: ps) as Hp by left. rewrite <- E in Hp.
    apply list_elem_of_filter in Hp as [[_ Hprow] Hp].
    apply (Habsent p Hp). by eapply Hinj.
  - apply lookup_replicate. split; [done|]. apply Hrange in Hrow. lia.
Qed.

(** X21: the mass reaches the table.  For a forged reachable table whose
    cell count fits [dip::uint], with the table's own identifier→row map
    handed to [ScanLine] and its number of objects to [Initialize], [Finish]
    of the row of an object, given the address of the first value of a
    feature for that object, returns, and the value then read through
    [msr[ objectID ][ name ][ 0 ]] is the sum of the grey values of the
    pixels labelled with the object's identifier. *)
Theorem Mass_into_table (m : Measurement.t) (name : string) (objectID count : Word.uint)
    (label grey : FeatureMass.Image) (lines : list scanline) (self : FeatureMass.t) :
  reachable m ->
  Measurement.IsForged m = true ->
  Measurement.NumberOfValues m * Measurement.NumberOfObjects m < Word.modulus ->
  Measurement.ObjectExists m objectID = true ->
  0 < objectID ->
  Measurement.NumberOfValues_of m name = Ok count ->
  FeatureMass.IsScalar grey = true ->
  (forall line, line ∈ lines -> line.1 <> [] /\ length line.1 = length line.2) ->
  exists self' row address m',
    (FeatureMass.Initialize label grey (Measurement.NumberOfObjects m) ;;
     scan lines (Measurement.objectIndices_ m)) self = (Ok tt, self') /\
    Measurement.ObjectIndex m objectID = Ok row /\
    Measurement.feature_route m name objectID 0 = Ok address /\
    FeatureMass.Finish self' row address m = (Ok tt, m') /\
    schema m' = schema m /\
    (p ← Measurement.object_route m' objectID name 0; Measurement.load m' p)
      = Ok (mass_of objectID (pixels lines)).
Proof.
  intros Hreach Hforged Hfits Hobj Hpos Hcount Hscalar Hlines.
  apply reachable_invariant in Hreach.
  destruct (valid_cell m objectID name count Hreach Hobj Hcount)
    as (row & index & f & Hrow & Hrow' & Hindex & Hf & Hname & Hn & Hle).
  assert (Hcountpos : 0 < count).
  { rewrite <- Hn. eapply (inv_nonempty m Hreach). by eapply list_elem_of_lookup_2. }
  assert (Hrange : forall id r, Measurement.objectIndices_ m !! id = Some r ->
                                r < Measurement.NumberOfObjects m).
  { intros id r Hr. apply (inv_objects m Hreach), lookup_lt_Some in Hr.
    unfold Measurement.NumberOfObjects, Word.size. lia. }
  destruct (route_addresses m objectID name 0 row index f Hreach Hforged Hfits Hrow Hindex Hf)
    as [Hfr _].
  assert (Hdata : Word.size (Measurement.data_ m) =
                  Measurement.NumberOfValues m * Measurement.NumberOfObjects m).
  { destruct (inv_data m Hreach) as [Hd|Hd]; [apply IsForged_false in Hd; congruence|].
    rewrite Hd. by apply mul_exact. }
  set (address := row * Measurement.NumberOfValues m
                  + Measurement.FeatureInfo.startColumn f + 0) in *.
  assert (Hin : address < Word.size (Measurement.data_ m)).
  { rewrite Hdata. pose proof (Hrange _ _ Hrow). unfold address. nia. }
  set (x := mass_of objectID (pixels lines)).
  set (m' := Measurement.set_data_
               (fun _ => <[N.to_nat address := x]> (Measurement.data_ m)) m).
  assert (Hstore : Measurement.store address x m = (Ok tt, m')).
  { rewrite store_cases. by rewrite (proj2 (N.ltb_lt _ _) Hin). }
  assert (Hinv' : invariant m') by (by eapply (invariant_exec (OpStore address x))).
  assert (Hforged' : Measurement.IsForged m' = true)
    by (by destruct (exec_forged (OpStore address x) m _ _ Hforged Hstore)).
  eexists _, row, address, m'. split; [by apply mass_run|].
  split; [unfold Measurement.ObjectIndex; by rewrite Hrow|]. split; [done|].
  split.
  { unfold FeatureMass.Finish. cbv [mbind Method_bind call]. simpl FeatureMass.data_.
    assert (vector_at
              (foldl (accumulate (Measurement.objectIndices_ m))
                 (replicate (N.to_nat (Measurement.NumberOfObjects m)) 0%float)
                 (pixels lines)) row = Ok x) as ->; [|done].
    apply vector_at_Ok.
    rewrite (accumulate_lookup _ _ _ row 0%float).
    - assert (accumulated (Measurement.objectIndices_ m) row (pixels lines) =
              filter (fun p => p.1 = objectID) (pixels lines)) as ->; [|done].
      unfold accumulated. apply list_filter_iff. intros p. split.
      + intros [_ Hp]. apply (inv_objects m Hreach) in Hp. congruence.
      + intros ->. done.
    - apply lookup_replicate. split; [done|]. pose proof (Hrange _ _ Hrow). lia. }
  split; [by destruct m|].
  destruct (route_addresses m' objectID name 0 row index f Hinv' Hforged') as [_ ->];
    try done; try (by destruct m).
  cbn [mbind Outcome_bind]. unfold Measurement.load. apply vector_at_Ok.
  unfold m'. destruct m; simpl in *. apply list_lookup_insert_eq.
  unfold Word.size in Hin. fold address. lia.
Qed.

(** ** Pixels that belong to no object of the table *)

Lemma ScanLine_body_background pixel grey objectIndices objectID self :
  background objectIndices pixel ->
  background objectIndices objectID ->
  exists objectID',
    FeatureMass.ScanLine_body pixel grey objectIndices objectID None self =
      (Ok (objectID', None), self) /\
    background objectIndices objectID'.
Proof.
  intros Hpixel Hid. unfold FeatureMass.ScanLine_body.
  destruct (0 <? pixel) eqn:Hpos; [|by exists objectID].
  apply N.ltb_lt in Hpos. destruct Hpixel as [->|Hpixel]; [lia|].
  destruct (pixel =? objectID) eqn:Heq; simpl negb; cbv iota.
  - by exists objectID.
  - cbv zeta. rewrite Hpixel. exists pixel. split; [done|by right].
Qed.

Lemma ScanLine_loop_background label : forall grey objectIndices objectID self,
  label <> [] ->
  Forall (background objectIndices) label ->
  background objectIndices objectID ->
  FeatureMass.ScanLine_loop label grey objectIndices objectID None self = (Ok tt, self).
Proof.
  induction label as [|pixel label IH]; intros grey objectIndices objectID self Hne Hall Hid;
    [done|].
  apply Forall_cons in Hall as [Hpixel Hall].
  destruct (ScanLine_body_background pixel grey objectIndices objectID self Hpixel Hid)
    as (objectID' & Hbody & Hid').
  cbn [FeatureMass.ScanLine_loop]. cbv [mbind Method_bind]. rewrite Hbody.
  destruct label as [|pixel' label]; [done|].
  cbn [fst snd]. by apply IH.
Qed.

(** X25: a scanline without a pixel of an object of the table leaves the
    accumulators as they are.  When every label of the line is 0 or is not
    a key of [objectIndices], [ScanLine] returns with the feature
    unchanged, and it does not read the grey values: the outcome is the
    same whatever the grey line holds, also when it is shorter than the
    label line or empty. *)
Theorem ScanLine_background (label : list Word.uint32) (grey : list dfloat)
    (coordinates : list Word.uint) (dimension : Word.uint)
    (objectIndices : FeatureMass.ObjectIdToIndexMap) (self : FeatureMass.t) :
  label <> [] ->
  (forall pixel, pixel ∈ label -> pixel = 0 \/ objectIndices !! pixel = None) ->
  FeatureMass.ScanLine label grey coordinates dimension objectIndices self = (Ok tt, self) /\
  FeatureMass.ScanLine label [] coordinates dimension objectIndices self = (Ok tt, self).
Proof.
  intros Hne Hall. apply Forall_forall in Hall. unfold FeatureMass.ScanLine.
  split; (apply ScanLine_loop_background; [done|done|by left]).
Qed.

Lemma ScanLine_loop_undefined before after pixel row objectIndices self :
  Forall (background objectIndices) before ->
  0 < pixel ->
  objectIndices !! pixel = Some row ->
  forall grey objectID,
    background objectIndices objectID ->
    Word.size (FeatureMass.data_ self) <= row \/ (length grey <= length before)%nat ->
    FeatureMass.ScanLine_loop (before ++ pixel :: after) grey objectIndices objectID None self
      = (Undefined, self).
Proof.
  intros Hbefore Hpos Hrow.
  induction Hbefore as [|p before Hp _ IH]; intros grey objectID Hid Hbad.
  - cbn [app FeatureMass.ScanLine_loop]. cbv [mbind Method_bind].
    assert (Hbody : FeatureMass.ScanLine_body pixel grey objectIndices objectID None self =
                    (Undefined, self)).
    { unfold FeatureMass.ScanLine_body.
      rewrite (proj2 (N.ltb_lt _ _) Hpos).
      assert (Hne : (pixel =? objectID) = false).
      { apply N.eqb_neq. intros <-. destruct Hid as [->|Hnone]; [lia|congruence]. }
      rewrite Hne. simpl negb. cbv iota zeta. rewrite Hrow.
      cbv [mbind Method_bind call modify mret Method_ret FeatureMass.deref]; simpl.
      unfold vector_at.
      destruct (FeatureMass.data_ self !! N.to_nat row) as [current|] eqn:Hcur; [|done].
      destruct Hbad as [Hrange|Hgrey].
      - apply lookup_lt_Some in Hcur. unfold Word.size in Hrange. lia.
      - destruct grey; [done|simpl in Hgrey; lia]. }
    by rewrite Hbody.
  - cbn [app FeatureMass.ScanLine_loop]. cbv [mbind Method_bind].
    destruct (ScanLine_body_background p grey objectIndices objectID self Hp Hid)
      as (objectID' & Hbody & Hid').
    rewrite Hbody.
    destruct (before ++ pixel :: after) as [|p' rest] eqn:Hrest;
      [by destruct before|].
    cbn [fst snd]. apply IH; [done|].
    destruct Hbad as [Hrange|Hgrey]; [by left|right].
    destruct grey; simpl in *; lia.
Qed.

(** X26: what [ScanLine] needs of its arguments.  At the first pixel of a
    line that belongs to an object of the table, the call has no defined
    behaviour when the row of the object lies past the end of [data_] (the
    map holds an index that [Initialize] made no room for), or when the
    grey line has ended before that pixel; nothing has been written by
    then. *)
Theorem ScanLine_undefined (before after : list Word.uint32) (pixel : Word.uint32)
    (grey : list dfloat) (coordinates : list Word.uint) (dimension row : Word.uint)
    (objectIndices : FeatureMass.ObjectIdToIndexMap) (self : FeatureMass.t) :
  (forall p, p ∈ before -> p = 0 \/ objectIndices !! p = None) ->
  0 < pixel ->
  objectIndices !! pixel = Some row ->
  Word.size (FeatureMass.data_ self) <= row \/ (length grey <= length before)%nat ->
  FeatureMass.ScanLine (before ++ pixel :: after) grey coordinates dimension
    objectIndices self = (Undefined, self).
Proof.
  intros Hbefore Hpos Hrow Hbad. apply Forall_forall in Hbefore.
  unfold FeatureMass.ScanLine.
  apply (ScanLine_loop_undefined before after pixel row); try done. by left.
Qed.

(** * Properties of [CreateOffsetsArray] *)

(** ** Arithmetic that stays within the word *)

Lemma sub_exact (a b : N) : b <= a -> a < Word.modulus -> Offsets.sub a b = a - b.
Proof.
  unfold Offsets.sub, Word.modulus. intros Hle Hlt.
  rewrite Z.mod_small by lia. lia.
Qed.

Lemma sub_wraps (a b : N) :
  a < b -> b <= Word.modulus -> Offsets.sub a b = Word.modulus - (b - a).
Proof.
  unfold Offsets.sub, Word.modulus. intros Hlt Hle.
  rewrite <- (Z.mod_add _ 1) by lia. rewrite Z.mod_small by lia. lia.
Qed.

Lemma sub_bounded (a b : N) : Offsets.sub a b < Word.modulus.
Proof.
  unfold Offsets.sub, Word.modulus.
  pose proof (Z.mod_pos_bound (Z.of_N a - Z.of_N b) (Z.of_N (2 ^ 64))). lia.
Qed.

Lemma to_sint_exact (c : N) : c < 2 ^ 63 -> Offsets.to_sint c = Z.of_N c.
Proof.
  intros Hc. unfold Offsets.to_sint, Word.wrap, Word.modulus.
  rewrite N.mod_small by lia. by rewrite (proj2 (N.ltb_lt _ _) Hc).
Qed.

Lemma signed_exact (z : Z) :
  (- 2 ^ 63 <= z < 2 ^ 63)%Z -> Offsets.signed z = Offsets.Returned z.
Proof.
  intros [Hlo Hhi]. unfold Offsets.signed.
  by rewrite (proj2 (Z.leb_le _ _) Hlo), (proj2 (Z.ltb_lt _ _) Hhi).
Qed.

(** ** Offsets and their bound *)

Lemma offset_cons c coords s strides :
  offset (c :: coords) (s :: strides) = (Z.of_N c * s + offset coords strides)%Z.
Proof. reflexivity. Qed.

Lemma extent_nonneg sizes strides : (0 <= extent sizes strides)%Z.
Proof.
  revert strides. induction sizes as [|n sizes IH]; intros [|s strides]; simpl; try lia.
  specialize (IH strides). nia.
Qed.

Lemma offset_extent coords sizes strides :
  Forall2 N.le coords sizes -> (Z.abs (offset coords strides) <= extent sizes strides)%Z.
Proof.
  intros H. revert strides.
  induction H as [|c n coords sizes Hc _ IH]; intros [|s strides]; simpl; try lia.
  specialize (IH strides).
  pose proof (Z.abs_triangle (Z.of_N c * s) (offset coords strides)) as Htri.
  rewrite Z.abs_mul in Htri. nia.
Qed.

Lemma dot_spec coords sizes strides ptr :
  Forall2 (fun c n => c <= n /\ n < 2 ^ 63) coords sizes ->
  length strides = length coords ->
  (Z.abs ptr + extent sizes strides < 2 ^ 63)%Z ->
  Offsets.dot coords strides ptr = Offsets.Returned (ptr + offset coords strides)%Z.
Proof.
  intros H. revert strides ptr.
  induction H as [|c n coords sizes [Hc Hn] _ IH]; intros [|s strides] ptr Hlen Hfit;
    try done.
  - simpl. by rewrite Z.add_0_r.
  - cbn [Offsets.dot]. rewrite offset_cons. cbn [extent] in Hfit.
    pose proof (extent_nonneg sizes strides) as Hpos.
    assert (Hterm : (Z.abs (Z.of_N c * s) <= Z.of_N n * Z.abs s)%Z)
      by (rewrite Z.abs_mul; nia).
    rewrite to_sint_exact by lia.
    rewrite signed_exact by lia. cbn [mbind Offsets.Result_bind].
    rewrite signed_exact by lia. cbn [mbind Offsets.Result_bind].
    rewrite IH; [by rewrite Z.add_assoc| by simplify_eq/= | lia].
Qed.

(** ** The successor of a coordinate vector *)

Lemma count_from_length first count : length (count_from first count) = count.
Proof. revert first. induction count as [|count IH]; intros first; simpl; by rewrite ?IH. Qed.

Lemma within_ones rs :
  Forall (fun r => 1 <= r) rs -> within (replicate (length rs) 1) rs.
Proof. induction 1; constructor; [lia|done]. Qed.

Lemma next_coords_within v rs v' :
  within v rs -> next_coords v rs = Some v' -> within v' rs.
Proof.
  intros H. revert v'. induction H as [|c r v rs [Hc1 Hc2] Hv IH]; intros v'; [done|].
  cbn [next_coords]. destruct (N.ltb_spec c r) as [Hlt|Hge].
  - intros [= <-]. constructor; [lia|done].
  - destruct (next_coords v rs) as [v''|]; [|done].
    intros [= <-]. constructor; [lia|by apply IH].
Qed.

Lemma upward_head v rs : within v rs -> upward v rs = v :: tail (upward v rs).
Proof.
  destruct 1 as [|c r v rs [Hc1 Hc2] Hv]; [done|].
  cbn [upward]. by replace (N.to_nat (r + 1 - c)) with (S (N.to_nat (r - c))) by lia.
Qed.

Lemma upward_next v rs :
  within v rs ->
  upward v rs = v :: match next_coords v rs with
                     | Some v' => upward v' rs
                     | None => []
                     end.
Proof.
  induction 1 as [|c r v rs [Hc1 Hc2] Hv IH]; [done|].
  cbn [next_coords]. destruct (N.ltb_spec c r) as [Hlt|Hge].
  - cbn [upward].
    by replace (N.to_nat (r + 1 - c)) with (S (N.to_nat (r + 1 - (c + 1)))) by lia.
  - assert (c = r) as -> by lia.
    destruct (next_coords v rs) as [v'|] eqn:Hnext; cbn [fmap option_fmap option_map].
    + pose proof (next_coords_within _ _ _ Hv Hnext) as Hv'.
      cbn [upward]. rewrite IH. cbn [tail].
      rewrite (upward_head v' rs Hv') at 1. rewrite bind_cons.
      replace (N.to_nat (r + 1 - r)) with 1%nat by lia.
      by replace (r + 1 - 1) with r by lia.
    + cbn [upward]. rewrite IH. cbn [tail].
      by replace (N.to_nat (r + 1 - r)) with 1%nat by lia.
Qed.

Lemma upward_ones rs :
  Forall (fun r => 1 <= r) rs -> upward (replicate (length rs) 1) rs = grid rs.
Proof.
  induction 1 as [|r rs Hr Hrs IH]; [done|].
  cbn [length replicate upward grid]. rewrite <- IH.
  set (u := upward (replicate (length rs) 1) rs).
  assert (Hu : u = replicate (length rs) 1 :: tail u)
    by (by apply upward_head, within_ones).
  transitivity ((replicate (length rs) 1 :: tail u) ≫=
                fun t => (fun c => c :: t) <$> count_from 1 (N.to_nat r));
    [|by rewrite <- Hu].
  rewrite bind_cons. by replace (r + 1 - 1) with r by lia.
Qed.

Lemma advance_spec v ns :
  within v (sweep <$> ns) ->
  Forall (fun n => 2 <= n < 2 ^ 63) ns ->
  Offsets.advance v ns =
    Offsets.Returned (match next_coords v (sweep <$> ns) with
                      | Some v' => (v', true)
                      | None => (replicate (length v) 1, false)
                      end).
Proof.
  intros H. apply Forall2_fmap_r in H.
  induction H as [|c n v ns [Hc1 Hc2] _ IH]; intros Hns; [done|].
  apply Forall_cons in Hns as [[Hn1 Hn2] Hns].
  rewrite fmap_cons. cbn [Offsets.advance next_coords].
  assert (Hincr : Word.incr c = c + 1).
  { unfold Word.incr, Word.wrap, Word.modulus. apply N.mod_small.
    unfold sweep in Hc2. lia. }
  rewrite Hincr, sub_exact by (unfold Word.modulus; lia).
  assert (Heq : (c + 1 <? n - 1) = (c <? sweep n)).
  { unfold sweep in *.
    destruct (N.ltb_spec (c + 1) (n - 1)), (N.ltb_spec c (N.max 1 (n - 2)));
      try done; lia. }
  rewrite Heq. destruct (c <? sweep n); [done|].
  rewrite IH by done. cbn [mbind Offsets.Result_bind].
  by destruct (next_coords v (sweep <$> ns)).
Qed.

(** ** Counting *)

Lemma grid_size rs : Word.size (grid rs) = volume rs.
Proof.
  unfold Word.size. induction rs as [|r rs IH]; [done|].
  cbn [grid volume foldr]. fold (volume rs). rewrite <- IH. clear IH.
  induction (grid rs) as [|t ts IHts]; [simpl; lia|].
  rewrite bind_cons, length_app, length_fmap, count_from_length. simpl length. lia.
Qed.

Lemma volume_app rs rs' : volume (rs ++ rs') = volume rs * volume rs'.
Proof.
  unfold volume. induction rs as [|r rs IH]; simpl; [lia|]. rewrite IH. lia.
Qed.

Lemma volume_mono (f g : N -> N) ns :
  Forall (fun n => f n <= g n) ns -> volume (f <$> ns) <= volume (g <$> ns).
Proof.
  induction 1 as [|n ns Hn _ IH]; [done|].
  rewrite !fmap_cons. cbn [volume foldr]. by apply N.mul_le_mono.
Qed.

Lemma volume_pos rs : Forall (fun r => 1 <= r) rs -> 1 <= volume rs.
Proof. induction 1; cbn [volume foldr]; [done|]. fold (volume l). nia. Qed.

Lemma noInd_mod ns a :
  a < Word.modulus ->
  fold_left (fun noInd size => Word.mul noInd (Offsets.sub size 2)) ns a =
    Word.wrap (a * volume ((fun size => Offsets.sub size 2) <$> ns)).
Proof.
  revert a. induction ns as [|n ns IH]; intros a Ha.
  - simpl. unfold Word.wrap. rewrite N.mul_1_r. by rewrite N.mod_small.
  - rewrite fmap_cons. cbn [fold_left volume foldr].
    fold (volume ((fun size => Offsets.sub size 2) <$> ns)).
    rewrite IH by (by apply N.mod_lt).
    unfold Word.mul, Word.wrap. rewrite N.Div0.mul_mod_idemp_l. f_equal. lia.
Qed.

(** ** The inner loops and the outer loop *)

Lemma within_le t ns :
  Forall (fun n => 2 <= n < 2 ^ 63) ns -> within t (sweep <$> ns) ->
  Forall2 (fun c n => c <= n /\ n < 2 ^ 63) t ns.
Proof.
  intros Hns Ht. apply Forall2_fmap_r in Ht.
  induction Ht as [|c n t ns [Hc1 Hc2] _ IH]; [done|].
  apply Forall_cons in Hns as [[Hn1 Hn2] Hns].
  constructor; [unfold sweep in Hc2; lia|by apply IH].
Qed.

Section Traversal.

Variable max_size : N.

Lemma push_line_spec count c s strides rest acc :
  Word.size acc + N.of_nat count <= max_size ->
  (forall c', c <= c' <= c + N.of_nat count ->
              (Z.abs (Z.of_N c' * s + rest) < 2 ^ 63)%Z) ->
  Offsets.push_line max_size count (s :: strides) (Z.of_N c * s + rest)%Z acc =
    Offsets.Returned
      (acc ++ ((fun c' => (Z.of_N c' * s + rest)%Z) <$> count_from c count)).
Proof.
  revert c acc. induction count as [|count IH]; intros c acc Hroom Hfit.
  - simpl. by rewrite app_nil_r.
  - cbn [Offsets.push_line]. unfold Offsets.push_back.
    assert (Hpush : (max_size <=? Word.size acc) = false) by (apply N.leb_gt; lia).
    rewrite Hpush. cbn [mbind Offsets.Result_bind Offsets.front].
    assert (Hnext : (Z.of_N c * s + rest + s = Z.of_N (c + 1) * s + rest)%Z) by lia.
    rewrite Hnext, signed_exact by (specialize (Hfit (c + 1)); lia).
    cbn [mbind Offsets.Result_bind].
    rewrite IH.
    + cbn [count_from]. rewrite fmap_cons. by rewrite <- app_assoc.
    + rewrite size_app. unfold Word.size at 2. simpl length. lia.
    + intros c' Hc'. apply Hfit. lia.
Qed.

Variables (n0 : N) (ns : list N) (s0 : Z) (ss : list Z).

Hypothesis first_size : 2 <= n0 < 2 ^ 63.
Hypothesis other_sizes : Forall (fun n => 2 <= n < 2 ^ 63) ns.
Hypothesis strides_size : length ss = length ns.
Hypothesis fits : (extent (n0 :: ns) (s0 :: ss) < 2 ^ 63)%Z.

Lemma within_sizes c t :
  c <= n0 -> within t (sweep <$> ns) ->
  Forall2 (fun c n => c <= n /\ n < 2 ^ 63) (c :: t) (n0 :: ns).
Proof using All.
  intros Hc Ht. constructor; [lia|]. apply within_le; [exact other_sizes|exact Ht].
Qed.

Lemma pixel_fits c t :
  c <= n0 -> within t (sweep <$> ns) ->
  (Z.abs (offset (c :: t) (s0 :: ss)) < 2 ^ 63)%Z.
Proof using All.
  intros Hc Ht.
  pose proof (offset_extent (c :: t) (n0 :: ns) (s0 :: ss)) as Hle.
  assert (Forall2 N.le (c :: t) (n0 :: ns)) as Hall.
  { eapply Forall2_impl; [by apply within_sizes|]. by intros ?? [? _]. }
  specialize (Hle Hall). lia.
Qed.

Lemma loop_spec (k : nat) : forall t acc fuel,
  within t (sweep <$> ns) ->
  length (upward t (sweep <$> ns)) = k ->
  Word.size acc + (n0 - 2) * N.of_nat k <= max_size ->
  (k <= fuel)%nat ->
  Offsets.loop max_size fuel (n0 :: ns) (s0 :: ss) (1 :: t) acc =
    Some (Offsets.Returned
            (acc ++ ((fun v => offset v (s0 :: ss)) <$>
                     (upward t (sweep <$> ns) ≫= fun t' =>
                        (fun c => c :: t') <$> count_from 1 (N.to_nat (n0 - 2)))))).
Proof using All.
  induction k as [|k IH]; intros t acc fuel Ht Hk Hroom Hfuel.
  { rewrite (upward_head _ _ Ht) in Hk. done. }
  destruct fuel as [|fuel]; [lia|].
  rewrite Nat2N.inj_succ, N.mul_succ_r in Hroom.
  rewrite (upward_next _ _ Ht) in Hk |- *. rewrite bind_cons, fmap_app.
  cbn [Offsets.loop].
  rewrite (dot_spec (1 :: t) (n0 :: ns) (s0 :: ss));
    [|apply within_sizes; [lia|done]
     |simpl; f_equal; rewrite strides_size; symmetry;
      apply Forall2_length in Ht; by rewrite length_fmap in Ht
     |simpl Z.abs; lia].
  cbn [mbind Offsets.Result_bind Offsets.front].
  rewrite Z.add_0_l, offset_cons.
  rewrite sub_exact by (unfold Word.modulus; lia).
  unfold Offsets.rounds.
  replace (n0 - 1 - 1) with (n0 - 2) by lia.
  rewrite push_line_spec; [|nia|].
  2: { intros c' Hc'. rewrite <- offset_cons. apply pixel_fits; [lia|done]. }
  cbn [mbind Offsets.Result_bind tail].
  rewrite advance_spec by done.
  cbn [mbind Offsets.Result_bind].
  assert (Hrow : (fun c' => (Z.of_N c' * s0 + offset t ss)%Z)
                   <$> count_from 1 (N.to_nat (n0 - 2)) =
                 (fun v => offset v (s0 :: ss))
                   <$> ((fun c => c :: t) <$> count_from 1 (N.to_nat (n0 - 2)))).
  { by rewrite <- list_fmap_compose. }
  rewrite Hrow.
  destruct (next_coords t (sweep <$> ns)) as [t'|] eqn:Hnext.
  - rewrite (IH t'); [by rewrite <- app_assoc|by eapply next_coords_within| | |lia].
    + simpl length in Hk. lia.
    + rewrite size_app. unfold Word.size at 2.
      rewrite !length_fmap, count_from_length. lia.
  - by rewrite app_nil_r.
Qed.

Lemma CreateOffsetsArray_sweeps fuel :
  Word.size (swept (n0 :: ns)) <= max_size ->
  (length (grid (sweep <$> ns)) <= fuel)%nat ->
  Offsets.CreateOffsetsArray max_size fuel (n0 :: ns) (s0 :: ss) =
    Some (Offsets.Returned ((fun v => offset v (s0 :: ss)) <$> swept (n0 :: ns))).
Proof using All.
  intros Hroom Hfuel.
  assert (Hranges : Forall (fun r => 1 <= r) (sweep <$> ns)).
  { apply Forall_fmap, Forall_forall. intros n _. unfold sweep. simpl. lia. }
  unfold swept in *. rewrite grid_size in Hroom. cbn [volume foldr] in Hroom.
  fold (volume (sweep <$> ns)) in Hroom.
  unfold Offsets.CreateOffsetsArray.
  rewrite noInd_mod by apply sub_bounded.
  rewrite sub_exact by (unfold Word.modulus; lia).
  assert (Hreserve : Offsets.reserve max_size
            (Word.wrap ((n0 - 2) * volume ((fun size => Offsets.sub size 2) <$> ns))) =
          Offsets.Returned tt).
  { unfold Offsets.reserve.
    assert ((fun size => Offsets.sub size 2) <$> ns = (fun size => size - 2) <$> ns) as ->.
    { apply Forall_fmap_ext_1. eapply Forall_impl; [exact other_sizes|].
      intros n [Hn1 Hn2]. apply sub_exact; unfold Word.modulus; lia. }
    pose proof (volume_mono (fun size => size - 2) sweep ns) as Hmono.
    assert (Forall (fun n => n - 2 <= sweep n) ns) as Hle
      by (apply Forall_forall; intros n _; unfold sweep; lia).
    specialize (Hmono Hle).
    pose proof (N.Div0.mod_le ((n0 - 2) * volume ((fun size => size - 2) <$> ns))
                  Word.modulus) as Hmod.
    unfold Word.wrap.
    assert (Hlt : (max_size <?
                   ((n0 - 2) * volume ((fun size => size - 2) <$> ns)) mod Word.modulus)
                  = false) by (apply N.ltb_ge; nia).
    by rewrite Hlt. }
  rewrite Hreserve. cbn [length replicate].
  assert (Hones : length ns = length (sweep <$> ns)) by (by rewrite length_fmap).
  rewrite Hones.
  rewrite (loop_spec (length (grid (sweep <$> ns)))).
  - rewrite upward_ones by done. done.
  - by apply within_ones.
  - by rewrite upward_ones.
  - pose proof (grid_size (sweep <$> ns)) as Hsize. unfold Word.size in *.
    simpl length. lia.
  - done.
Qed.

End Traversal.

(** ** The pixels of the grid *)

Lemma elem_of_count_from c first count :
  c ∈ count_from first count <-> first <= c < first + N.of_nat count.
Proof.
  revert first. induction count as [|count IH]; intros first; cbn [count_from].
  - rewrite elem_of_nil. lia.
  - rewrite elem_of_cons, IH. lia.
Qed.

Lemma elem_of_grid v rs : v ∈ grid rs <-> within v rs.
Proof.
  revert v. induction rs as [|r rs IH]; intros v; cbn [grid].
  - rewrite list_elem_of_singleton. split; [intros ->; constructor|by inversion 1].
  - rewrite list_elem_of_bind. split.
    + intros (t & Hv & Ht). apply list_elem_of_fmap in Hv as (c & -> & Hc).
      apply elem_of_count_from in Hc. constructor; [lia|by apply IH].
    + inversion 1 as [|c r' t rs' Hc Ht]; subst. exists t. split; [|by apply IH].
      apply list_elem_of_fmap. exists c. split; [done|].
      apply elem_of_count_from. lia.
Qed.

Lemma volume_zero rs : 0 ∈ rs -> volume rs = 0.
Proof.
  induction rs as [|r rs IH]; [by rewrite elem_of_nil|].
  rewrite elem_of_cons. cbn [volume foldr]. fold (volume rs).
  intros [<-|Hin]; [done|]. rewrite IH by done. lia.
Qed.

Lemma sweep_interior ns :
  Forall (fun n => 3 <= n) ns -> sweep <$> ns = (fun n => n - 2) <$> ns.
Proof.
  intros Hns. apply Forall_fmap_ext_1. eapply Forall_impl; [exact Hns|].
  intros n Hn. unfold sweep. simpl in Hn. lia.
Qed.

(** ** What [CreateOffsetsArray] returns *)

(** X22: On an image whose sizes are all at least 3 (and below 2^63), with
    as many strides as sizes, whose pixels all lie less than 2^63 elements
    from the origin and whose interior has at most [max_size] pixels,
    [CreateOffsetsArray( sizes, strides )] leaves its [for( ;; )] loop
    after one round per line of the interior and returns the offsets of
    the interior pixels, the first coordinate running fastest: as many as
    the product of [sizes[ ii ] - 2] it reserved, and an offset is
    returned exactly when it is that of a pixel whose every coordinate
    [c] has [1 <= c <= size - 2]. *)
Theorem CreateOffsetsArray_interior (max_size : N) (fuel : nat)
    (sizes : list N) (strides : list Z) :
  sizes <> [] ->
  Forall (fun n => 3 <= n < 2 ^ 63) sizes ->
  length strides = length sizes ->
  (extent sizes strides < 2 ^ 63)%Z ->
  volume ((fun n => n - 2) <$> sizes) <= max_size ->
  volume ((fun n => n - 2) <$> tail sizes) <= N.of_nat fuel ->
  exists offsets,
    Offsets.CreateOffsetsArray max_size fuel sizes strides =
      Some (Offsets.Returned offsets) /\
    offsets = (fun v => offset v strides) <$> interior sizes /\
    Word.size offsets = volume ((fun n => n - 2) <$> sizes) /\
    forall o, o ∈ offsets <->
              exists v, within v ((fun n => n - 2) <$> sizes) /\ o = offset v strides.
Proof.
  intros Hne Hsizes Hlen Hfit Hroom Hfuel.
  destruct sizes as [|n0 ns]; [done|]. destruct strides as [|s0 ss]; [done|].
  apply Forall_cons in Hsizes as [Hn0 Hns]. cbn [tail] in Hfuel.
  assert (Hsweep : sweep <$> ns = (fun n => n - 2) <$> ns).
  { apply sweep_interior. eapply Forall_impl; [exact Hns|]. simpl. lia. }
  assert (Hswept : swept (n0 :: ns) = interior (n0 :: ns)).
  { unfold swept, interior. by rewrite Hsweep, fmap_cons. }
  eexists. split; [|split; [reflexivity|split]].
  - rewrite <- Hswept. apply CreateOffsetsArray_sweeps.
    + lia.
    + eapply Forall_impl; [exact Hns|]. simpl. lia.
    + by simplify_eq/=.
    + done.
    + rewrite Hswept. unfold interior. by rewrite grid_size.
    + rewrite Hsweep. pose proof (grid_size ((fun n => n - 2) <$> ns)) as Hsize.
      unfold Word.size in Hsize. lia.
  - unfold Word.size. rewrite length_fmap. apply grid_size.
  - intros o. rewrite list_elem_of_fmap. unfold interior.
    split; intros (v & Hv & Ho); exists v.
    + split; [by apply elem_of_grid|done].
    + split; [done|by apply elem_of_grid].
Qed.

(** X23: A dimension of size 2 other than the first is swept at
    coordinate 1, although [sizes[ ii ] - 2] is 0 there: with a first size
    of at least 3 and the other sizes at least 2, one of them 2, the image
    has no interior pixel and 0 elements are reserved, yet
    [CreateOffsetsArray] returns the offsets of the pixels whose
    coordinates run from 1 to [max( 1, size - 2 )], and these are at
    least one. *)
Theorem CreateOffsetsArray_thin_dimension (max_size : N) (fuel : nat)
    (n0 : N) (ns : list N) (strides : list Z) :
  3 <= n0 < 2 ^ 63 ->
  Forall (fun n => 2 <= n < 2 ^ 63) ns ->
  2 ∈ ns ->
  length strides = S (length ns) ->
  (extent (n0 :: ns) strides < 2 ^ 63)%Z ->
  (n0 - 2) * volume (sweep <$> ns) <= max_size ->
  volume (sweep <$> ns) <= N.of_nat fuel ->
  interior (n0 :: ns) = [] /\
  Offsets.CreateOffsetsArray max_size fuel (n0 :: ns) strides =
    Some (Offsets.Returned ((fun v => offset v strides) <$> swept (n0 :: ns))) /\
  0 < Word.size (swept (n0 :: ns)).
Proof.
  intros Hn0 Hns Hthin Hlen Hfit Hroom Hfuel.
  destruct strides as [|s0 ss]; [done|].
  assert (Hsize : Word.size (swept (n0 :: ns)) = (n0 - 2) * volume (sweep <$> ns)).
  { unfold swept. by rewrite grid_size. }
  split; [|split].
  - apply size_nil_iff. unfold interior. rewrite grid_size.
    apply volume_zero. rewrite fmap_cons, elem_of_cons. right.
    apply list_elem_of_fmap. by exists 2.
  - apply CreateOffsetsArray_sweeps.
    + lia.
    + done.
    + by simplify_eq/=.
    + done.
    + by rewrite Hsize.
    + pose proof (grid_size (sweep <$> ns)) as Hgrid.
      unfold Word.size in Hgrid. lia.
  - rewrite Hsize.
    assert (1 <= volume (sweep <$> ns)); [|nia].
    apply volume_pos, Forall_fmap, Forall_forall. intros n _. unfold sweep. simpl. lia.
Qed.

(** X24: A dimension of size 1 makes [sizes[ ii ] - 2] wrap around to
    2^64 - 1: when the other sizes are at least 3 and the product [P] of
    their [size - 2] has [max_size + P < 2^64], the count [noInd] is
    [2^64 - P] and [offsets.reserve( noInd )] throws [std::length_error],
    before the loop is entered and whatever the strides are. *)
Theorem CreateOffsetsArray_singleton_dimension (max_size : N) (fuel : nat)
    (before after : list N) (strides : list Z) :
  Forall (fun n => 3 <= n < 2 ^ 63) (before ++ after) ->
  max_size + volume ((fun n => n - 2) <$> (before ++ after)) < Word.modulus ->
  Offsets.CreateOffsetsArray max_size fuel (before ++ 1 :: after) strides =
    Some Offsets.length_error.
Proof.
  intros Hsizes Hroom.
  set (P := volume ((fun n => n - 2) <$> (before ++ after))) in *.
  assert (Hsub : forall l, Forall (fun n => 3 <= n < 2 ^ 63) l ->
                 (fun size => Offsets.sub size 2) <$> l = (fun n => n - 2) <$> l).
  { intros l Hl. apply Forall_fmap_ext_1. eapply Forall_impl; [exact Hl|].
    intros n [Hn1 Hn2]. apply sub_exact; unfold Word.modulus; lia. }
  assert (HP : 1 <= P).
  { apply volume_pos, Forall_fmap. eapply Forall_impl; [exact Hsizes|].
    simpl. lia. }
  assert (Hcount : forall size sizes', size :: sizes' = before ++ 1 :: after ->
            fold_left (fun noInd size => Word.mul noInd (Offsets.sub size 2)) sizes'
              (Offsets.sub size 2) = Word.modulus - P).
  { intros size sizes' Heq. rewrite noInd_mod by apply sub_bounded.
    change (Offsets.sub size 2 * volume ((fun size => Offsets.sub size 2) <$> sizes'))
      with (volume ((fun size => Offsets.sub size 2) <$> (size :: sizes'))).
    rewrite Heq, fmap_app, fmap_cons, volume_app. cbn [volume foldr].
    fold (volume ((fun size => Offsets.sub size 2) <$> after)).
    apply Forall_app in Hsizes as [Hbefore Hafter].
    rewrite !Hsub by done.
    rewrite sub_wraps by (unfold Word.modulus; lia).
    assert (HPeq : P = volume ((fun n => n - 2) <$> before)
                       * volume ((fun n => n - 2) <$> after))
      by (unfold P; by rewrite fmap_app, volume_app).
    replace (volume ((fun n => n - 2) <$> before)
             * ((Word.modulus - (2 - 1)) * volume ((fun n => n - 2) <$> after)))
      with ((Word.modulus - 1) * P) by (rewrite HPeq; lia).
    unfold Word.wrap. symmetry. apply (N.mod_unique _ _ (P - 1)); [lia|].
    unfold Word.modulus in *. nia. }
  unfold Offsets.CreateOffsetsArray.
  destruct (before ++ 1 :: after) as [|size sizes'] eqn:Heq;
    [by destruct before|].
  rewrite (Hcount size sizes') by done. unfold Offsets.reserve.
  assert (Hlt : (max_size <? Word.modulus - P) = true) by (apply N.ltb_lt; lia).
  by rewrite Hlt.
Qed.

(** * Further worked examples

    The small table, before and after [Forge()], the registry and the
    image of the worked examples above, and an image of 5 by 4 pixels
    stored line after line. *)

Lemma forged_is_final_witness :
  Measurement.IsForged example_table = true /\
  Measurement.AddFeature "Mass" [Feature.ValueInformation.mk "Mass" ""] example_table
    = (Throw MeasurementForged, example_table) /\
  Measurement.EnsureFeature "Size" [] example_table
    = (Throw MeasurementForged, example_table) /\
  Measurement.AddObjectIDs [9] example_table = (Throw MeasurementForged, example_table).
Proof.
  split; [reflexivity|].
  destruct (forged_is_final example_table eq_refl) as (Hfeature & Hobjects & _).
  split; [exact (proj1 (Hfeature _ _))|].
  split; [exact (proj2 (Hfeature _ _))|exact (Hobjects _)].
Defined.

Lemma only_Forge_forges_witness :
  Measurement.IsForged example_unforged = false /\
  exec (OpStore 0 1%float) example_unforged = (Undefined, example_unforged).
Proof.
  split; [reflexivity|].
  destruct (only_Forge_forges example_unforged (OpStore 0 1%float)
              (exec (OpStore 0 1%float) example_unforged).1
              (exec (OpStore 0 1%float) example_unforged).2 eq_refl) as [_ Hstore].
  - apply surjective_pairing.
  - destruct (Hstore 0 1%float eq_refl) as [Hr Hm].
    rewrite (surjective_pairing (exec (OpStore 0 1%float) example_unforged)).
    rewrite Hr, Hm. reflexivity.
Defined.

Lemma feature_lookups_witness :
  reachable example_unforged /\
  Measurement.FeatureIndex example_unforged "Mass" = Throw (FeatureNotPresent "Mass") /\
  Measurement.Values_of example_unforged "Mass" = Throw (FeatureNotPresent "Mass") /\
  Measurement.FeatureIndex example_unforged "Feret" = Ok 1.
Proof.
  split; [exact example_unforged_reachable|].
  destruct (feature_lookups example_unforged "Mass" example_unforged_reachable)
    as (Habsent & _ & Hindex & _).
  destruct (Habsent eq_refl) as (H1 & _ & _ & H4 & _).
  split; [exact H1|]. split; [exact H4|].
  exact (Hindex 1 (Measurement.FeatureInfo.mk "Feret" 1 2) eq_refl).
Defined.

Lemma object_lookups_witness :
  reachable example_unforged /\
  Measurement.ObjectIndex example_unforged 3 = Ok 1 /\
  NoDup (Measurement.Objects example_unforged).
Proof.
  split; [exact example_unforged_reachable|].
  destruct (object_lookups example_unforged 3 example_unforged_reachable)
    as (Hrow & _ & _ & _ & _ & Hnodup).
  split; [apply Hrow; reflexivity|exact Hnodup].
Defined.

Lemma Values_partition_witness :
  reachable example_unforged /\
  exists groups,
    Forall2 (fun f group =>
               Measurement.Values_of example_unforged (Measurement.FeatureInfo.name f)
                 = Ok group /\
               Word.size group = Measurement.FeatureInfo.numberValues f)
            (Measurement.Features example_unforged) groups /\
    concat groups = Measurement.Values example_unforged.
Proof.
  split; [exact example_unforged_reachable|].
  exact (Values_partition example_unforged example_unforged_reachable).
Defined.

Lemma AddFeature_lookup_witness :
  reachable example_unforged /\
  exists m',
    Measurement.AddFeature "Mass" [Feature.ValueInformation.mk "Mass" ""] example_unforged
      = (Ok tt, m') /\
    Measurement.FeatureIndex m' "Mass" = Ok 2 /\
    Measurement.ValueIndex m' "Mass" = Ok 3 /\
    Measurement.ValueIndex m' "Feret" = Measurement.ValueIndex example_unforged "Feret".
Proof.
  split; [exact example_unforged_reachable|].
  assert (Hrun : Measurement.AddFeature "Mass" [Feature.ValueInformation.mk "Mass" ""]
                   example_unforged =
                 (Ok tt, (Measurement.AddFeature "Mass"
                            [Feature.ValueInformation.mk "Mass" ""] example_unforged).2))
    by (vm_compute; reflexivity).
  destruct (AddFeature_lookup example_unforged "Mass"
              [Feature.ValueInformation.mk "Mass" ""] _ example_unforged_reachable Hrun)
    as (_ & Hindex & Hcolumn & _ & _ & _ & _ & Hother & _).
  eexists. split; [exact Hrun|]. split; [exact Hindex|]. split; [exact Hcolumn|].
  destruct (Hother "Feret") as (_ & _ & Hsame & _); [discriminate|exact Hsame].
Defined.

Lemma views_enumerate_witness :
  reachable example_unforged /\
  Measurement.subscript_object example_unforged 3 =
    Ok (Measurement.IteratorObject.next (Measurement.FirstObject example_unforged)) /\
  Measurement.subscript_feature example_unforged "Feret" =
    Ok (Measurement.IteratorFeature.next (Measurement.FirstFeature example_unforged)).
Proof.
  split; [exact example_unforged_reachable|].
  pose proof (views_enumerate example_unforged 1 example_unforged_reachable eq_refl)
    as Hviews.
  cbv zeta in Hviews. destruct Hviews as [[_ Hobject] [_ Hfeature]].
  split; [exact (proj2 (Hobject 3 eq_refl))|].
  exact (proj2 (Hfeature (Measurement.FeatureInfo.mk "Feret" 1 2) eq_refl)).
Defined.

Lemma cells_tile_buffer_witness :
  reachable example_table /\
  Measurement.IteratorObject.Iterator.begin example_table
    (Measurement.IteratorObject.Iterator.mk (Measurement.IteratorObject.mk 1) 1) = Ok 4 /\
  Measurement.IteratorFeature.Iterator.end_ example_table
    (Measurement.IteratorFeature.Iterator.mk (Measurement.IteratorFeature.mk 1) 1) = Ok 6.
Proof.
  split; [exact example_table_reachable|].
  pose proof (cells_tile_buffer example_table 1 1 (Measurement.FeatureInfo.mk "Feret" 1 2)
                example_table_reachable eq_refl eq_refl eq_refl eq_refl) as Hcell.
  cbv zeta in Hcell. destruct Hcell as (Hbegin & _ & _ & _ & Hend & _).
  split; [exact Hbegin|exact Hend].
Defined.

Lemma cells_disjoint_witness :
  reachable example_table /\
  Measurement.IteratorObject.Iterator.subscript example_table
    (Measurement.IteratorObject.Iterator.mk (Measurement.IteratorObject.mk 1) 1) 1 = Ok 5 /\
  (1 = 1 /\ 1 = 1 /\ 1 = 1).
Proof.
  split; [exact example_table_reachable|]. split; [reflexivity|].
  exact (cells_disjoint example_table 1 1 1 1 1 1
           (Measurement.FeatureInfo.mk "Feret" 1 2) (Measurement.FeatureInfo.mk "Feret" 1 2) 5
           example_table_reachable eq_refl eq_refl eq_refl eq_refl eq_refl eq_refl
           eq_refl eq_refl eq_refl eq_refl).
Defined.

Lemma write_then_read_witness :
  reachable example_table /\
  exists address m',
    Measurement.feature_route example_table "Feret" 7 0 = Ok address /\
    Measurement.store address 1.5%float example_table = (Ok tt, m') /\
    (p ← Measurement.object_route m' 7 "Feret" 0; Measurement.load m' p) = Ok 1.5%float.
Proof.
  split; [exact example_table_reachable|].
  destruct (write_then_read example_table 7 "Feret" 0 2 1.5%float example_table_reachable
              eq_refl eq_refl eq_refl eq_refl eq_refl)
    as (address & m' & Hroute & Hstore & _ & Hread & _).
  exists address, m'. split; [exact Hroute|]. split; [exact Hstore|exact Hread].
Defined.

Lemma AddObjectIDs_returns_iff_witness :
  reachable example_unforged /\
  Measurement.IsForged example_unforged = false /\ NoDup [5; 9] /\
  Measurement.ObjectExists example_unforged 9 = false.
Proof.
  split; [exact example_unforged_reachable|].
  destruct (proj1 (AddObjectIDs_returns_iff [5; 9] example_unforged
                     example_unforged_reachable)) as (Hforged & Hnodup & Hfresh).
  - exists (Measurement.AddObjectIDs [5; 9] example_unforged).2. vm_compute. reflexivity.
  - split; [exact Hforged|]. split; [exact Hnodup|].
    apply Hfresh. apply list_elem_of_lookup_2 with 1%nat. reflexivity.
Defined.

Lemma buffer_size_witness :
  reachable example_table /\
  Word.size (Measurement.data_ example_table) =
    Word.mul (Measurement.NumberOfValues example_table)
             (Measurement.NumberOfObjects example_table) /\
  0 < Measurement.NumberOfObjects example_table.
Proof.
  split; [exact example_table_reachable|].
  destruct (buffer_size example_table example_table_reachable) as [_ Hforged].
  destruct (Hforged eq_refl) as (Hsize & _ & _ & Hobjects).
  split; [exact Hsize|exact Hobjects].
Defined.

Lemma Register_then_Index_witness :
  exists tool,
    register_all example_features MeasurementTool.empty = (Ok tt, tool) /\
    MeasurementTool.Index tool "Mass" = Ok 1 /\
    MeasurementTool.Index tool "Feret" = Throw (FeatureNameNotKnown "Feret").
Proof.
  assert (Hrun : register_all example_features MeasurementTool.empty =
                 (Ok tt, (register_all example_features MeasurementTool.empty).2))
    by (vm_compute; reflexivity).
  eexists. split; [exact Hrun|].
  destruct (Register_then_Index example_features _ "Mass" Hrun) as (_ & Hindex & _).
  split.
  - apply Hindex. eexists. split; reflexivity.
  - destruct (Register_then_Index example_features _ "Feret" Hrun) as (_ & _ & _ & Habsent).
    apply Habsent. reflexivity.
Defined.

Lemma scan_line_breaks_witness :
  scan example_lines example_indices (FeatureMass.mk 2 [0%float; 0%float]) =
  scan [ ([0; 1; 1; 0], [0%float; 4%float; 2%float; 0%float]);
         ([1; 2; 2; 2; 0], [6%float; 8%float; 3%float; 5%float; 0%float]) ]
       example_indices (FeatureMass.mk 2 [0%float; 0%float]).
Proof.
  apply scan_line_breaks.
  - exact example_lines_ok.
  - apply Forall_forall. repeat constructor; done.
  - intros id row [[_ ->]|[_ ->]]%example_indices_lookup; reflexivity.
  - reflexivity.
Defined.

Lemma Mass_of_absent_object_witness :
  exists self',
    (FeatureMass.Initialize (FeatureMass.mkImage true 2) (FeatureMass.mkImage true 2) 2 ;;
     scan [([0; 1; 1], [0%float; 4%float; 2%float])] example_indices)
      (FeatureMass.mk 0 []) = (Ok tt, self') /\
    forall output table,
      FeatureMass.Finish self' 1 output table = Measurement.store output 0%float table.
Proof.
  apply (Mass_of_absent_object (FeatureMass.mkImage true 2) (FeatureMass.mkImage true 2)
           [([0; 1; 1], [0%float; 4%float; 2%float])] example_indices 2
           (FeatureMass.mk 0 []) 2 1).
  - reflexivity.
  - apply Forall_forall. repeat constructor; done.
  - intros id row [[_ ->]|[_ ->]]%example_indices_lookup; reflexivity.
  - intros id1 id2 row [[-> ->]|[-> ->]]%example_indices_lookup
      [[-> ?]|[-> ?]]%example_indices_lookup; done.
  - apply example_indices_lookup. right. split; reflexivity.
  - apply Forall_forall. repeat constructor; discriminate.
Defined.

Lemma Mass_into_table_witness :
  reachable example_table /\
  mass_of 7 (pixels [([0; 7; 7], [0%float; 4%float; 2%float]);
                     ([3; 7], [1%float; 5%float])]) = 11%float /\
  exists self' row address m',
    (FeatureMass.Initialize (FeatureMass.mkImage true 2) (FeatureMass.mkImage true 2)
       (Measurement.NumberOfObjects example_table) ;;
     scan [([0; 7; 7], [0%float; 4%float; 2%float]); ([3; 7], [1%float; 5%float])]
          (Measurement.objectIndices_ example_table)) (FeatureMass.mk 0 [])
      = (Ok tt, self') /\
    Measurement.ObjectIndex example_table 7 = Ok row /\
    Measurement.feature_route example_table "Size" 7 0 = Ok address /\
    FeatureMass.Finish self' row address example_table = (Ok tt, m') /\
    schema m' = schema example_table /\
    (p ← Measurement.object_route m' 7 "Size" 0; Measurement.load m' p)
      = Ok (mass_of 7 (pixels [([0; 7; 7], [0%float; 4%float; 2%float]);
                               ([3; 7], [1%float; 5%float])])).
Proof.
  split; [exact example_table_reachable|]. split; [reflexivity|].
  apply (Mass_into_table example_table "Size" 7 1
           (FeatureMass.mkImage true 2) (FeatureMass.mkImage true 2)).
  - exact example_table_reachable.
  - reflexivity.
  - reflexivity.
  - reflexivity.
  - reflexivity.
  - reflexivity.
  - reflexivity.
  - apply Forall_forall. repeat constructor; done.
Defined.

(** The interior of an image of 5 by 4 pixels, of 5 by 2 pixels, and an
    image of 5 by 1 pixels; [max_size] is that of a vector of 64-bit
    elements, 2^60 - 1. *)
Lemma CreateOffsetsArray_interior_witness :
  Offsets.CreateOffsetsArray 1152921504606846975 2 [5; 4] [1; 5]%Z =
    Some (Offsets.Returned [6; 7; 8; 11; 12; 13]%Z).
Proof.
  destruct (CreateOffsetsArray_interior 1152921504606846975 2 [5; 4] [1; 5]%Z)
    as (offsets & Hrun & -> & _).
  - discriminate.
  - repeat constructor; lia.
  - reflexivity.
  - reflexivity.
  - vm_compute. discriminate.
  - vm_compute. discriminate.
  - exact Hrun.
Defined.

Lemma CreateOffsetsArray_thin_dimension_witness :
  interior [5; 2] = [] /\
  Offsets.CreateOffsetsArray 1152921504606846975 1 [5; 2] [1; 5]%Z =
    Some (Offsets.Returned [6; 7; 8]%Z).
Proof.
  destruct (CreateOffsetsArray_thin_dimension 1152921504606846975 1 5 [2] [1; 5]%Z)
    as (Hinterior & Hrun & _).
  - lia.
  - repeat constructor; lia.
  - apply list_elem_of_lookup_2 with 0%nat. reflexivity.
  - reflexivity.
  - reflexivity.
  - vm_compute. discriminate.
  - vm_compute. discriminate.
  - split; [exact Hinterior|exact Hrun].
Defined.

Lemma CreateOffsetsArray_singleton_dimension_witness :
  Offsets.CreateOffsetsArray 1152921504606846975 0 [5; 1] [1; 5]%Z =
    Some Offsets.length_error.
Proof.
  apply (CreateOffsetsArray_singleton_dimension 1152921504606846975 0 [5] [] [1; 5]%Z).
  - repeat constructor; lia.
  - reflexivity.
Defined.

(** A line of background and of an object the table does not hold, with
    no grey values at all; and a line whose grey values end too early. *)
Lemma ScanLine_background_witness :
  FeatureMass.ScanLine [0; 5; 0] [] [] 0 example_indices
    (FeatureMass.mk 2 [1%float; 2%float]) = (Ok tt, FeatureMass.mk 2 [1%float; 2%float]).
Proof.
  apply (ScanLine_background [0; 5; 0] [] [] 0 example_indices).
  - discriminate.
  - apply Forall_forall. apply Forall_cons. split; [by left|].
    apply Forall_cons. split; [right; vm_compute; reflexivity|].
    apply Forall_cons. split; [by left|constructor].
Defined.

Lemma ScanLine_undefined_witness :
  FeatureMass.ScanLine [0; 1; 1] [0%float] [] 0 example_indices
    (FeatureMass.mk 2 [0%float; 0%float]) = (Undefined, FeatureMass.mk 2 [0%float; 0%float]).
Proof.
  apply (ScanLine_undefined [0] [1] 1 [0%float] [] 0 0 example_indices).
  - apply Forall_forall. apply Forall_cons. split; [by left|constructor].
  - reflexivity.
  - apply example_indices_lookup. left. split; reflexivity.
  - right. simpl. lia.
Defined.
